(** * Chameleon Ultra toolbox: frame codec, command channel, device session
    and RFID dump decoder, embedded from the JavaScript sources.

  The development follows the layers of the code:
  - [JS]      the few JavaScript primitives the code relies on (int32 bit
              operations, typed-array stores, slices);
  - [Codec]   [lrcCalc], [makeDataFrame] and the streaming [parseFrames];
  - [Channel] the pending-callback table of [sendCommand] / [sendCmd];
  - [Session] the chunked page/block transfers of the [slot] command;
  - [Scanner] the NTAG215 scan-and-save script;
  - [RFID]    the dump classifier and the EM410X / NDEF decoders;
  - [Stream], [Serial]  byte streams of frames and the serial decoder;
  - [Runs], [Upload]    what a run of a command reads, writes and sends;
  - [Dump]    the fields of a dump report;
  - [FS]      the virtual file system behind [writeFile] and [readFile];
  - [Shell]   the command line: tokenizer, history, [slot change] and the
              hex helpers. *)

From Stdlib Require Import ZArith Lia List Ascii String Permutation.
From stdpp Require Import base option list gmap.
Import ListNotations.
Local Open Scope Z_scope.

(* ===================================================================== *)
(** ** JavaScript primitives *)
(* ===================================================================== *)

Module JS.

(** A byte as stored in a [Uint8Array]. *)
Definition byte_ok (b : Z) : Prop := 0 <= b < 256.

Definition is_byte (b : Z) : bool := (0 <=? b) && (b <? 256).

(** [ToInt32]: the operand conversion of every JavaScript bit operator. *)
Definition toInt32 (z : Z) : Z := (z + 2 ^ 31) mod 2 ^ 32 - 2 ^ 31.

(** A missing array element is [undefined], which [ToInt32] sends to 0. *)
Definition toInt32o (o : option Z) : Z :=
  match o with Some z => toInt32 z | None => 0 end.

Definition shl (a n : Z) : Z := toInt32 (Z.shiftl (toInt32 a) (n mod 32)).
Definition shr (a n : Z) : Z := Z.shiftr (toInt32 a) (n mod 32).
Definition band (a b : Z) : Z := Z.land (toInt32 a) (toInt32 b).
Definition bor (a b : Z) : Z := Z.lor (toInt32 a) (toInt32 b).

(** Storing a number into a [Uint8Array] keeps its low eight bits. *)
Definition u8 (z : Z) : Z := z mod 256.

(** [a.slice(from, to)] for indices [0 <= from], clamped to the array. *)
Definition slice {A} (l : list A) (from to : Z) : list A :=
  take (Z.to_nat (to - from)) (drop (Z.to_nat from) l).

(** [a.slice(from)]. *)
Definition slice_from {A} (l : list A) (from : Z) : list A :=
  drop (Z.to_nat from) l.

(** [a[i]]: [None] stands for [undefined]. *)
Definition at_ {A} (l : list A) (i : Z) : option A :=
  if i <? 0 then None else l !! Z.to_nat i.

(** [x !== n] where [x] may be [undefined]. *)
Definition strict_neq (x : option Z) (n : Z) : bool :=
  match x with Some v => negb (v =? n) | None => true end.

(** [target.set(src, offset)] on typed arrays of bytes, for a source that
    fits (the callers below always allocate enough room). *)
Definition set_at (target src : list Z) (offset : Z) : list Z :=
  take (Z.to_nat offset) target ++ map u8 src
    ++ drop (Z.to_nat offset + length src) target.

Definition len {A} (l : list A) : Z := Z.of_nat (length l).

End JS.

(* ===================================================================== *)
(** ** Frame codec *)
(* ===================================================================== *)

Module Codec.
Import JS.

Definition SOF : Z := 0x11.
Definition MAX_DATA_LENGTH : Z := 4096.

(** [lrcCalc]: running sum masked to a byte, then two's complement. *)
Definition lrcCalc (array : list Z) : Z :=
  let ret := fold_left (fun ret b => Z.land (ret + b) 0xFF) array 0x00 in
  Z.land (0x100 - ret) 0xFF.

(** [makeDataFrame(cmd, data = null, status = 0)].  The frame is allocated
    zeroed and filled by indexed stores, then the three checksum slots are
    back-filled from the already written prefix. *)
Definition makeDataFrame (cmd : Z) (data : option (list Z)) (status : Z)
  : list Z :=
  let data := match data with None => [] | Some d => d end in
  let dataLen := len data in
  let frameLen := 1 + 1 + 2 + 2 + 2 + 1 + dataLen + 1 in
  let frame := replicate (Z.to_nat frameLen) 0 in
  let frame := <[0%nat := u8 SOF]> frame in
  let lrc1Pos := 1 in
  let frame := <[2%nat := u8 (band (shr cmd 8) 0xFF)]> frame in
  let frame := <[3%nat := u8 (band cmd 0xFF)]> frame in
  let frame := <[4%nat := u8 (band (shr status 8) 0xFF)]> frame in
  let frame := <[5%nat := u8 (band status 0xFF)]> frame in
  let frame := <[6%nat := u8 (band (shr dataLen 8) 0xFF)]> frame in
  let frame := <[7%nat := u8 (band dataLen 0xFF)]> frame in
  let lrc2Pos := 8 in
  let offset := 9 in
  let frame := if 0 <? dataLen then set_at frame data offset else frame in
  let offset := if 0 <? dataLen then offset + dataLen else offset in
  let lrc3Pos := offset in
  let frame :=
    <[Z.to_nat lrc1Pos := u8 (lrcCalc (slice frame 0 lrc1Pos))]> frame in
  let frame :=
    <[Z.to_nat lrc2Pos := u8 (lrcCalc (slice frame 0 lrc2Pos))]> frame in
  let frame :=
    <[Z.to_nat lrc3Pos := u8 (lrcCalc (slice frame 0 lrc3Pos))]> frame in
  frame.

(** The object handed to the response callback. *)
Record Frame : Type := mkFrame { cmd : Z; status : Z; data : list Z }.

(** What one turn of the [while] loop of [parseFrames] does. *)
Inductive event : Type :=
| InvalidSOF
| LRC1Mismatch
| LRC2Mismatch
| LRC3Mismatch
| ValidFrame (f : Frame).

Inductive step : Type :=
| Break                                  (* wait for more data *)
| Continue (e : event) (buffer : list Z) (* buffer replaced, loop again *).

(** The body of the loop, for a non-empty buffer. *)
Definition parseStep (buffer : list Z) : step :=
  if len buffer <? 9 then Break
  else if strict_neq (at_ buffer 0) SOF then
    Continue InvalidSOF (slice_from buffer 1)
  else if strict_neq (at_ buffer 1) (lrcCalc (slice buffer 0 1)) then
    Continue LRC1Mismatch (slice_from buffer 1)
  else
    let cmd :=
      bor (shl (toInt32o (at_ buffer 2)) 8) (toInt32o (at_ buffer 3)) in
    let status :=
      bor (shl (toInt32o (at_ buffer 4)) 8) (toInt32o (at_ buffer 5)) in
    let dataLen :=
      bor (shl (toInt32o (at_ buffer 6)) 8) (toInt32o (at_ buffer 7)) in
    let frameLen := 9 + dataLen + 1 in
    if len buffer <? frameLen then Break
    else if strict_neq (at_ buffer 8) (lrcCalc (slice buffer 0 8)) then
      Continue LRC2Mismatch (slice_from buffer 1)
    else
      let data := slice buffer 9 (9 + dataLen) in
      if strict_neq (at_ buffer (9 + dataLen))
                    (lrcCalc (slice buffer 0 (9 + dataLen))) then
        Continue LRC3Mismatch (slice_from buffer 1)
      else
        Continue (ValidFrame (mkFrame cmd status data))
                 (slice_from buffer frameLen).

(** [parseFrames]: the loop, with the list of what happened and the
    buffer left in [this.buffer] / [this.responseBuffer].  Every turn that
    continues removes at least one byte, so the buffer length bounds the
    number of turns. *)
Fixpoint parseLoop (turns : nat) (buffer : list Z) : list event * list Z :=
  match turns with
  | O => ([], buffer)
  | S turns' =>
    if 0 <? len buffer then
      match parseStep buffer with
      | Break => ([], buffer)
      | Continue e buffer' =>
        let r := parseLoop turns' buffer' in (e :: r.1, r.2)
      end
    else ([], buffer)
  end.

Definition parseFrames (buffer : list Z) : list event * list Z :=
  parseLoop (length buffer) buffer.

(** The frames surfaced to [handleResponse] / the response callbacks. *)
Definition frame_of (e : event) : option Frame :=
  match e with ValidFrame f => Some f | _ => None end.

Definition frames (evs : list event) : list Frame := omap frame_of evs.

(** The number of leading bytes thrown away one at a time. *)
Definition is_skip (e : event) : bool :=
  match e with ValidFrame _ => false | _ => true end.

Definition skipped (evs : list event) : nat :=
  length (filter (fun e => is_skip e = true) evs).

Definition all_skips (evs : list event) : Prop :=
  Forall (fun e => is_skip e = true) evs.

(** *** A buffer read as a frame candidate

    The checks of the wire format, stated on the bytes alone:
    [SOF | LRC1 | CMD(2) | STATUS(2) | LEN(2) | LRC2 | DATA(LEN) | LRC3]. *)

Definition be16 (c : list Z) (i : Z) : Z :=
  bor (shl (toInt32o (at_ c i)) 8) (toInt32o (at_ c (i + 1))).

Definition candidateDataLen (c : list Z) : Z := be16 c 6.

Definition candidateFrame (c : list Z) : Frame :=
  mkFrame (be16 c 2) (be16 c 4) (slice c 9 (9 + candidateDataLen c)).

(** The checksum byte at [pos] validates against the bytes before it. *)
Definition lrc_ok (c : list Z) (pos : Z) : Prop :=
  at_ c pos = Some (lrcCalc (slice c 0 pos)).

Definition well_formed (c : list Z) : Prop :=
  at_ c 0 = Some SOF /\ lrc_ok c 1 /\ lrc_ok c 8
  /\ lrc_ok c (9 + candidateDataLen c).

(** The frame of the wire format for a command, a status and a payload. *)
Definition header8 (c s n : Z) : list Z :=
  [SOF; lrcCalc [SOF]; c / 256; c mod 256; s / 256; s mod 256;
   n / 256; n mod 256].

Definition encoded (c s : Z) (p : list Z) : list Z :=
  let h := header8 c s (len p) in
  h ++ [lrcCalc h] ++ p ++ [lrcCalc (h ++ [lrcCalc h] ++ p)].

(** The whole candidate announced by the header is in the buffer. *)
Definition complete (c : list Z) : Prop :=
  9 <= len c /\ 9 + candidateDataLen c + 1 <= len c.

(** The two checks made on the first nine bytes: SOF and LRC1. *)
Definition header_ok (c : list Z) : Prop :=
  at_ c 0 = Some SOF /\ lrc_ok c 1.

(** The loop cannot decide yet: fewer than nine bytes, or a good header
    whose announced frame is not all there. *)
Definition must_wait (c : list Z) : Prop :=
  len c < 9 \/ (header_ok c /\ ~ complete c).

(** The bytes buffered show a failing check: a bad header in at least nine
    bytes, or a failing checksum in a whole announced frame. *)
Definition must_drop (c : list Z) : Prop :=
  9 <= len c /\ (~ header_ok c \/ (complete c /\ ~ well_formed c)).

(** No byte of the garbage looks like the first two bytes of a frame:
    [SOF] directly followed by its checksum [LRC1 = 0xEF]. *)
Fixpoint no_frame_start (garbage : list Z) : Prop :=
  match garbage with
  | a :: (b :: _) as rest =>
    ~ (a = SOF /\ b = lrcCalc [SOF]) /\ no_frame_start rest
  | _ => True
  end.

End Codec.

(* ===================================================================== *)
(** ** Command channel *)
(* ===================================================================== *)

Module Channel.
Import JS Codec.

(** A promise returned by [sendCommand] / [sendCmd]. *)
Inductive settled : Type :=
| Pending
| Resolved (response : Frame)
| Rejected (message : string).

(** The closure stored in [responseCallbacks[cmd]]: it captures the timer
    to clear and the promise to resolve. *)
Record callback : Type := mkCallback { cb_timeoutId : nat; cb_promise : nat }.

(** The closure given to [setTimeout]: it captures the command whose entry
    it deletes and the promise it rejects.  [tm_clears_silent] tells the two
    drivers apart: only the handler of [sendCmd] also deletes
    [silentCommands[cmd]]. *)
Record timer : Type := mkTimer {
  tm_cmd : Z; tm_promise : nat; tm_clears_silent : bool }.

Record state : Type := mkState {
  responseCallbacks : gmap Z callback;
  silentCommands : gset Z;
  timers : gmap nat timer;          (* armed timeouts *)
  promises : gmap nat settled;
  nextId : nat;                     (* next timer / promise identity *)
  buffer : list Z;                  (* [this.buffer] / [this.responseBuffer] *)
  written : list (list Z);          (* frames handed to the transport *)
  connected : bool                  (* [device.gatt.connected] *)
}.

Definition init : state :=
  mkState ∅ ∅ ∅ ∅ 0 [] [] true.

(** [resolve(v)] and [reject(e)] only act on a pending promise. *)
Definition settle (p : nat) (v : settled) (ps : gmap nat settled)
  : gmap nat settled :=
  match ps !! p with
  | Some Pending => <[p := v]> ps
  | _ => ps
  end.

Definition timeout_message : string := "Command response timed out".
Definition not_connected_message : string := "Device not connected".

(** [sendCommand(cmd, data, status, timeout)] of the device extension.
    Returns the identity of the promise handed back to the caller. *)
Definition sendCommand (cmd : Z) (data : option (list Z)) (status : Z)
  (st : state) : nat * state :=
  let frame := makeDataFrame cmd data status in
  let id := nextId st in
  (id,
   mkState (<[cmd := mkCallback id id]> (responseCallbacks st))
           (silentCommands st)
           (<[id := mkTimer cmd id false]> (timers st))
           (<[id := Pending]> (promises st))
           (S id)
           (buffer st)
           (written st ++ [frame])
           (connected st)).

(** [sendCmd(cmd, data, status, timeout, silent)] of the main page. *)
Definition sendCmd (cmd : Z) (data : option (list Z)) (status : Z)
  (silent : bool) (st : state) : nat * state :=
  let id := nextId st in
  if negb (connected st) then
    (id,
     mkState (responseCallbacks st) (silentCommands st) (timers st)
             (<[id := Rejected not_connected_message]> (promises st))
             (S id) (buffer st) (written st) (connected st))
  else
    let frame := makeDataFrame cmd data status in
    (id,
     mkState (<[cmd := mkCallback id id]> (responseCallbacks st))
             (if silent then {[cmd]} ∪ silentCommands st
              else silentCommands st)
             (<[id := mkTimer cmd id true]> (timers st))
             (<[id := Pending]> (promises st))
             (S id)
             (buffer st)
             (written st ++ [frame])
             (connected st)).

(** The timer [id] elapses: nothing happens when it was cleared. *)
Definition fireTimeout (id : nat) (st : state) : state :=
  match timers st !! id with
  | None => st
  | Some t =>
    mkState (delete (tm_cmd t) (responseCallbacks st))
            (if tm_clears_silent t then silentCommands st ∖ {[tm_cmd t]}
             else silentCommands st)
            (delete id (timers st))
            (settle (tm_promise t) (Rejected timeout_message) (promises st))
            (nextId st) (buffer st) (written st) (connected st)
  end.

(** A validated frame reaches the table: the tail of the loop body of
    [parseFrames] in the extension, [handleResponse] in the main page (the
    extension has no [silentCommands]; the set stays empty there). *)
Definition handleResponse (f : Frame) (st : state) : state :=
  match responseCallbacks st !! cmd f with
  | None => st
  | Some cb =>
    mkState (delete (cmd f) (responseCallbacks st))
            (silentCommands st ∖ {[cmd f]})
            (delete (cb_timeoutId cb) (timers st))
            (settle (cb_promise cb) (Resolved f) (promises st))
            (nextId st) (buffer st) (written st) (connected st)
  end.

(** The data callback: append, parse, dispatch every validated frame. *)
Definition onData (chunk : list Z) (st : state) : state :=
  let r := parseFrames (buffer st ++ chunk) in
  let st' := mkState (responseCallbacks st) (silentCommands st) (timers st)
                     (promises st) (nextId st) r.2 (written st)
                     (connected st) in
  fold_left (fun s f => handleResponse f s) (frames r.1) st'.

(** What can happen to a session between two points of interest. *)
Inductive action : Type :=
| ASendCommand (cmd : Z) (data : option (list Z)) (status : Z)
| ASendCmd (cmd : Z) (data : option (list Z)) (status : Z) (silent : bool)
| ATimeout (id : nat)
| AData (chunk : list Z).

Definition act (a : action) (st : state) : state :=
  match a with
  | ASendCommand c d s => (sendCommand c d s st).2
  | ASendCmd c d s silent => (sendCmd c d s silent st).2
  | ATimeout id => fireTimeout id st
  | AData chunk => onData chunk st
  end.

Definition run (l : list action) (st : state) : state :=
  fold_left (fun s a => act a s) l st.

(** The two drivers behind one name. *)
Inductive driver : Type :=
| Extension                  (* [sendCommand] of the device extension *)
| MainPage (silent : bool)   (* [sendCmd] of the main page *).

Definition send (dr : driver) (cmd : Z) (data : option (list Z)) (status : Z)
  (st : state) : nat * state :=
  match dr with
  | Extension => sendCommand cmd data status st
  | MainPage silent => sendCmd cmd data status silent st
  end.

(** *** Bookkeeping of identities

    Timers and promises are only ever created by the two send functions,
    so every identity a table mentions is older than [nextId]. *)
Definition wf (st : state) : Prop :=
  (forall k cb, responseCallbacks st !! k = Some cb ->
     (cb_timeoutId cb < nextId st)%nat /\ (cb_promise cb < nextId st)%nat)
  /\ (forall id t, timers st !! id = Some t ->
        (id < nextId st)%nat /\ (tm_promise t < nextId st)%nat).

(** The send of command [c] that returned promise [p] is still waiting:
    its timer is armed, its promise pending, and nothing else can settle
    the promise or clear the timer. *)
Definition waiting (st : state) (c : Z) (p : nat) : Prop :=
  (exists silent, timers st !! p = Some (mkTimer c p silent))
  /\ promises st !! p = Some Pending
  /\ (p < nextId st)%nat
  /\ (forall k cb, responseCallbacks st !! k = Some cb ->
        cb_promise cb = p \/ cb_timeoutId cb = p -> k = c)
  /\ (forall id t, timers st !! id = Some t -> tm_promise t = p -> id = p).

(** An action that neither is the time-out of [p] nor brings a frame for
    command [c]. *)
Definition quiet (c : Z) (p : nat) (a : action) (st : state) : Prop :=
  match a with
  | ASendCommand _ _ _ | ASendCmd _ _ _ _ => True
  | ATimeout id => id <> p
  | AData chunk =>
    Forall (fun f => cmd f <> c) (frames (parseFrames (buffer st ++ chunk)).1)
  end.

Fixpoint quiet_run (c : Z) (p : nat) (l : list action) (st : state) : Prop :=
  match l with
  | [] => True
  | a :: l' => quiet c p a st /\ quiet_run c p l' (act a st)
  end.

End Channel.

(* ===================================================================== *)
(** ** Running a device script: commands, console, files, completions *)
(* ===================================================================== *)

Module Exec.
Import JS Codec.

(** What [await device.cmd(...)] gives back: a response frame, or a
    rejection (time-out, transport failure) that surfaces as a throw. *)
Inductive outcome : Type :=
| Response (r : Frame)
| Throws (message : string).

Record request : Type := mkRequest { rq_cmd : Z; rq_data : option (list Z) }.

#[global] Instance request_eq_dec : EqDecision request.
Proof. solve_decision. Defined.

(** How a block of statements ends. *)
Inductive completion (A : Type) : Type :=
| Normal (a : A)
| Returned                      (* a [return;] statement was reached *)
| Thrown (message : string).
Arguments Normal {A} a.
Arguments Returned {A}.
Arguments Thrown {A} message.

Section World.
Context {D L : Type}.

(** The device is an arbitrary state machine answering commands. *)
Definition device : Type := D -> Z -> option (list Z) -> D * outcome.

Record world : Type := mkWorld {
  dev : D;
  trace : list (request * outcome);     (* commands issued, in order *)
  console : list (bool * L);            (* [logToConsole(msg, isError)] *)
  files : list (string * list Z)        (* calls of [writeFile] *)
}.

Definition M (A : Type) : Type := world -> world * completion A.

Definition ret {A} (a : A) : M A := fun w => (w, Normal a).

Definition bind {A B} (m : M A) (k : A -> M B) : M B :=
  fun w =>
    match m w with
    | (w', Normal a) => k a w'
    | (w', Returned) => (w', Returned)
    | (w', Thrown e) => (w', Thrown e)
    end.

Definition return_ {A} : M A := fun w => (w, Returned).
Definition throw {A} (e : string) : M A := fun w => (w, Thrown e).

Definition log (isError : bool) (msg : L) : M unit :=
  fun w => (mkWorld (dev w) (trace w) (console w ++ [(isError, msg)])
                    (files w), Normal tt).

(** [await device.cmd(cmdNum, data)]. *)
Definition cmd_ (device_cmd : device) (cmdNum : Z) (data : option (list Z))
  : M Frame :=
  fun w =>
    let '(d', o) := device_cmd (dev w) cmdNum data in
    let w' := mkWorld d' (trace w ++ [(mkRequest cmdNum data, o)])
                      (console w) (files w) in
    match o with
    | Response r => (w', Normal r)
    | Throws e => (w', Thrown e)
    end.

(** [await writeFile(path, content)]; [fs path content] is [None] when the
    file layer throws, else the success flag it returns. *)
Definition writeFile_ (fs : string -> list Z -> option bool)
  (path : string) (content : list Z) : M bool :=
  fun w =>
    let w' := mkWorld (dev w) (trace w) (console w)
                      (files w ++ [(path, content)]) in
    match fs path content with
    | Some ok => (w', Normal ok)
    | None => (w', Thrown "write failed")
    end.

(** A [for] loop over the indices it visits, threading the variables the
    body updates; it is left early by [return] or a throw. *)
Fixpoint forEach {A} (indices : list Z) (acc : A) (body : Z -> A -> M A)
  : M A :=
  match indices with
  | [] => ret acc
  | i :: rest => bind (body i acc) (fun acc' => forEach rest acc' body)
  end.

(** [try { body } catch (err) { handler(err) } finally { fin }] where the
    handler and the finaliser themselves complete normally. *)
Definition try_catch_finally (body : M unit) (handler : string -> M unit)
  (fin : M unit) : M unit :=
  fun w =>
    match body w with
    | (w1, Normal tt) => fin w1
    | (w1, Returned) =>
      match fin w1 with
      | (w2, Normal tt) => (w2, Returned)
      | r => r
      end
    | (w1, Thrown e) =>
      match handler e w1 with
      | (w2, Normal tt) => fin w2
      | (w2, Returned) =>
        match fin w2 with
        | (w3, Normal tt) => (w3, Returned)
        | r => r
        end
      | (w2, Thrown e') =>
        match fin w2 with
        | (w3, Normal tt) => (w3, Thrown e')
        | r => r
        end
      end
    end.

Definition try_catch (body : M unit) (handler : string -> M unit) : M unit :=
  try_catch_finally body handler (ret tt).

End World.

Arguments device : clear implicits.
Arguments world : clear implicits.
Arguments M : clear implicits.

(** The indices visited by [for (let i = start; i < stop; i += stride)]
    when the body leaves [i] alone and [stride] is positive. *)
Fixpoint range_from (n : nat) (i stop stride : Z) : list Z :=
  match n with
  | O => []
  | S n' => if i <? stop then i :: range_from n' (i + stride) stop stride
            else []
  end.

Definition range_by (start stop stride : Z) : list Z :=
  range_from (Z.to_nat (stop - start)) start stop stride.

End Exec.

Declare Scope exec_scope.
Delimit Scope exec_scope with exec.
Notation "'let*' x ':=' m 'in' k" := (Exec.bind m (fun x => k))
  (at level 10, x name, m at level 100, k at level 200) : exec_scope.

(* ===================================================================== *)
(** ** Device session: the [slot save] and [slot loadram/loadflash]
       commands of the device extension *)
(* ===================================================================== *)

Module Session.
Import JS Codec Exec.
Local Open Scope exec_scope.

Definition CMD_SET_ACTIVE_SLOT : Z := 1003.
Definition CMD_GET_ACTIVE_SLOT : Z := 1018.
Definition CMD_GET_SLOT_INFO : Z := 1019.
Definition CMD_SET_SLOT_TAG_TYPE : Z := 1004.
Definition CMD_MF0_NTAG_WRITE_EMU_PAGE_DATA : Z := 4022.
Definition CMD_MF0_NTAG_READ_EMU_PAGE_DATA : Z := 4021.
Definition CMD_SLOT_DATA_CONFIG_SAVE : Z := 1009.
Definition CMD_SET_ACTIVE_MODE : Z := 1001.
Definition CMD_HF14A_SCAN : Z := 2000.
Definition CMD_HF14A_RAW : Z := 2010.
Definition CMD_MF1_WRITE_EMU_BLOCK_DATA : Z := 4000.
Definition CMD_MF1_READ_EMU_BLOCK_DATA : Z := 4008.
Definition CMD_EM410X_SET_EMU_ID : Z := 5000.
Definition CMD_EM410X_GET_EMU_ID : Z := 5001.

Definition SUCCESS : Z := 0x68.

Inductive frequency : Type := hf | lf | other_frequency.

#[global] Instance frequency_eq_dec : EqDecision frequency.
Proof. solve_decision. Defined.

(** The console lines of the two commands, with the values they print. *)
Inductive message : Type :=
| FrequencyMustBeHfOrLf
| ErrorReadingCurrentSlot
| ErrorReadingSlotInfo
| SlotIsEmpty
| ReadingData (tagType : Z)
| SwitchingToSlot
| ErrorSwitchingToSlot (status : Z)
| ErrorReadingPages (first last status : Z)
| ErrorReadingBlocks (first last status : Z)
| HfNotSupportedForSaving (tagType : Z)
| ErrorReadingEM410X (status : Z)
| EM410XId (id : list Z)
| LfNotSupportedForSaving (tagType : Z)
| SavedBytes (n : Z) (path : string)
| FailedToSaveFile (path : string)
| ErrorSavingData (err : string)
| FailedToReadFile
| LoadedBytes (n : Z)
| SettingTagType
| ErrorSettingTagType (status : Z)
| WritingNTAG
| ErrorWritingPages (first last status : Z)
| WrotePages (n : Z)
| WritingMifareClassic
| ErrorWritingBlocks (first last status : Z)
| WroteBlocks (n : Z)
| EM410XRequires5Bytes
| WritingEM410X
| ErrorWritingEM410X (status : Z)
| WroteEM410X
| LfNotSupportedForLoading
| SavingToFlash
| FailedToSaveToFlash (status : Z)
| SavedToFlash
| LoadedToRam
| SuccessfullyLoaded
| ErrorLoadingData (err : string)
| TagTypeIsLfNotHf
| TagTypeIsHfNotLf.

(** A possibly [undefined] number stored into a [Uint8Array]. *)
Definition u8o (x : option Z) : Z :=
  match x with Some v => u8 v | None => 0 end.

(** [(data[i] << 8) | data[i + 1]] where [i] may be [NaN]. *)
Definition be16_at (data : list Z) (i : option Z) : Z :=
  match i with
  | Some i => bor (shl (toInt32o (at_ data i)) 8) (toInt32o (at_ data (i + 1)))
  | None => 0
  end.

Definition pageCounts (tagType : Z) : option Z :=
  if tagType =? 1100 then Some 45
  else if tagType =? 1101 then Some 135
  else if tagType =? 1102 then Some 231
  else if tagType =? 1107 then Some 20
  else if tagType =? 1108 then Some 41
  else None.

Definition blockCounts (tagType : Z) : option Z :=
  if tagType =? 1000 then Some 20
  else if tagType =? 1001 then Some 64
  else if tagType =? 1002 then Some 128
  else if tagType =? 1003 then Some 256
  else None.

Section Commands.
Context {D : Type}.
Variable device_cmd : device D.
(** [API.writeFile] and [API.readFile]; [None] when they throw. *)
Variable fs_write : string -> list Z -> option bool.
Variable fs_read : string -> option (option (list Z)).
(** The "Generate filename" block, which reads the clock. *)
Variable makeFilePath : string -> frequency -> Z -> string.

Abbreviation M := (Exec.M D message).
Abbreviation cmd := (cmd_ device_cmd).

(** The body shared by the two read loops of [slot save]: one request for
    at most 32 units starting at [index]. *)
Definition readChunk (command : Z) (total : Z)
  (failure : Z -> Z -> Z -> message) (index : Z) (allData : list Z)
  : M (list Z) :=
  let toRead := Z.min 32 (total - index) in
  let cmdData := [u8 index; u8 toRead] in
  let* readResult := cmd command (Some cmdData) in
  if negb (status readResult =? SUCCESS) then
    let* _ := log true
               (failure index (index + toRead - 1) (status readResult)) in
    return_
  else ret (allData ++ data readResult).

(** [for (let index = 0; index < total; index += 32) { ... }]. *)
Definition readLoop (command : Z) (total : Z)
  (failure : Z -> Z -> Z -> message) : M (list Z) :=
  forEach (range_by 0 total 32) [] (readChunk command total failure).

(** The body of "Read data based on tag type". *)
Definition readTagData (freq : frequency) (tagType : Z) : M (list Z) :=
  match freq with
  | hf =>
    if (1100 <=? tagType) && (tagType <=? 1108) then
      let pageSize := 4 in
      let totalPages :=
        match pageCounts tagType with Some n => n | None => 135 end in
      let* allData :=
        readLoop CMD_MF0_NTAG_READ_EMU_PAGE_DATA totalPages ErrorReadingPages in
      ret (map u8 allData)
    else if (1000 <=? tagType) && (tagType <=? 1003) then
      let blockSize := 16 in
      let totalBlocks :=
        match blockCounts tagType with Some n => n | None => 64 end in
      let* allData :=
        readLoop CMD_MF1_READ_EMU_BLOCK_DATA totalBlocks ErrorReadingBlocks in
      ret (map u8 allData)
    else
      let* _ := log true (HfNotSupportedForSaving tagType) in return_
  | lf =>
    if (tagType =? 100) || ((100 <=? tagType) && (tagType <=? 103)) then
      let* readResult := cmd CMD_EM410X_GET_EMU_ID None in
      if negb (status readResult =? SUCCESS) then
        let* _ := log true (ErrorReadingEM410X (status readResult)) in return_
      else
        let fileData := slice (data readResult) 0 5 in
        let* _ := log false (EM410XId fileData) in
        ret fileData
    else
      let* _ := log true (LfNotSupportedForSaving tagType) in return_
  | other_frequency => ret []   (* not reached: [slotSave] returned before *)
  end.

(** "Get slot number if not specified" and "Switch to slot if needed",
    shared by both commands.  The slot number is [undefined] ([None]) when
    the device answered with an empty payload. *)
Definition currentSlotOr (slotArg : option Z) : M (option Z) :=
  match slotArg with
  | Some n => ret (Some n)
  | None =>
    let* currentSlot := cmd CMD_GET_ACTIVE_SLOT None in
    if negb (status currentSlot =? SUCCESS) then
      let* _ := log true ErrorReadingCurrentSlot in return_
    else ret (at_ (data currentSlot) 0)
  end.

Definition switchToSlot (slotNum : option Z) : M unit :=
  let* currentSlotCheck := cmd CMD_GET_ACTIVE_SLOT None in
  if (status currentSlotCheck =? SUCCESS)
     && negb (bool_decide (at_ (data currentSlotCheck) 0 = slotNum)) then
    let* _ := log false SwitchingToSlot in
    let* switchResult := cmd CMD_SET_ACTIVE_SLOT (Some [u8o slotNum]) in
    if negb (status switchResult =? SUCCESS) then
      let* _ := log true (ErrorSwitchingToSlot (status switchResult)) in
      return_
    else ret tt
  else ret tt.

(** The [try] block of [slot save], after the arguments were parsed. *)
Definition slotSaveBody (slotArg : option Z) (freq : frequency)
  (userPath : string) : M unit :=
  let* slotNum := currentSlotOr slotArg in
  let* slotInfo := cmd CMD_GET_SLOT_INFO None in
  if negb (status slotInfo =? SUCCESS) then
    let* _ := log true ErrorReadingSlotInfo in return_
  else
    let slotIndex := (fun n => n * 4) <$> slotNum in
    let hfType := be16_at (data slotInfo) slotIndex in
    let lfType := be16_at (data slotInfo) ((fun i => i + 2) <$> slotIndex) in
    let tagType := match freq with hf => hfType | _ => lfType end in
    if tagType =? 0 then
      let* _ := log true SlotIsEmpty in return_
    else
      let* _ := log false (ReadingData tagType) in
      let* _ := switchToSlot slotNum in
      let* fileData := readTagData freq tagType in
      let filePath := makeFilePath userPath freq tagType in
      let* saveSuccess := writeFile_ fs_write filePath fileData in
      if saveSuccess then log false (SavedBytes (len fileData) filePath)
      else log true (FailedToSaveFile filePath).

(** [slot save [slot] <hf|lf> [path]]. *)
Definition slotSave (slotArg : option Z) (freq : frequency)
  (userPath : string) : M unit :=
  match freq with
  | other_frequency => let* _ := log true FrequencyMustBeHfOrLf in return_
  | _ =>
    try_catch (slotSaveBody slotArg freq userPath)
              (fun err => log true (ErrorSavingData err))
  end.

(** The inner loop filling one request of the write loops:
    [for (let i = 0; i < unitsThisBatch; i++) cmdData.set(..., destOffset)]. *)
Definition fillBatch (fileData : list Z) (unitSize header : Z)
  (index unitsThisBatch : Z) (cmdData : list Z) : list Z :=
  fold_left
    (fun cmdData i =>
       let srcOffset := (index + i) * unitSize in
       let destOffset := header + i * unitSize in
       let bytesToCopy := Z.min unitSize (len fileData - srcOffset) in
       set_at cmdData (slice fileData srcOffset (srcOffset + bytesToCopy))
              destOffset)
    (range_by 0 unitsThisBatch 1) cmdData.

(** One request of the page write loop. *)
Definition writePageBatch (fileData : list Z) (totalPages : Z)
  (pageIndex : Z) (_ : unit) : M unit :=
  let pageSize := 4 in
  let pagesThisBatch := Z.min 32 (totalPages - pageIndex) in
  let cmdData := replicate (Z.to_nat (2 + pagesThisBatch * pageSize)) 0 in
  let cmdData := <[0%nat := u8 pageIndex]> cmdData in
  let cmdData := <[1%nat := u8 pagesThisBatch]> cmdData in
  let cmdData :=
    fillBatch fileData pageSize 2 pageIndex pagesThisBatch cmdData in
  let* writeResult := cmd CMD_MF0_NTAG_WRITE_EMU_PAGE_DATA (Some cmdData) in
  if negb (status writeResult =? SUCCESS) then
    let* _ := log true
               (ErrorWritingPages pageIndex (pageIndex + pagesThisBatch - 1)
                                  (status writeResult)) in
    return_
  else ret tt.

(** The page write loop of [slot loadram/loadflash]. *)
Definition writePages (fileData : list Z) : M unit :=
  let pageSize := 4 in
  let totalPages := (len fileData + pageSize - 1) / pageSize in
  let* _ := forEach (range_by 0 totalPages 32) tt
                    (writePageBatch fileData totalPages) in
  log false (WrotePages totalPages).

(** One request of the block write loop. *)
Definition writeBlockBatch (fileData : list Z) (totalBlocks : Z)
  (blockIndex : Z) (_ : unit) : M unit :=
  let blockSize := 16 in
  let blocksThisBatch := Z.min 32 (totalBlocks - blockIndex) in
  let cmdData := replicate (Z.to_nat (1 + blocksThisBatch * blockSize)) 0 in
  let cmdData := <[0%nat := u8 blockIndex]> cmdData in
  let cmdData :=
    fillBatch fileData blockSize 1 blockIndex blocksThisBatch cmdData in
  let* writeResult := cmd CMD_MF1_WRITE_EMU_BLOCK_DATA (Some cmdData) in
  if negb (status writeResult =? SUCCESS) then
    let* _ := log true
               (ErrorWritingBlocks blockIndex
                  (blockIndex + blocksThisBatch - 1) (status writeResult)) in
    return_
  else ret tt.

(** The block write loop of [slot loadram/loadflash]. *)
Definition writeBlocks (fileData : list Z) : M unit :=
  let blockSize := 16 in
  let totalBlocks := (len fileData + blockSize - 1) / blockSize in
  let* _ := forEach (range_by 0 totalBlocks 32) tt
                    (writeBlockBatch fileData totalBlocks) in
  log false (WroteBlocks totalBlocks).

(** "Step 2: Write data based on tag type". *)
Definition writeTagData (freq : frequency) (tagTypeValue : Z)
  (fileData : list Z) : M unit :=
  match freq with
  | hf =>
    if (1100 <=? tagTypeValue) && (tagTypeValue <=? 1108) then
      let* _ := log false WritingNTAG in writePages fileData
    else if (1000 <=? tagTypeValue) && (tagTypeValue <=? 1003) then
      let* _ := log false WritingMifareClassic in writeBlocks fileData
    else ret tt
  | lf =>
    if tagTypeValue =? 100 then
      if len fileData <? 5 then
        let* _ := log true EM410XRequires5Bytes in return_
      else
        let* _ := log false WritingEM410X in
        let* writeResult :=
          cmd CMD_EM410X_SET_EMU_ID (Some (slice fileData 0 5)) in
        if negb (status writeResult =? SUCCESS) then
          let* _ := log true (ErrorWritingEM410X (status writeResult)) in
          return_
        else log false WroteEM410X
    else
      let* _ := log true LfNotSupportedForLoading in return_
  | other_frequency => ret tt
  end.

(** The [try] block of [slot loadram] / [slot loadflash]. *)
Definition slotLoadBody (saveToFlash : bool) (slotArg : option Z)
  (freq : frequency) (tagTypeValue : Z) (filePath : string) : M unit :=
  match fs_read filePath with
  | None => throw "read failed"
  | Some None => let* _ := log true FailedToReadFile in return_
  | Some (Some fileData) =>
    let* _ := log false (LoadedBytes (len fileData)) in
    let* slotNum := currentSlotOr slotArg in
    let* _ := switchToSlot slotNum in
    let* _ := log false SettingTagType in
    let tagTypeBytes :=
      [u8o slotNum; u8 (band (shr tagTypeValue 8) 0xFF);
       u8 (band tagTypeValue 0xFF)] in
    let* setTypeResult := cmd CMD_SET_SLOT_TAG_TYPE (Some tagTypeBytes) in
    if negb (status setTypeResult =? SUCCESS) then
      let* _ := log true (ErrorSettingTagType (status setTypeResult)) in
      return_
    else
      let* _ := writeTagData freq tagTypeValue fileData in
      let* _ :=
        if saveToFlash then
          let* _ := log false SavingToFlash in
          let* saveResult := cmd CMD_SLOT_DATA_CONFIG_SAVE None in
          if negb (status saveResult =? SUCCESS) then
            log true (FailedToSaveToFlash (status saveResult))
          else log false SavedToFlash
        else log false LoadedToRam in
      log false SuccessfullyLoaded
  end.

(** [slot loadram|loadflash [slot] <hf|lf> <tag_type> <file>], for a tag
    type found in [tagTypeMap]. *)
Definition slotLoad (saveToFlash : bool) (slotArg : option Z)
  (freq : frequency) (tagTypeValue : Z) (filePath : string) : M unit :=
  if bool_decide (freq = hf) && (tagTypeValue <? 1000) then
    let* _ := log true TagTypeIsLfNotHf in return_
  else if bool_decide (freq = lf) && (1000 <=? tagTypeValue) then
    let* _ := log true TagTypeIsHfNotLf in return_
  else
    try_catch (slotLoadBody saveToFlash slotArg freq tagTypeValue filePath)
              (fun err => log true (ErrorLoadingData err)).

End Commands.

(** *** Reading a run of a command *)

(** The commands that move one chunk of a bulk transfer. *)
Definition is_chunk_cmd (c : Z) : bool :=
  (c =? CMD_MF0_NTAG_READ_EMU_PAGE_DATA) || (c =? CMD_MF1_READ_EMU_BLOCK_DATA)
  || (c =? CMD_MF0_NTAG_WRITE_EMU_PAGE_DATA)
  || (c =? CMD_MF1_WRITE_EMU_BLOCK_DATA).

(** A chunk request answered with a status other than [0x68]. *)
Definition failed_chunk (e : request * outcome) : Prop :=
  is_chunk_cmd (rq_cmd e.1) = true
  /\ exists r, e.2 = Response r /\ status r <> SUCCESS.

Definition no_failed_chunk (l : list (request * outcome)) : Prop :=
  Forall (fun e => ~ failed_chunk e) l.

(** The console line of a failed chunk. *)
Definition chunk_error (m : message) : Prop :=
  match m with
  | ErrorReadingPages _ _ _ | ErrorReadingBlocks _ _ _
  | ErrorWritingPages _ _ _ | ErrorWritingBlocks _ _ _ => True
  | _ => False
  end.

(** A run from [w] to [w'] that wrote no file and either met no failed
    chunk or stopped right at the first one: the failed request is the last
    command issued, the block is left by [return], and the last console
    line is the error line of that chunk. *)
Definition stops_at_failed_chunk {D A} (strict : bool)
  (w w' : world D message) (c : completion A) : Prop :=
  exists new,
    trace w' = trace w ++ new
    /\ (strict = true -> files w' = files w)
    /\ (no_failed_chunk new
        \/ exists pre e msg,
             new = pre ++ [e] /\ no_failed_chunk pre /\ failed_chunk e
             /\ c = Returned /\ files w' = files w
             /\ last (console w') = Some (true, msg) /\ chunk_error msg).

Definition careful {D A} (strict : bool) (m : Exec.M D message A) : Prop :=
  forall w, stops_at_failed_chunk strict w (m w).1 (m w).2.

(** *** Two devices to run the commands on *)


(** A device holding an NTAG 215 in slot 1 that answers the first page read
    and rejects every later one with status 0x60; its state counts the page
    reads it has seen. *)
Definition flaky : device nat :=
  fun d c payload =>
    if c =? CMD_GET_ACTIVE_SLOT then (d, Response (mkFrame c SUCCESS [0]))
    else if c =? CMD_GET_SLOT_INFO then
      (d, Response (mkFrame c SUCCESS [0x04; 0x4D; 0; 0]))
    else if c =? CMD_MF0_NTAG_READ_EMU_PAGE_DATA then
      match d with
      | O => (S d, Response (mkFrame c SUCCESS (replicate 128 0)))
      | S _ => (S d, Response (mkFrame c 0x60 []))
      end
    else (d, Response (mkFrame c SUCCESS [])).

Definition no_files : string -> list Z -> option bool := fun _ _ => Some true.

Definition dump_name : string -> frequency -> Z -> string :=
  fun _ _ _ => "dump.bin"%string.

Definition fresh_world {D L} (d : D) : world D L := mkWorld d [] [] [].

(** The request for [n] pages from page [i] on. *)
Definition pageRead (i n : Z) : request :=
  mkRequest CMD_MF0_NTAG_READ_EMU_PAGE_DATA (Some [i; n]).

(** Every read request of [command] is answered with success and exactly
    [unit] bytes per requested unit. *)
Definition answers_reads {D} (device_cmd : device D) (command unit : Z)
  : Prop :=
  forall d i n, byte_ok i -> byte_ok n -> exists d' r,
    device_cmd d command (Some [i; n]) = (d', Response r)
    /\ status r = SUCCESS /\ len (data r) = n * unit
    /\ Forall byte_ok (data r).

End Session.

(* ===================================================================== *)
(** ** The NTAG215 scan-and-save script *)
(* ===================================================================== *)

Module Scanner.
Import JS Codec Exec.
Local Open Scope exec_scope.

Definition CMD_HF14A_SCAN : Z := Session.CMD_HF14A_SCAN.
Definition CMD_SET_ACTIVE_MODE : Z := Session.CMD_SET_ACTIVE_MODE.
Definition CMD_HF14A_RAW : Z := Session.CMD_HF14A_RAW.

Inductive message : Type :=
| DeviceNotConnected
| Banner
| SwitchingToReaderMode
| FailedToSwitchToReaderMode (status : Z)
| ReaderModeActivated
| ScanningForTag
| TagDetectedOnAttempt (attempt : Z)
| NoTagRetrying (attempt : Z)
| NoTagFound
| TagDetected (uid atqa : list Z) (sak : Z)
| MayNotBeNTAG215
| ReadingNTAG215
| FailedToReadPage (page status : Z)
| Progress (page : Z)
| ReadComplete
| SavingTo (filename : string)
| FileSaved
| Summary (size : Z) (filename : string)
| ScanAndSaveComplete
| ScanError (err : string)
| SwitchingBackToEmulatorMode
| EmulatorModeRestored
| CouldNotRestoreEmulatorMode (err : string).

Section Script.
Context {D : Type}.
Variable device_cmd : device D.
(** [window.ToolboxAPI.fs.writeFile]; [None] when it throws. *)
Variable fs_write : string -> list Z -> option bool.
(** The file name, built from the UID and the clock. *)
Variable makeFileName : list Z -> string.

Abbreviation M := (Exec.M D message).
Abbreviation cmd := (cmd_ device_cmd).

(** [await new Promise(resolve => setTimeout(resolve, ms))]: time passes,
    nothing else changes. *)
Definition sleep (ms : Z) : M unit := ret tt.

Definition maxRetries : Z := 5.

(** "Step 1: Scan for HF tag (with retries)": the loop is left by [break]
    at the first non-empty answer. *)
Fixpoint scanLoop (attempts : list Z) (scanResponse : option Frame)
  : M (option Frame) :=
  match attempts with
  | [] => ret scanResponse
  | attempt :: rest =>
    let* r := cmd CMD_HF14A_SCAN None in
    if 0 <? len (data r) then
      let* _ := log false (TagDetectedOnAttempt attempt) in
      ret (Some r)
    else
      let* _ :=
        if attempt <? maxRetries then
          let* _ := log false (NoTagRetrying attempt) in sleep 500
        else ret tt in
      scanLoop rest (Some r)
  end.

Definition totalPages : Z := 135.
Definition pageSize : Z := 4.

(** "Step 2: Read all pages": four pages per READ (0x30) command. *)
Definition readAllPages : M (list Z) :=
  forEach (range_by 0 totalPages 4)
    (replicate (Z.to_nat (totalPages * pageSize)) 0)
    (fun page allData =>
       let options :=
         if page =? 0 then 128 + 64 + 32 + 16 + 8 + 4
         else 128 + 64 + 32 + 8 + 4 in
       let timeoutMs := 100 in
       let rawData := [u8 0x30; u8 page] in
       let bitLen := len rawData * 8 in
       let readCmd :=
         [u8 options;
          u8 (band (shr timeoutMs 8) 0xFF); u8 (band timeoutMs 0xFF);
          u8 (band (shr bitLen 8) 0xFF); u8 (band bitLen 0xFF)]
         ++ map u8 rawData in
       let* pageResponse := cmd CMD_HF14A_RAW (Some readCmd) in
       if negb (status pageResponse =? 0x00) then
         let* _ := log true (FailedToReadPage page (status pageResponse)) in
         return_
       else
         let dataReceived := slice (data pageResponse) 0 16 in
         let copyLen := Z.min 16 ((totalPages - page) * pageSize) in
         let allData :=
           set_at allData (slice dataReceived 0 copyLen) (page * pageSize) in
         let* _ :=
           if page mod 20 =? 0 then log false (Progress page) else ret tt in
         ret allData).

(** The [try] block. *)
Definition scanBody : M unit :=
  let* _ := log false SwitchingToReaderMode in
  let modeData := [u8 1] in
  let* modeResponse := cmd CMD_SET_ACTIVE_MODE (Some modeData) in
  if negb (status modeResponse =? 0x68) then
    let* _ := log true (FailedToSwitchToReaderMode (status modeResponse)) in
    return_
  else
    let* _ := log false ReaderModeActivated in
    let* _ := sleep 300 in
    let* _ := log false ScanningForTag in
    let* scanResponse := scanLoop (range_by 1 (maxRetries + 1) 1) None in
    match scanResponse with
    | None => throw "TypeError"      (* [null.data]; the loop ran five times *)
    | Some scanResponse =>
      if len (data scanResponse) =? 0 then
        let* _ := log true NoTagFound in return_
      else
        let uidLen := default 0 (at_ (data scanResponse) 0) in
        let uid := slice (data scanResponse) 1 (1 + uidLen) in
        let atqa := slice (data scanResponse) (1 + uidLen) (1 + uidLen + 2) in
        match at_ (data scanResponse) (1 + uidLen + 2) with
        | None => throw "TypeError"  (* [sak.toString] on [undefined] *)
        | Some sak =>
          let* _ := log false (TagDetected uid atqa sak) in
          let isNTAG :=
            (sak =? 0x00) && bool_decide (at_ atqa 0 = Some 0x44)
            && bool_decide (at_ atqa 1 = Some 0x00) in
          let* _ := if negb isNTAG then log false MayNotBeNTAG215
                    else ret tt in
          let* _ := log false ReadingNTAG215 in
          let* allData := readAllPages in
          let* _ := log false ReadComplete in
          let filename := makeFileName uid in
          let* _ := log false (SavingTo filename) in
          let* _ := writeFile_ fs_write filename allData in
          let* _ := log false FileSaved in
          let* _ := log false (Summary (len allData) filename) in
          log false ScanAndSaveComplete
        end
    end.

(** The [finally] block: "Always switch back to emulator mode when done". *)
Definition restoreEmulatorMode : M unit :=
  try_catch
    (let* _ := log false SwitchingBackToEmulatorMode in
     let modeData := [u8 0] in
     let* _ := cmd CMD_SET_ACTIVE_MODE (Some modeData) in
     log false EmulatorModeRestored)
    (fun modeError => log true (CouldNotRestoreEmulatorMode modeError)).

(** The whole script. *)
Definition scanAndSave (connected : bool) : M unit :=
  if negb connected then
    let* _ := log true DeviceNotConnected in return_
  else
    let* _ := log false Banner in
    try_catch_finally scanBody
      (fun error => log true (ScanError error))
      restoreEmulatorMode.

End Script.

(** The command that restores emulator mode. *)
Definition restore : request := mkRequest CMD_SET_ACTIVE_MODE (Some [0]).

(** Every command a block issues satisfies [P]. *)
Definition issues {D A} (P : request -> Prop) (m : Exec.M D message A)
  : Prop :=
  forall w, exists new,
    trace (m w).1 = trace w ++ new /\ Forall (fun e => P e.1) new.

(** A reader that finds a tag at the second scan and whose radio fails
    (the command times out) when page 8 is read; its state is unused. *)
Definition failing_reader : device unit :=
  fun d c payload =>
    if c =? CMD_HF14A_SCAN then
      (d, Response (mkFrame c 0x00 [4; 1; 2; 3; 4; 0x44; 0x00; 0x00; 0]))
    else if c =? CMD_HF14A_RAW then
      match payload with
      | Some [_; _; _; _; _; _; 8] => (d, Throws "Command response timed out")
      | _ => (d, Response (mkFrame c 0x00 (replicate 16 0)))
      end
    else (d, Response (mkFrame c 0x68 [])).

End Scanner.

(* ===================================================================== *)
(** ** Strings: number formatting and text decoding *)
(* ===================================================================== *)

Module Text.
Import JS.
Local Open Scope string_scope.

Definition digits : string := "0123456789abcdefghijklmnopqrstuvwxyz".

Definition digitChar (d : Z) : ascii :=
  match String.get (Z.to_nat d) digits with Some c => c | None => "0"%char end.

(** The digits of a positive number, most significant first. *)
Fixpoint digitsOf (fuel : nat) (radix n : Z) (acc : string) : string :=
  match fuel with
  | O => acc
  | S fuel' =>
    if (n <? radix)%Z then String (digitChar n) acc
    else digitsOf fuel' radix (n / radix)%Z
                  (String (digitChar (n mod radix)%Z) acc)
  end.

(** [n.toString(radix)] for an integer [n]. *)
Definition toStringRadix (radix n : Z) : string :=
  let body := digitsOf (S (Z.to_nat (Z.log2 (Z.abs n)))) radix (Z.abs n) "" in
  if (n <? 0)%Z then String "-"%char body else body.

(** [s.padStart(width, c)] for a one-character filler. *)
Definition padStart (width : nat) (c : ascii) (s : string) : string :=
  string_of_list_ascii (replicate (width - String.length s)%nat c) ++ s.

Definition upperChar (c : ascii) : ascii :=
  let n := nat_of_ascii c in
  if ((97 <=? n) && (n <=? 122))%nat then ascii_of_nat (n - 32) else c.

Fixpoint toUpperCase (s : string) : string :=
  match s with
  | EmptyString => EmptyString
  | String c r => String (upperChar c) (toUpperCase r)
  end.

(** [parts.join(sep)]. *)
Definition join (sep : string) (parts : list string) : string :=
  String.concat sep parts.

(** [b.toString(16).padStart(2, '0')]. *)
Definition hex2 (b : Z) : string := padStart 2 "0"%char (toStringRadix 16 b).

(** A JavaScript string built from data, as its list of code points. *)
Definition text : Type := list Z.

Definition text_of (s : string) : text :=
  map (fun c => Z.of_nat (nat_of_ascii c)) (list_ascii_of_string s).

(** [String.fromCharCode(...codes)]. *)
Definition fromCharCode (codes : list Z) : text :=
  map (fun c => (c mod 65536)%Z) codes.

Local Open Scope Z_scope.

(** [new TextDecoder('utf-8').decode(bytes)]: the decoder of the Encoding
    standard in its default, non-fatal mode: malformed input yields U+FFFD
    and never an exception. *)
Record utf8_state : Type := mkUtf8 {
  code_point : Z; bytes_seen : Z; bytes_needed : Z;
  lower_boundary : Z; upper_boundary : Z }.

Definition utf8_init : utf8_state := mkUtf8 0 0 0 0x80 0xBF.

Definition utf8_lead (b : Z) : list Z * utf8_state :=
  if b <=? 0x7F then ([b], utf8_init)
  else if (0xC2 <=? b) && (b <=? 0xDF) then
    ([], mkUtf8 (Z.land b 0x1F) 0 1 0x80 0xBF)
  else if (0xE0 <=? b) && (b <=? 0xEF) then
    ([], mkUtf8 (Z.land b 0xF) 0 2
                (if b =? 0xE0 then 0xA0 else 0x80)
                (if b =? 0xED then 0x9F else 0xBF))
  else if (0xF0 <=? b) && (b <=? 0xF4) then
    ([], mkUtf8 (Z.land b 0x7) 0 3
                (if b =? 0xF0 then 0x90 else 0x80)
                (if b =? 0xF4 then 0x8F else 0xBF))
  else ([0xFFFD], utf8_init).

Definition utf8_byte (st : utf8_state) (b : Z) : list Z * utf8_state :=
  if bytes_needed st =? 0 then utf8_lead b
  else if negb ((lower_boundary st <=? b) && (b <=? upper_boundary st)) then
    let r := utf8_lead b in (0xFFFD :: r.1, r.2)
  else
    let cp := Z.lor (Z.shiftl (code_point st) 6) (Z.land b 0x3F) in
    if bytes_seen st + 1 =? bytes_needed st then ([cp], utf8_init)
    else ([], mkUtf8 cp (bytes_seen st + 1) (bytes_needed st) 0x80 0xBF).

Fixpoint utf8_run (st : utf8_state) (bytes : list Z) : text :=
  match bytes with
  | [] => if bytes_needed st =? 0 then [] else [0xFFFD]
  | b :: rest => let r := utf8_byte st b in (r.1 ++ utf8_run r.2 rest)%list
  end.

Definition utf8_decode (bytes : list Z) : text :=
  match bytes with
  | 0xEF :: 0xBB :: 0xBF :: rest => utf8_run utf8_init rest
  | _ => utf8_run utf8_init bytes
  end.

End Text.

(* ===================================================================== *)
(** ** RFID dump analyzer *)
(* ===================================================================== *)

Module RFID.
Import JS Text.
Local Open Scope string_scope.
Local Open Scope Z_scope.

(** One entry of [this.tagSignatures], with its key. *)
Record signature : Type :=
  mkSignature { sig_key : string; sig_size : Z; sig_name : string }.

Definition tagSignatures : list signature :=
  [ mkSignature "ntag210" 80 "NTAG 210";
    mkSignature "ntag212" 164 "NTAG 212";
    mkSignature "ntag213" 180 "NTAG 213";
    mkSignature "ntag215" 540 "NTAG 215";
    mkSignature "ntag216" 924 "NTAG 216";
    mkSignature "mifareMini" 320 "Mifare Mini";
    mkSignature "mifareClassic1K" 1024 "Mifare Classic 1K";
    mkSignature "mifareClassic2K" 2048 "Mifare Classic 2K";
    mkSignature "mifareClassic4K" 4096 "Mifare Classic 4K";
    mkSignature "mifareUltralight" 64 "Mifare Ultralight";
    mkSignature "mifareUltralightC" 192 "Mifare Ultralight C";
    mkSignature "em410x" 5 "EM410X";
    mkSignature "t5577" 264 "T5577";
    mkSignature "hidProx" 96 "HID Prox" ].

Inductive frequency : Type := HF | LF.

(** Values stored in the fields of [result.details] and of its [ndef]
    object. *)
Inductive value : Type :=
| Num (n : Z)
| Str (s : string)
| Txt (t : text)
| Bool (b : bool)
| Bytes (b : list Z)
| Strs (l : list string).

Inductive detail : Type :=
| Val (v : value)
| Obj (fields : gmap string value)
| Objs (items : list (gmap string value)).

Record result : Type := mkResult {
  fileSize : Z;
  fileSizeBits : Z;
  frequency_ : option frequency;
  tagType : option string;
  confidence : Z;
  details : gmap string detail;
  data : list Z
}.

Definition with_details (r : result) (d : gmap string detail) : result :=
  mkResult (fileSize r) (fileSizeBits r) (frequency_ r) (tagType r)
           (confidence r) d (data r).

Definition set_detail (k : string) (v : detail) (r : result) : result :=
  with_details r (<[k := v]> (details r)).

(** [detectTagType(data, result)]. *)
Definition detectTagType (data : list Z) (r : result) : result :=
  let size := len data in
  match find (fun sig => sig_size sig =? size) tagSignatures with
  | Some sig =>
    let key := sig_key sig in
    let freq :=
      if String.prefix "ntag" key || String.prefix "mifare" key then Some HF
      else if String.prefix "em" key || String.prefix "t55" key
              || String.prefix "hid" key then Some LF
      else frequency_ r in
    mkResult (fileSize r) (fileSizeBits r) freq (Some (sig_name sig)) 90
             (details r) (RFID.data r)
  | None =>
    if size =? 5 then
      mkResult (fileSize r) (fileSizeBits r) (Some LF) (Some "EM410X") 95
               (details r) (RFID.data r)
    else if (64 <=? size) && (size <=? 1024) then
      mkResult (fileSize r) (fileSizeBits r) (Some HF) (Some "Unknown HF/NFC")
               50 (details r) (RFID.data r)
    else if size <? 64 then
      mkResult (fileSize r) (fileSizeBits r) (Some LF) (Some "Unknown LF") 50
               (details r) (RFID.data r)
    else
      mkResult (fileSize r) (fileSizeBits r) (frequency_ r) (Some "Unknown") 0
               (details r) (RFID.data r)
  end.

(** [extractUID(data)]. *)
Definition extractUID (data : list Z) : list Z :=
  if len data <? 8 then []
  else if bool_decide (at_ data 0 = Some 0x88) then slice data 0 8
  else slice data 0 4.

Definition getTNFName (tnf : Z) : string :=
  if tnf =? 0 then "Empty"
  else if tnf =? 1 then "Well-known"
  else if tnf =? 2 then "Media"
  else if tnf =? 3 then "Absolute URI"
  else if tnf =? 4 then "External"
  else if tnf =? 5 then "Unknown"
  else if tnf =? 6 then "Unchanged"
  else if tnf =? 7 then "Reserved"
  else "Unknown".

(** [parseNDEF(ndefData, result)]. *)
Definition parseNDEF (ndefData : list Z) (r : result) : result :=
  if len ndefData <? 3 then r
  else
    let header := toInt32o (at_ ndefData 0) in
    let typeLength := default 0 (at_ ndefData 1) in
    let payloadLength := default 0 (at_ ndefData 2) in
    let MB := negb (band header 0x80 =? 0) in
    let ME := negb (band header 0x40 =? 0) in
    let SR := negb (band header 0x10 =? 0) in
    let TNF := band header 0x07 in
    let ndef : gmap string value :=
      <["payloadLength" := Num payloadLength]>
      (<["typeLength" := Num typeLength]>
      (<["typeNameFormatName" := Str (getTNFName TNF)]>
      (<["typeNameFormat" := Num TNF]>
      (<["shortRecord" := Bool SR]>
      (<["messageEnd" := Bool ME]>
      (<["messageBegin" := Bool MB]> ∅)))))) in
    let ndef :=
      if (0 <? typeLength) && (3 + typeLength <=? len ndefData) then
        let type := slice ndefData 3 (3 + typeLength) in
        <["type" := Txt (fromCharCode type)]> ndef
      else ndef in
    let payloadOffset := 3 + typeLength in
    let ndef :=
      if (0 <? payloadLength)
         && (payloadOffset + payloadLength <=? len ndefData) then
        let payload := slice ndefData payloadOffset
                             (payloadOffset + payloadLength) in
        <["payloadText" := Txt (utf8_decode payload)]>
        (<["payloadHex" := Str (toUpperCase (join " " (map hex2 payload)))]>
        (<["payload" := Bytes payload]> ndef))
      else ndef in
    set_detail "ndef" (Obj ndef) r.

(** [checkNDEF(data, result)]: the first [0x03] found from byte 16 on,
    below [Math.min(data.length - 2, 100)], is taken as the NDEF TLV. *)
Definition checkNDEF (data : list Z) (r : result) : result :=
  let found :=
    find (fun i => bool_decide (at_ data i = Some 0x03))
         (Exec.range_by 16 (Z.min (len data - 2) 100) 1) in
  match found with
  | Some ndefOffset =>
    let r := set_detail "hasNDEF" (Val (Bool true)) r in
    let r := set_detail "ndefOffset" (Val (Num ndefOffset)) r in
    let ndefLength := default 0 (at_ data (ndefOffset + 1)) in
    let r := set_detail "ndefLength" (Val (Num ndefLength)) r in
    if ndefOffset + 2 + ndefLength <=? len data then
      let ndefData :=
        slice data (ndefOffset + 2) (ndefOffset + 2 + ndefLength) in
      parseNDEF ndefData r
    else r
  | None => set_detail "hasNDEF" (Val (Bool false)) r
  end.

(** [Array.from(bytes).map(b => b.toString(16).padStart(2, '0'))
      .join(sep).toUpperCase()]. *)
Definition hexJoin (sep : string) (bytes : list Z) : string :=
  toUpperCase (join sep (map hex2 bytes)).

(** [analyzeNTAG(data, result)]. *)
Definition analyzeNTAG (data : list Z) (r : result) : result :=
  let r :=
    if 16 <=? len data then
      let cc := slice data 12 16 in
      let cc0 := default 0 (at_ cc 0) in
      let cc1 := default 0 (at_ cc 1) in
      let cc2 := default 0 (at_ cc 2) in
      let cc3 := default 0 (at_ cc 3) in
      set_detail "capabilityContainer"
        (Obj (<["readWrite" :=
                 Str (if cc3 =? 0x00 then "Read/Write" else "Read-only")]>
             (<["memorySize" := Num (cc2 * 8)]>
             (<["version" :=
                 Str (toStringRadix 10 (shr cc1 4) ++ "."
                      ++ toStringRadix 10 (band cc1 0x0F))]>
             (<["magic" := Str (hex2 cc0)]>
             (<["raw" := Str (hexJoin " " cc)]> ∅)))))) r
    else r in
  if 12 <=? len data then
    let lockBytes := slice data 10 12 in
    let r := set_detail "lockBytes" (Val (Str (hexJoin " " lockBytes))) r in
    set_detail "isLocked"
      (Val (Bool (negb (bool_decide (at_ lockBytes 0 = Some 0x00))
                  || negb (bool_decide (at_ lockBytes 1 = Some 0x00))))) r
  else r.

(** [getMifareManufacturer(byte)]. *)
Definition getMifareManufacturer (byte : Z) : string :=
  if byte =? 0x04 then "NXP"
  else if byte =? 0x02 then "STMicroelectronics"
  else if byte =? 0x44 then "Nationz"
  else if byte =? 0x62 then "Fudan"
  else if byte =? 0x63 then "Fudan"
  else "Unknown (0x" ++ hex2 byte ++ ")".

(** [analyzeMifareClassic(data, result)]. *)
Definition analyzeMifareClassic (data : list Z) (r : result) : result :=
  let blockSize := 16 in
  let totalBlocks := len data / blockSize in
  let sectors := totalBlocks / 4 in
  let r := set_detail "blockSize" (Val (Num blockSize)) r in
  let r := set_detail "totalBlocks" (Val (Num totalBlocks)) r in
  let r := set_detail "sectors" (Val (Num sectors)) r in
  let r :=
    if blockSize <=? len data then
      let uid := slice data 0 4 in
      let r := set_detail "uid" (Val (Bytes uid)) r in
      let r := set_detail "uidHex" (Val (Str (hexJoin ":" uid))) r in
      set_detail "manufacturer"
        (Val (Str (getMifareManufacturer (default 0 (at_ data 0))))) r
    else r in
  let accessBits :=
    fold_left
      (fun accessBits sector =>
         let trailerBlock := sector * 4 + 3 in
         let trailerOffset := trailerBlock * blockSize in
         if trailerOffset + blockSize <=? len data then
           let trailer :=
             slice data trailerOffset (trailerOffset + blockSize) in
           (accessBits ++
            [ <["keyB" := Str (hexJoin "" (slice trailer 10 16))]>
              (<["accessBits" := Str (hexJoin "" (slice trailer 6 10))]>
              (<["keyA" := Str (hexJoin "" (slice trailer 0 6))]>
              (<["sector" := Num sector]> ∅))) ])%list
         else accessBits)
      (Exec.range_by 0 sectors 1) [] in
  set_detail "sectorTrailers" (Objs accessBits) r.

(** The loop of [extractText]: runs of printable ASCII. *)
Fixpoint textRuns (data : list Z) (currentText : string)
  (texts : list string) : list string :=
  match data with
  | [] =>
    if (4 <=? String.length currentText)%nat then (texts ++ [currentText])%list
    else texts
  | byte :: rest =>
    if (0x20 <=? byte) && (byte <=? 0x7E) then
      textRuns rest
        (currentText ++ String (ascii_of_nat (Z.to_nat byte)) EmptyString) texts
    else
      textRuns rest ""
        (if (4 <=? String.length currentText)%nat
         then (texts ++ [currentText])%list else texts)
  end.

(** [extractText(data, result)]. *)
Definition extractText (data : list Z) (r : result) : result :=
  let texts := textRuns data "" [] in
  if (0 <? length texts)%nat
  then set_detail "extractedText" (Val (Strs texts)) r
  else r.

Definition includes (needle s : string) : bool :=
  match String.index 0 needle s with Some _ => true | None => false end.

(** [analyzeHF(data, result)]. *)
Definition analyzeHF (data : list Z) (r : result) : result :=
  let pageSize := 4 in
  let totalPages := len data / pageSize in
  let r := set_detail "pageSize" (Val (Num pageSize)) r in
  let r := set_detail "totalPages" (Val (Num totalPages)) r in
  let uid := extractUID data in
  let r := set_detail "uid" (Val (Bytes uid)) r in
  let r := set_detail "uidHex" (Val (Str (hexJoin ":" uid))) r in
  let r :=
    match tagType r with
    | Some t =>
      if String.prefix "NTAG" t then analyzeNTAG data r
      else if includes "Mifare Classic" t then analyzeMifareClassic data r
      else r
    | None => r
    end in
  let r := checkNDEF data r in
  extractText data r.

(** [analyzeEM410X(data, result)]. *)
Definition analyzeEM410X (data : list Z) (r : result) : result :=
  if negb (len data =? 5) then
    set_detail "warning" (Val (Str "EM410X should be 5 bytes")) r
  else
    let r := set_detail "idHex" (Val (Str (hexJoin "" data))) r in
    let r :=
      set_detail "idDecimal"
        (Val (Str (join ","
           (map (fun b => padStart 3 "0"%char (toStringRadix 10 b))
                data)))) r in
    let r := set_detail "version" (Val (Num (default 0 (at_ data 0)))) r in
    let customerId :=
      bor (bor (bor (shl (toInt32o (at_ data 1)) 24)
                    (shl (toInt32o (at_ data 2)) 16))
               (shl (toInt32o (at_ data 3)) 8))
          (toInt32o (at_ data 4)) in
    let r := set_detail "customerId" (Val (Num customerId)) r in
    set_detail "customerIdHex"
      (Val (Str (toUpperCase
                   (padStart 8 "0"%char (toStringRadix 16 customerId)))))
      r.

(** [analyzeT5577(data, result)]. *)
Definition analyzeT5577 (data : list Z) (r : result) : result :=
  let blockSize := 33 in
  let totalBlocks := 8 in
  let r := set_detail "blockSize" (Val (Num blockSize)) r in
  let r := set_detail "totalBlocks" (Val (Num totalBlocks)) r in
  let blocks :=
    fold_left
      (fun blocks i =>
         if i * blockSize <? len data then
           let blockData :=
             slice data (i * blockSize)
                   (Z.min ((i + 1) * blockSize) (len data)) in
           (blocks ++
            [ <["size" := Num (len blockData)]>
              (<["hex" := Str (hexJoin " " blockData)]>
              (<["block" := Num i]> ∅)) ])%list
         else blocks)
      (Exec.range_by 0 totalBlocks 1) [] in
  set_detail "blocks" (Objs blocks) r.

(** [analyzeLF(data, result)]. *)
Definition analyzeLF (data : list Z) (r : result) : result :=
  if bool_decide (tagType r = Some "EM410X") || (len data =? 5) then
    analyzeEM410X data r
  else if bool_decide (tagType r = Some "T5577") then analyzeT5577 data r
  else r.

(** The [result] object [analyze] starts from. *)
Definition blank (data : list Z) : result :=
  mkResult (len data) (len data * 8) None None 0 ∅ data.

(** Two results with the same classification. *)
Definition same_class (r r' : result) : Prop :=
  frequency_ r' = frequency_ r /\ tagType r' = tagType r
  /\ confidence r' = confidence r.

(** The bytes of the NDEF test vector: TLV type 0x03, TLV length [L], a
    record header, type length 1, payload length 3, type "T", payload
    "hi!". *)
Definition vector (L header : Z) : list Z :=
  [0x03; L; header; 0x01; 0x03; 84; 104; 105; 33].

(** The argument of [analyze]: [null], a byte buffer, or a file path. *)
Inductive input : Type :=
| Null
| Buffer (bytes : list Z)
| Path (path : string).

Inductive analysis : Type :=
| Throws (message : string)
| ErrorResult (error : string)
| Report (r : result).

(** [analyze(data)].  [readFile] is [window.ToolboxAPI.readFile] when it is
    there; it gives [None] when it throws, else what it read ([null] or a
    buffer). *)
Definition analyze (readFile : option (string -> option (option (list Z))))
  (data : input) : analysis :=
  let loaded : string + option (list Z) :=
    match data with
    | Path p =>
      match readFile with
      | Some read =>
        match read p with
        | Some content => inr content
        | None => inl "read failed"
        end
      | None => inl "File reading not available. Pass Uint8Array directly."
      end
    | Null => inr None
    | Buffer b => inr (Some b)
    end in
  match loaded with
  | inl message => Throws message
  | inr None => ErrorResult "No data provided or file is empty"
  | inr (Some data) =>
    if len data =? 0 then ErrorResult "No data provided or file is empty"
    else
      let r := blank data in
      let r := detectTagType data r in
      let r :=
        match frequency_ r with
        | Some HF => analyzeHF data r
        | Some LF => analyzeLF data r
        | None => r
        end in
      Report r
  end.

End RFID.

(** ** Byte streams and channel states *)

Module Stream.
Import JS Codec Channel.

(** The sum of the bytes a checksum covers. *)
Definition byteSum (l : list Z) : Z := fold_right Z.add 0 l.

(** The request or response a frame carries, as the parser reads it back. *)
Definition wire (f : Frame) : list Z :=
  makeDataFrame (cmd f) (Some (data f)) (status f).

Definition fits (f : Frame) : Prop :=
  0 <= cmd f <= 65535 /\ 0 <= status f <= 65535
  /\ Forall byte_ok (data f) /\ len (data f) <= 65535.

(** All the frames of a list, one after the other on the wire. *)
Definition wireAll (fs : list Frame) : list Z := flat_map wire fs.

(** [this.buffer = b] / [this.responseBuffer = b]. *)
Definition with_buffer (b : list Z) (st : state) : state :=
  mkState (responseCallbacks st) (silentCommands st) (timers st)
          (promises st) (nextId st) b (written st) (connected st).

(** Every armed timer belongs to a pending promise and the other way
    round, and a registered callback has its own timer armed. *)
Definition armed (st : state) : Prop :=
  (forall c cb, responseCallbacks st !! c = Some cb ->
     cb_promise cb = cb_timeoutId cb
     /\ exists b, timers st !! cb_timeoutId cb
                  = Some (mkTimer c (cb_timeoutId cb) b))
  /\ (forall id t, timers st !! id = Some t ->
        tm_promise t = id /\ promises st !! id = Some Pending)
  /\ (forall p, promises st !! p = Some Pending -> is_Some (timers st !! p)).

End Stream.

(** ** The serial driver of the device extension *)

Module Serial.
Import JS Codec.

(** [const temp = new Uint8Array(buffer.length); temp.set(buffer);] *)
Definition copy (buffer : list Z) : list Z :=
  set_at (replicate (length buffer) 0) buffer 0.

(** One turn of the loop of [ChameleonUltraSerial.parseFrames].  After a
    turn that continues, the local [buffer] and [transport.readBuffer] are
    the same fresh array. *)
Inductive step : Type :=
| Break                                   (* [readBuffer] is left alone *)
| Continue (e : event) (temp : list Z)    (* both buffers become [temp] *)
| Last (e : event)          (* [clearBuffer()], nothing remains: [break] *).

Definition parseStep (buffer : list Z) : step :=
  if len buffer <? 9 then Break
  else if strict_neq (at_ buffer 0) SOF then
    Continue InvalidSOF (copy (slice_from buffer 1))
  else if strict_neq (at_ buffer 1) (lrcCalc (slice buffer 0 1)) then
    Continue LRC1Mismatch (copy (slice_from buffer 1))
  else
    let cmd :=
      bor (shl (toInt32o (at_ buffer 2)) 8) (toInt32o (at_ buffer 3)) in
    let status :=
      bor (shl (toInt32o (at_ buffer 4)) 8) (toInt32o (at_ buffer 5)) in
    let dataLen :=
      bor (shl (toInt32o (at_ buffer 6)) 8) (toInt32o (at_ buffer 7)) in
    let frameLen := 9 + dataLen + 1 in
    if len buffer <? frameLen then Break
    else if strict_neq (at_ buffer 8) (lrcCalc (slice buffer 0 8)) then
      Continue LRC2Mismatch (copy (slice_from buffer 1))
    else
      let data := slice buffer 9 (9 + dataLen) in
      if strict_neq (at_ buffer (9 + dataLen))
                    (lrcCalc (slice buffer 0 (9 + dataLen))) then
        Continue LRC3Mismatch (copy (slice_from buffer 1))
      else
        let remaining := slice_from buffer frameLen in
        if 0 <? len remaining then
          Continue (ValidFrame (mkFrame cmd status data)) (copy remaining)
        else Last (ValidFrame (mkFrame cmd status data)).

(** The loop, with what happened and the [transport.readBuffer] left. *)
Fixpoint parseLoop (turns : nat) (buffer readBuffer : list Z)
  : list event * list Z :=
  match turns with
  | O => ([], readBuffer)
  | S turns' =>
    if 0 <? len buffer then
      match parseStep buffer with
      | Break => ([], readBuffer)
      | Continue e temp =>
        let r := parseLoop turns' temp temp in (e :: r.1, r.2)
      | Last e => ([e], [])
      end
    else ([], readBuffer)
  end.

(** The data callback: [this.parseFrames(this.transport.getBuffer())]. *)
Definition parseFrames (readBuffer : list Z) : list event * list Z :=
  parseLoop (length readBuffer) readBuffer readBuffer.

End Serial.

(** ** What a run of a script leaves behind *)

Module Runs.
Import JS Codec Exec.

(** Every command a block issues satisfies [P], whatever its console
    type. *)
Definition only {D L A} (P : request -> Prop) (m : Exec.M D L A) : Prop :=
  forall w, exists new,
    trace (m w).1 = trace w ++ new /\ Forall (fun e => P e.1) new.

(** A block writes no file, or one file whose content satisfies [Q]. *)
Definition writes {D L A} (Q : list Z -> Prop) (m : Exec.M D L A) : Prop :=
  forall w,
    files (m w).1 = files w
    \/ exists path content,
         files (m w).1 = files w ++ [(path, content)] /\ Q content.

Definition writes_nothing {D L A} (m : Exec.M D L A) : Prop :=
  forall w, files (m w).1 = files w.

(** Every result a block completes normally with satisfies [Q]. *)
Definition yields {D L A} (Q : A -> Prop) (m : Exec.M D L A) : Prop :=
  forall w a, (m w).2 = Normal a -> Q a.

(** The sizes of the chunks of a transfer of [total] units from [i] on. *)
Definition chunkSize (total i : Z) : Z := Z.min 32 (total - i).

Definition sumZ (l : list Z) : Z := fold_right Z.add 0 l.

(** The image sizes the analyzer knows, by the tag type of the slot. *)
Definition imageName (tagType : Z) : option string :=
  if tagType =? 1100 then Some "NTAG 213"%string
  else if tagType =? 1101 then Some "NTAG 215"%string
  else if tagType =? 1102 then Some "NTAG 216"%string
  else if tagType =? 1107 then Some "NTAG 210"%string
  else if tagType =? 1108 then Some "NTAG 212"%string
  else if tagType =? 1000 then Some "Mifare Mini"%string
  else if tagType =? 1001 then Some "Mifare Classic 1K"%string
  else if tagType =? 1002 then Some "Mifare Classic 2K"%string
  else if tagType =? 1003 then Some "Mifare Classic 4K"%string
  else None.

(** A device that serves the page reads and the block reads. *)
Definition serves_reads {D} (device_cmd : device D) : Prop :=
  Session.answers_reads device_cmd Session.CMD_MF0_NTAG_READ_EMU_PAGE_DATA 4
  /\ Session.answers_reads device_cmd Session.CMD_MF1_READ_EMU_BLOCK_DATA 16.

(** A device whose reads return zeroes, four per page, sixteen per block. *)
Definition zero_tag : device unit :=
  fun d c payload =>
    match payload with
    | Some [i; n] =>
      let unit := if c =? Session.CMD_MF1_READ_EMU_BLOCK_DATA then 16 else 4 in
      (d, Response (mkFrame c Session.SUCCESS
                      (replicate (Z.to_nat (n * unit)) 0)))
    | _ => (d, Response (mkFrame c Session.SUCCESS []))
    end.

(** The commands that read from the device or select a slot. *)
Definition reads_only (rq : request) : Prop :=
  In (rq_cmd rq)
     [Session.CMD_GET_ACTIVE_SLOT; Session.CMD_GET_SLOT_INFO;
      Session.CMD_SET_ACTIVE_SLOT; Session.CMD_MF0_NTAG_READ_EMU_PAGE_DATA;
      Session.CMD_MF1_READ_EMU_BLOCK_DATA; Session.CMD_EM410X_GET_EMU_ID].

(** The scan request of the scan-and-save script. *)
Definition scanRequest : request := mkRequest Scanner.CMD_HF14A_SCAN None.

End Runs.

(** ** What the write loops send *)

Module Upload.
Import JS Codec Exec.

(** Unit [p] of a file cut into units of [unitSize] bytes, filled with
    zeroes where the file ends. *)
Definition unitAt (unitSize : Z) (fileData : list Z) (p : Z) : list Z :=
  let s := slice fileData (p * unitSize) (p * unitSize + unitSize) in
  s ++ replicate (Z.to_nat unitSize - length s) 0.

(** The units [first], ..., [first + count - 1], one after the other. *)
Definition unitsFrom (unitSize : Z) (fileData : list Z) (first count : Z)
  : list Z :=
  flat_map (fun i => unitAt unitSize fileData (first + i))
           (range_by 0 count 1).

(** A device that answers every [command] with success. *)
Definition accepts {D} (device_cmd : device D) (command : Z) : Prop :=
  forall d payload, exists d' r,
    device_cmd d command payload = (d', Response r)
    /\ status r = Session.SUCCESS.

(** A device that accepts everything. *)
Definition agreeable : device unit :=
  fun d c _ => (d, Response (mkFrame c Session.SUCCESS [])).

End Upload.

(** ** What a dump report holds *)

Module Dump.
Import JS Text RFID.
Local Open Scope string_scope.
Local Open Scope Z_scope.

(** The bytes [extractText] keeps: [byte >= 0x20 && byte <= 0x7E]. *)
Definition printable (b : Z) : Prop := 0x20 <= b <= 0x7E.

(** The string made of the characters of a run of bytes. *)
Definition chars (run : list Z) : string :=
  string_of_list_ascii (map (fun b => ascii_of_nat (Z.to_nat b)) run).

(** Data put together from printable stretches and the bytes between
    them: the first stretch, then each separating byte followed by the
    stretch after it. *)
Definition woven (first : list Z) (more : list (Z * list Z)) : list Z :=
  (first ++ flat_map (fun sr => sr.1 :: sr.2) more)%list.

(** [first] and [more] cut [data] at every byte that is not printable. *)
Definition cut_at_unprintable (data first : list Z)
  (more : list (Z * list Z)) : Prop :=
  data = woven first more
  /\ Forall printable first
  /\ Forall (fun sr => ~ printable sr.1 /\ Forall printable sr.2) more.

(** The strings of the stretches of at least four bytes, in order. *)
Definition long_texts (stretches : list (list Z)) : list string :=
  map chars (filter (fun run => (4 <= length run)%nat) stretches).

(** The entry [analyzeMifareClassic] pushes for a sector whose trailer block
    starts at byte [64 * sector + 48]. *)
Definition trailerEntry (data : list Z) (sector : Z) : gmap string value :=
  let o := 64 * sector + 48 in
  <["keyB" := Str (hexJoin "" (slice data (o + 10) (o + 16)))]>
  (<["accessBits" := Str (hexJoin "" (slice data (o + 6) (o + 10)))]>
  (<["keyA" := Str (hexJoin "" (slice data o (o + 6)))]>
  (<["sector" := Num sector]> ∅))).

(** The entry [analyzeT5577] pushes for a full block of 33 bytes. *)
Definition blockEntry (data : list Z) (i : Z) : gmap string value :=
  <["size" := Num 33]>
  (<["hex" := Str (hexJoin " " (slice data (33 * i) (33 * i + 33)))]>
  (<["block" := Num i]> ∅)).

(** What [analyze] says about the kind of tag: the error, or the
    frequency, tag type and confidence of the report. *)
Definition verdict (a : analysis)
  : option (string + (option frequency * option string * Z)) :=
  match a with
  | Throws _ => None
  | ErrorResult e => Some (inl e)
  | Report r => Some (inr (frequency_ r, tagType r, confidence r))
  end.

(** The indices [checkNDEF] looks at. *)
Definition searched (data : list Z) (i : Z) : Prop :=
  16 <= i < Z.min (len data - 2) 100.

End Dump.

(** ** The virtual file system *)

Module FS.
Import JS.
Local Open Scope string_scope.
Local Open Scope Z_scope.

(** *** String methods *)

Definition strlen (s : string) : Z := Z.of_nat (String.length s).

(** [s.startsWith(p)]. *)
Definition startsWith (s p : string) : bool := String.prefix p s.

Fixpoint lastChar (s : string) : option ascii :=
  match s with
  | EmptyString => None
  | String c EmptyString => Some c
  | String _ r => lastChar r
  end.

(** [s.endsWith(c)] for a one-character [c]. *)
Definition endsWith (s : string) (c : ascii) : bool :=
  bool_decide (lastChar s = Some c).

(** [s.lastIndexOf(c)] for a one-character [c]: -1 when [c] is absent. *)
Fixpoint lastIndexOf (s : string) (c : ascii) : Z :=
  match s with
  | EmptyString => -1
  | String x r =>
    let k := lastIndexOf r c in
    if 0 <=? k then 1 + k else if Ascii.eqb x c then 0 else -1
  end.

(** [s.substring(a, b)]: both ends are clamped to the string and swapped
    when they come in the wrong order. *)
Definition substring (s : string) (a b : Z) : string :=
  let a := Z.max 0 (Z.min a (strlen s)) in
  let b := Z.max 0 (Z.min b (strlen s)) in
  String.substring (Z.to_nat (Z.min a b))
                   (Z.to_nat (Z.max a b - Z.min a b)) s.

(** [s.substring(a)]. *)
Definition substring_from (s : string) (a : Z) : string :=
  substring s a (strlen s).

(** [s || d]: the empty string is falsy. *)
Definition or_else (s d : string) : string :=
  if bool_decide (s = "") then d else s.

(** [s.split(c)] for a one-character separator. *)
Fixpoint split (s : string) (c : ascii) : list string :=
  match s with
  | EmptyString => [""]
  | String x r =>
    if Ascii.eqb x c then "" :: split r c
    else match split r c with
         | h :: t => String x h :: t
         | [] => [String x ""]
         end
  end.

Definition lowerChar (c : ascii) : ascii :=
  let n := nat_of_ascii c in
  if ((65 <=? n) && (n <=? 90))%nat then ascii_of_nat (n + 32)
  else if ((192 <=? n) && (n <=? 222) && negb (n =? 215))%nat
       then ascii_of_nat (n + 32)
  else c.

(** [s.toLowerCase()] on strings of 8-bit characters. *)
Fixpoint toLowerCase (s : string) : string :=
  match s with
  | EmptyString => EmptyString
  | String c r => String (lowerChar c) (toLowerCase r)
  end.

(** *** Values and stores *)

(** File content as the callers pass it: a string, a [Uint8Array], or a
    plain array of numbers (what a [Uint8Array] is stored as). *)
Inductive content : Type :=
| Text (s : string)
| Bytes (b : list Z)
| Items (l : list Z).

(** The [type] of a file: a MIME string, or one of the two values the
    extension table inherits from [Object.prototype] under an all
    lower-case name ([constructor] and [__proto__]), or the empty object
    the store keeps for the latter. *)
Inductive mime : Type :=
| Mime (s : string)
| ObjectFunction
| ObjectPrototype
| EmptyObject.

(** A record of the [files] store; its key is the [path]. *)
Record fileEntry : Type := mkFile {
  directory : string;
  name : string;
  stored : content;
  type : mime;
  size : Z;
  created : Z;
  modified : Z
}.

(** A record of the [directories] store; its key is the [path]. *)
Record dirEntry : Type := mkDir {
  dirName : string;
  dirCreated : Z
}.

(** The manager and its database.  [ticks] counts the calls of
    [Date.now()] made so far. *)
Record manager : Type := mkManager {
  db : bool;
  files : gmap string fileEntry;
  directories : gmap string dirEntry;
  ticks : nat
}.

Inductive error : Type :=
| Error (message : string)
| TypeError
| DataCloneError.

(** How a promise settles. *)
Inductive settled (A : Type) : Type :=
| Resolved (a : A)
| Rejected (e : error).
Arguments Resolved {A} a.
Arguments Rejected {A} e.

(** An asynchronous method: the database requests it makes succeed. *)
Definition op (A : Type) : Type := manager -> manager * settled A.

Definition resolve {A} (a : A) : op A := fun m => (m, Resolved a).
Definition reject {A} (e : error) : op A := fun m => (m, Rejected e).

Definition await {A B} (p : op A) (k : A -> op B) : op B :=
  fun m =>
    match p m with
    | (m', Resolved a) => k a m'
    | (m', Rejected e) => (m', Rejected e)
    end.

Notation "'let?' x ':=' p 'in' k" := (await p (fun x => k))
  (at level 10, x name, p at level 100, k at level 200).

(** [if (!this.db) throw new Error('FileSystemManager not initialized')]. *)
Definition initialized : op unit :=
  fun m =>
    if db m then (m, Resolved tt)
    else (m, Rejected (Error "FileSystemManager not initialized")).

(** *** Private helpers *)

(** [_normalizePath(path)]. *)
Definition _normalizePath (path : string) : string :=
  let path := if negb (startsWith path "/") then "/" ++ path else path in
  if negb (bool_decide (path = "/")) && endsWith path "/"
  then substring path 0 (strlen path - 1)
  else path.

(** [_parsePath(path)]: the directory and the name. *)
Definition _parsePath (path : string) : string * string :=
  let lastSlash := lastIndexOf path "/" in
  (or_else (substring path 0 lastSlash) "/",
   substring_from path (lastSlash + 1)).

(** [_detectMimeType(path)]. *)
Definition _detectMimeType (path : string) : mime :=
  let ext := toLowerCase (substring_from path (lastIndexOf path "." + 1)) in
  if bool_decide (ext = "js") then Mime "application/javascript"
  else if bool_decide (ext = "json") then Mime "application/json"
  else if bool_decide (ext = "txt") then Mime "text/plain"
  else if bool_decide (ext = "md") then Mime "text/markdown"
  else if bool_decide (ext = "html") then Mime "text/html"
  else if bool_decide (ext = "css") then Mime "text/css"
  else if bool_decide (ext = "bin") then Mime "application/octet-stream"
  else if bool_decide (ext = "wasm") then Mime "application/wasm"
  else if bool_decide (ext = "constructor") then ObjectFunction
  else if bool_decide (ext = "__proto__") then ObjectPrototype
  else Mime "application/octet-stream".

Section Clock.
(** The value of the [n]-th call of [Date.now()]. *)
Context (now : nat -> Z).

Definition Date_now : op Z :=
  fun m => (mkManager (db m) (files m) (directories m) (S (ticks m)),
            Resolved (now (ticks m))).

(** [store.put(dirEntry)] on the [directories] store. *)
Definition put_directory (path : string) (d : dirEntry) : op unit :=
  fun m =>
    (mkManager (db m) (files m) (<[path := d]> (directories m)) (ticks m),
     Resolved tt).

(** [_ensureDirectory(path)]. *)
Definition _ensureDirectory (path : string) : op unit :=
  fun m =>
    match directories m !! path with
    | None =>
      let name := (_parsePath path).2 in
      (let? created := Date_now in
       put_directory path (mkDir name created)) m
    | Some _ => (m, Resolved tt)
    end.

(** [!type]. *)
Definition no_type (type : option mime) : bool :=
  match type with
  | None => true
  | Some (Mime s) => bool_decide (s = "")
  | Some _ => false
  end.

(** [content.length]. *)
Definition content_length (c : content) : Z :=
  match c with
  | Text s => strlen s
  | Bytes b => len b
  | Items l => len l
  end.

(** [store.put(fileEntry)]: a function cannot be cloned into the store, and
    the clone of [Object.prototype] is an empty object. *)
Definition put_file (path : string) (e : fileEntry) : op unit :=
  fun m =>
    match type e with
    | ObjectFunction => (m, Rejected DataCloneError)
    | t =>
      let t := match t with ObjectPrototype => EmptyObject | _ => t end in
      (mkManager (db m)
         (<[path := mkFile (directory e) (name e) (stored e) t (size e)
                           (created e) (modified e)]> (files m))
         (directories m) (ticks m),
       Resolved tt)
    end.

(** [writeFile(path, content, type = null)]. *)
Definition writeFile (path : string) (c : content) (type : option mime)
  : op string :=
  let? _ := initialized in
  let path := _normalizePath path in
  let type :=
    if no_type type then _detectMimeType path
    else default (Mime "") type in
  let '(directory, name) := _parsePath path in
  let? _ := (if negb (bool_decide (directory = "/"))
             then _ensureDirectory directory else resolve tt) in
  let storedContent := match c with Bytes b => Items b | _ => c end in
  let? created := Date_now in
  let? modified := Date_now in
  let fileEntry :=
    mkFile directory name storedContent type (content_length c)
           created modified in
  let? _ := put_file path fileEntry in
  resolve path.

(** [readFile(path, encoding = 'text')]. *)
Definition readFile (path : string) (encoding : string) : op content :=
  let? _ := initialized in
  let path := _normalizePath path in
  fun m =>
    match files m !! path with
    | None => (m, Rejected (Error ("File not found: " ++ path)))
    | Some e =>
      let c := stored e in
      if bool_decide (encoding = "binary") then
        match c with
        | Items l => (m, Resolved (Bytes (map u8 l)))
        | _ => (m, Resolved c)
        end
      else (m, Resolved c)
    end.

(** [deleteFile(path)]. *)
Definition deleteFile (path : string) : op unit :=
  let? _ := initialized in
  let path := _normalizePath path in
  fun m =>
    (mkManager (db m) (delete path (files m)) (directories m) (ticks m),
     Resolved tt).

(** [store.get(path)] on the [files] store. *)
Definition get_file (path : string) : op (option fileEntry) :=
  fun m => (m, Resolved (files m !! path)).

(** [moveFile(oldPath, newPath)]. *)
Definition moveFile (oldPath newPath : string) : op string :=
  let? _ := initialized in
  let oldPath := _normalizePath oldPath in
  let newPath := _normalizePath newPath in
  let? c := readFile oldPath "text" in
  let? oldFile := get_file oldPath in
  match oldFile with
  | None => reject (Error ("File not found: " ++ oldPath))
  | Some oldFile =>
    let? _ := writeFile newPath c (Some (type oldFile)) in
    let? _ := deleteFile oldPath in
    resolve newPath
  end.

(** [copyFile(srcPath, destPath)]. *)
Definition copyFile (srcPath destPath : string) : op string :=
  let? _ := initialized in
  let srcPath := _normalizePath srcPath in
  let destPath := _normalizePath destPath in
  let? c := readFile srcPath "text" in
  let? srcFile := get_file srcPath in
  match srcFile with
  | None => reject (Error ("File not found: " ++ srcPath))
  | Some srcFile =>
    let? _ := writeFile destPath c (Some (type srcFile)) in
    resolve destPath
  end.

(** The loop of [mkdir]. *)
Fixpoint mkdirLoop (parts : list string) (currentPath : string) : op unit :=
  match parts with
  | [] => resolve tt
  | part :: rest =>
    let currentPath := currentPath ++ "/" ++ part in
    let? _ := _ensureDirectory currentPath in
    mkdirLoop rest currentPath
  end.

(** [mkdir(path)]. *)
Definition mkdir (path : string) : op string :=
  let? _ := initialized in
  let path := _normalizePath path in
  let parts :=
    filter (fun p => negb (bool_decide (p = ""))) (split path "/") in
  let? _ := mkdirLoop parts "" in
  resolve path.

End Clock.

(** [exists(path)]. *)
Definition exists_ (path : string) : op bool :=
  let? _ := initialized in
  let path := _normalizePath path in
  fun m =>
    match files m !! path with
    | Some _ => (m, Resolved true)
    | None =>
      (m, Resolved (bool_decide (is_Some (directories m !! path))))
    end.

(** *** The tree for the file explorer *)

(** What a [children] array holds: a directory node, by reference, or the
    object made for a file. *)
Inductive child : Type :=
| DirNode (ref : nat)
| FileNode (path name : string) (type : mime) (size modified : Z).

(** A directory node ([type: 'directory']). *)
Record node : Type := mkNode {
  nodePath : string;
  nodeName : string;
  children : list child
}.

(** [node.children.push(c)] on the node at [ref]. *)
Definition push_child (heap : list node) (ref : nat) (c : child)
  : list node :=
  match heap !! ref with
  | Some n =>
    <[ref := mkNode (nodePath n) (nodeName n) (children n ++ [c])%list]>
      heap
  | None => heap
  end.

(** The loop over the sorted directories: [None] when [parent] is
    [undefined] and [parent.children] throws. *)
Fixpoint addDirs (dirs : list (string * dirEntry))
  (heap : list node) (dirMap : gmap string nat)
  : option (list node * gmap string nat) :=
  match dirs with
  | [] => Some (heap, dirMap)
  | (path, d) :: rest =>
    let parentPath :=
      or_else (substring path 0 (lastIndexOf path "/")) "/" in
    match dirMap !! parentPath with
    | None => None
    | Some parent =>
      let ref := length heap in
      let heap := (heap ++ [mkNode path (dirName d) []])%list in
      let heap := push_child heap parent (DirNode ref) in
      addDirs rest heap (<[path := ref]> dirMap)
    end
  end.

(** The loop over the files. *)
Definition addFiles (all : list (string * fileEntry))
  (heap : list node) (dirMap : gmap string nat) : list node :=
  fold_left
    (fun heap '(path, f) =>
       match dirMap !! directory f with
       | Some parent =>
         push_child heap parent
           (FileNode path (name f) (type f) (size f) (modified f))
       | None => heap
       end)
    all heap.

(** [getTree()].  [sort] is [directories.sort] with the comparison by
    [localeCompare].  The nodes are returned as the heap they live in; the
    root is node 0.  Paths of stored directories start with a slash, so no
    lookup in [dirMap] reaches [Object.prototype].  Without a database
    both promises given to [Promise.all] are rejected, and the first to
    settle is the one of [listDirectories], with its own error. *)
Definition getTree
  (sort : list (string * dirEntry) -> list (string * dirEntry))
  : op (list node) :=
  fun m =>
    if negb (db m)
    then (m, Rejected (Error "FileSystemManager not initialized"))
    else
      let all := map_to_list (files m) in
      let dirs := sort (map_to_list (directories m)) in
      let tree := mkNode "/" "root" [] in
      match addDirs dirs [tree] {["/" := 0%nat]} with
      | None => (m, Rejected TypeError)
      | Some (heap, dirMap) => (m, Resolved (addFiles all heap dirMap))
      end.

(** A path normalized by a method and again by the method it calls. *)
Definition twice (path : string) : string :=
  _normalizePath (_normalizePath path).

(** The parent [getTree] looks a directory up under. *)
Definition parentOf (path : string) : string :=
  or_else (substring path 0 (lastIndexOf path "/")) "/".

(** The parts of a path, joined as [mkdir] joins them. *)
Definition joined (parts : list string) : string :=
  fold_left (fun currentPath part => currentPath ++ "/" ++ part) parts "".

(** The parts [mkdir] walks through. *)
Definition partsOf (path : string) : list string :=
  filter (fun p => negb (bool_decide (p = "")))
         (split (_normalizePath path) "/").

(** What [readFile] gives for content written as [c]. *)
Definition read_back (encoding : string) (c : content) : content :=
  match c with
  | Text s => Text s
  | Bytes b | Items b =>
    if bool_decide (encoding = "binary") then Bytes (map u8 b) else Items b
  end.

(** Paths as the manager stores them: every key, and the directory
    recorded for every file, starts with a slash. *)
Definition rooted (m : manager) : Prop :=
  (forall path d, directories m !! path = Some d ->
                  startsWith path "/" = true)
  /\ (forall path f, files m !! path = Some f ->
                     startsWith path "/" = true
                     /\ startsWith (directory f) "/" = true).

(** The calls that change the stores. *)
Inductive call : Type :=
| WriteFile (path : string) (c : content) (type : option mime)
| DeleteFile (path : string)
| MoveFile (oldPath newPath : string)
| CopyFile (srcPath destPath : string)
| Mkdir (path : string).

Definition perform (now : nat -> Z) (m : manager) (c : call) : manager :=
  match c with
  | WriteFile path c type => (writeFile now path c type m).1
  | DeleteFile path => (deleteFile path m).1
  | MoveFile oldPath newPath => (moveFile now oldPath newPath m).1
  | CopyFile srcPath destPath => (copyFile now srcPath destPath m).1
  | Mkdir path => (mkdir now path m).1
  end.

(** Values the store refuses to clone. *)
Definition is_function (t : mime) : bool :=
  match t with ObjectFunction => true | _ => false end.

(** A fresh, opened file system. *)
Definition fresh : manager := mkManager true ∅ ∅ 0.

End FS.

(** ** The command line *)

Module Shell.
Import JS Codec Exec Text.
Local Open Scope string_scope.
Local Open Scope Z_scope.

(** *** The tokenizer of [parseCommand] *)

(** The double quote character. *)
Definition dquote : ascii := ascii_of_nat 34.
(** The single quote character. *)
Definition squote : ascii := ascii_of_nat 39.

(** The variables of the loop. *)
Record lexer : Type := mkLexer {
  argv : list string;
  current : string;
  inQuotes : bool;
  quoteChar : string
}.

(** One turn of the loop over the characters of [cmdStr]. *)
Definition lexStep (st : lexer) (char : ascii) : lexer :=
  if (Ascii.eqb char dquote || Ascii.eqb char squote) && negb (inQuotes st)
  then mkLexer (argv st) (current st) true (String char "")
  else if bool_decide (String char "" = quoteChar st) && inQuotes st
  then mkLexer (argv st) (current st) false ""
  else if Ascii.eqb char " " && negb (inQuotes st)
  then if negb (bool_decide (current st = ""))
       then mkLexer (argv st ++ [current st]) "" (inQuotes st) (quoteChar st)
       else st
  else mkLexer (argv st) (current st ++ String char "") (inQuotes st)
               (quoteChar st).

(** The [argv] that [parseCommand(cmdStr)] works with. *)
Definition tokenize (cmdStr : string) : list string :=
  let st := fold_left lexStep (list_ascii_of_string cmdStr)
                      (mkLexer [] "" false "") in
  if negb (bool_decide (current st = ""))
  then argv st ++ [current st] else argv st.

(** An argument put between double quotes. *)
Definition quoted (arg : string) : string :=
  String dquote (arg ++ String dquote "").

(** A string without the character [c]. *)
Definition free_of (c : ascii) (s : string) : Prop :=
  ~ In c (list_ascii_of_string s).

(** *** The command history of the input line *)

Record history : Type := mkHistory {
  commandHistory : list string;
  historyIndex : Z;
  value : string                       (* [inputElement.value] *)
}.

Inductive key : Type :=
| ArrowUp
| ArrowDown
| Enter
| Typed (text : string).               (* the user edits the line *)

(** White space and line terminators, among 8-bit characters. *)
Definition isSpace (c : ascii) : bool :=
  let n := nat_of_ascii c in
  ((9 <=? n) && (n <=? 13) || (n =? 32) || (n =? 160))%nat.

Fixpoint trimStart (s : string) : string :=
  match s with
  | String c r => if isSpace c then trimStart r else s
  | EmptyString => EmptyString
  end.

Fixpoint trimEnd (s : string) : string :=
  match s with
  | String c r =>
    match trimEnd r with
    | EmptyString => if isSpace c then EmptyString else String c EmptyString
    | r' => String c r'
    end
  | EmptyString => EmptyString
  end.

(** [s.trim()]. *)
Definition trim (s : string) : string := trimEnd (trimStart s).

(** [inputElement.value = commandHistory[historyIndex]]. *)
Definition recall (commands : list string) (index : Z) : string :=
  match at_ commands index with Some c => c | None => "undefined" end.

(** The [keydown] handler, as far as the history goes. *)
Definition keydown (h : history) (k : key) : history :=
  match k with
  | Typed text => mkHistory (commandHistory h) (historyIndex h) text
  | ArrowUp =>
    if len (commandHistory h) =? 0 then h
    else
      let index :=
        if historyIndex h =? -1 then len (commandHistory h) - 1
        else if 0 <? historyIndex h then historyIndex h - 1
        else historyIndex h in
      mkHistory (commandHistory h) index (recall (commandHistory h) index)
  | ArrowDown =>
    if historyIndex h =? -1 then h
    else if historyIndex h <? len (commandHistory h) - 1 then
      let index := historyIndex h + 1 in
      mkHistory (commandHistory h) index (recall (commandHistory h) index)
    else mkHistory (commandHistory h) (-1) ""
  | Enter =>
    let command := trim (value h) in
    if bool_decide (command = "") then h
    else
      let commands :=
        if (len (commandHistory h) =? 0)
           || negb (bool_decide
                      (at_ (commandHistory h) (len (commandHistory h) - 1)
                       = Some command))
        then
          let pushed := (commandHistory h ++ [command])%list in
          if 100 <? len pushed then slice_from pushed 1 else pushed
        else commandHistory h in
      mkHistory commands (-1) ""
  end.

(** No command twice in a row. *)
Fixpoint no_repeat (commands : list string) : Prop :=
  match commands with
  | a :: (b :: _) as rest => a <> b /\ no_repeat rest
  | _ => True
  end.

(** What the handler keeps true of the history. *)
Definition tidy (h : history) : Prop :=
  len (commandHistory h) <= 100
  /\ (historyIndex h = -1 \/ 0 <= historyIndex h < len (commandHistory h))
  /\ Forall (fun c => c <> "") (commandHistory h)
  /\ no_repeat (commandHistory h).

(** *** [parseInt] *)

(** The value of a digit: 0-9, then the letters in either case. *)
Definition digitValue (c : ascii) : option Z :=
  let n := Z.of_nat (nat_of_ascii c) in
  if (48 <=? n) && (n <=? 57) then Some (n - 48)
  else if (97 <=? n) && (n <=? 122) then Some (n - 87)
  else if (65 <=? n) && (n <=? 90) then Some (n - 55)
  else None.

(** The number written by the longest prefix of digits of the radix;
    [None] when there is no digit. *)
Fixpoint digitsValue (radix : Z) (s : string) (acc : option Z) : option Z :=
  match s with
  | EmptyString => acc
  | String c r =>
    match digitValue c with
    | Some d =>
      if d <? radix then digitsValue radix r (Some (default 0 acc * radix + d))
      else acc
    | None => acc
    end
  end.

(** [parseInt(string, radix)]: [None] stands for [NaN].  The value is the
    exact integer (JavaScript rounds it to a double beyond 2^53, which the
    comparisons made on it here cannot tell). *)
Definition parseInt (s : string) (radix : option Z) : option Z :=
  let s := trimStart s in
  let '(sign, s) :=
    match s with
    | String "-" r => (-1, r)
    | String "+" r => (1, r)
    | _ => (1, s)
    end in
  let R := toInt32 (default 0 radix) in
  if negb (R =? 0) && ((R <? 2) || (36 <? R)) then None
  else
    let stripPrefix := (R =? 0) || (R =? 16) in
    let R := if R =? 0 then 10 else R in
    let '(R, s) :=
      match stripPrefix, s with
      | true, String "0" (String ("x" | "X")%char r) => (16, r)
      | _, _ => (R, s)
      end in
    option_map (Z.mul sign) (digitsValue R s None).

(** *** [slot change] *)

Inductive note : Type :=
| UsageSlotChange
| SlotMustBe1To8
| ChangedToSlot (slotNum : option Z)
| OnSlotChanged (slotNum : option Z)    (* [API._trigger('onSlotChanged')] *)
| ErrorChangingSlot (status : Z).

Section Commands.
Context {D : Type}.
Variable device_cmd : device D.
Local Open Scope exec_scope.

(** [x < n || x > m] on a number that may be [NaN]. *)
Definition outside (x : option Z) (n m : Z) : bool :=
  match x with
  | Some x => (x <? n) || (m <? x)
  | None => false
  end.

(** The [change] branch of the [slot] command; [args] is what follows
    [slot] on the command line.  The hook call is kept on the console
    list. *)
Definition slotChange (args : list string) : M D note unit :=
  match at_ args 1 with
  | None | Some EmptyString =>
    let* _ := log false UsageSlotChange in return_
  | Some arg =>
    let slotNum := parseInt arg None in
    if outside slotNum 1 8 then
      let* _ := log true SlotMustBe1To8 in return_
    else
      let* result :=
        cmd_ device_cmd Session.CMD_SET_ACTIVE_SLOT
             (Some [Session.u8o (option_map (fun n => n - 1) slotNum)]) in
      if status result =? Session.SUCCESS then
        let* _ := log false (ChangedToSlot slotNum) in
        log false (OnSlotChanged slotNum)
      else log true (ErrorChangingSlot (status result))
  end.

End Commands.

(** A device that answers every command with success and no data. *)
Definition obliging : device unit :=
  fun d c _ => (d, Response (mkFrame c Session.SUCCESS [])).

(** *** Hex helpers of the script API *)

Definition isHex (c : ascii) : bool :=
  match digitValue c with Some d => d <? 16 | None => false end.

(** [hex.replace(/[^0-9a-fA-F]/g, '')]. *)
Fixpoint cleanHex (hex : string) : string :=
  match hex with
  | EmptyString => EmptyString
  | String c r => if isHex c then String c (cleanHex r) else cleanHex r
  end.

(** [s.substr(start, length)] for a start within the string. *)
Definition substr (s : string) (start length : Z) : string :=
  String.substring (Z.to_nat start) (Z.to_nat length) s.

(** [hex2bytes(hex)]: [new Uint8Array(cleaned.length / 2)] rounds the
    length down, and a [NaN] is stored as 0. *)
Definition hex2bytes (hex : string) : list Z :=
  let cleaned := cleanHex hex in
  map (fun i => Session.u8o (parseInt (substr cleaned (i * 2) 2) (Some 16)))
      (range_by 0 (Z.of_nat (String.length cleaned) / 2) 1).

(** [bytes2hex(bytes)]. *)
Definition bytes2hex (bytes : list Z) : string :=
  join "" (map hex2 bytes).

End Shell.

(* ===================================================================== *)
(** * Properties *)
(* ===================================================================== *)

(** ** Arithmetic of the JavaScript primitives *)

Module JSFacts.
Import JS.

Lemma toInt32_small (z : Z) : - 2 ^ 31 <= z < 2 ^ 31 -> toInt32 z = z.
Proof. intros H. unfold toInt32. rewrite Z.mod_small; lia. Qed.

Lemma land_255 (z : Z) : Z.land z 255 = z mod 256.
Proof. change 255 with (Z.ones 8). now rewrite Z.land_ones by lia. Qed.

Lemma land_255_byte (z : Z) : byte_ok (Z.land z 255).
Proof.
  rewrite land_255. unfold byte_ok.
  pose proof (Z.mod_pos_bound z 256). lia.
Qed.

Lemma u8_byte (b : Z) : byte_ok b -> u8 b = b.
Proof. unfold byte_ok, u8. intros H. now rewrite Z.mod_small. Qed.

(** [(h << 8) | l] on a low byte is [h * 256 + l]. *)
Lemma lor_shiftl_8 (h l : Z) :
  0 <= l < 256 -> Z.lor (Z.shiftl h 8) l = h * 256 + l.
Proof.
  intros Hl. rewrite <- Z.add_nocarry_lor.
  - rewrite Z.shiftl_mul_pow2 by lia. reflexivity.
  - apply Z.bits_inj'. intros n Hn.
    rewrite Z.land_spec, Z.bits_0.
    destruct (Z.ltb_spec n 8) as [Hlt | Hge].
    + rewrite Z.shiftl_spec_low by lia. reflexivity.
    + assert (Z.testbit l n = false) as ->.
      { destruct (Z.eq_dec l 0) as [-> | Hne]; [apply Z.bits_0 |].
        apply Z.bits_above_log2; [lia |].
        apply Z.log2_lt_pow2; [lia |].
        apply Z.lt_le_trans with (2 ^ 8); [simpl; lia |].
        apply Z.pow_le_mono_r; lia. }
      apply andb_false_r.
Qed.

Lemma be16_bytes (h l : Z) :
  byte_ok h -> byte_ok l ->
  bor (shl (toInt32o (Some h)) 8) (toInt32o (Some l)) = h * 256 + l.
Proof.
  unfold byte_ok, bor, shl, toInt32o. intros Hh Hl.
  change (8 mod 32) with 8.
  assert (Hs : Z.shiftl h 8 = h * 256)
    by (rewrite Z.shiftl_mul_pow2 by lia; reflexivity).
  rewrite !(toInt32_small h), !(toInt32_small l) by lia.
  rewrite !(toInt32_small (Z.shiftl h 8)) by (rewrite Hs; lia).
  apply lor_shiftl_8; lia.
Qed.

(** The two bytes [makeDataFrame] stores for a 16-bit field. *)
Lemma hi_byte (c : Z) :
  0 <= c <= 65535 -> u8 (band (shr c 8) 0xFF) = c / 256.
Proof.
  intros H. unfold band, shr, u8.
  rewrite (toInt32_small c) by lia. change (8 mod 32) with 8.
  rewrite Z.shiftr_div_pow2 by lia. change (2 ^ 8) with 256.
  assert (0 <= c / 256 < 256)
    by (split; [apply Z.div_pos | apply Z.div_lt_upper_bound]; lia).
  rewrite !toInt32_small by lia.
  rewrite land_255, Z.mod_mod by lia. apply Z.mod_small; lia.
Qed.

Lemma lo_byte (c : Z) :
  0 <= c <= 65535 -> u8 (band c 0xFF) = c mod 256.
Proof.
  intros H. unfold band, u8.
  rewrite !toInt32_small by lia.
  rewrite land_255, Z.mod_mod by lia. reflexivity.
Qed.

Lemma hi_lo_bytes (c : Z) :
  0 <= c <= 65535 ->
  byte_ok (c / 256) /\ byte_ok (c mod 256) /\ c / 256 * 256 + c mod 256 = c.
Proof.
  intros H. unfold byte_ok. repeat split.
  - apply Z.div_pos; lia.
  - apply Z.div_lt_upper_bound; lia.
  - apply Z.mod_pos_bound; lia.
  - apply Z.mod_pos_bound; lia.
  - pose proof (Z.div_mod c 256). lia.
Qed.

Lemma len_cons {A} (a : A) (l : list A) : len (a :: l) = 1 + len l.
Proof. unfold len. simpl length. lia. Qed.

Lemma len_app {A} (l1 l2 : list A) : len (l1 ++ l2) = len l1 + len l2.
Proof. unfold len. rewrite length_app. lia. Qed.

Lemma len_nonneg {A} (l : list A) : 0 <= len l.
Proof. unfold len. lia. Qed.

Lemma at_app_r {A} (l1 l2 : list A) (i : Z) :
  len l1 <= i -> at_ (l1 ++ l2) i = at_ l2 (i - len l1).
Proof.
  unfold at_, len. intros H.
  destruct (Z.ltb_spec i 0); [lia |].
  destruct (Z.ltb_spec (i - Z.of_nat (length l1)) 0); [lia |].
  rewrite lookup_app_r by lia. f_equal. lia.
Qed.

Lemma slice_from_app_len {A} (l1 l2 : list A) (n : Z) :
  n = len l1 -> slice_from (l1 ++ l2) n = l2.
Proof.
  unfold slice_from, len. intros ->. rewrite Nat2Z.id.
  now rewrite drop_app_length.
Qed.

Lemma slice_0_app_len {A} (l1 l2 : list A) (n : Z) :
  n = len l1 -> slice (l1 ++ l2) 0 n = l1.
Proof.
  unfold slice, len. intros ->. change (Z.to_nat 0) with 0%nat.
  rewrite drop_0, Z.sub_0_r, Nat2Z.id. now rewrite take_app_length.
Qed.

Lemma slice_app_r {A} (l1 l2 : list A) (a b : Z) :
  len l1 <= a -> slice (l1 ++ l2) a b = slice l2 (a - len l1) (b - len l1).
Proof.
  unfold slice, len. intros Ha.
  replace (Z.to_nat a)
    with (length l1 + Z.to_nat (a - Z.of_nat (length l1)))%nat by lia.
  rewrite <- drop_drop, drop_app_length. f_equal. lia.
Qed.


End JSFacts.

(** ** The frame codec *)

Module CodecFacts.
Import JS Codec JSFacts.

Lemma strict_neq_false (x : option Z) (n : Z) :
  strict_neq x n = false <-> x = Some n.
Proof.
  destruct x as [v |]; simpl; [| split; discriminate].
  rewrite negb_false_iff, Z.eqb_eq. split; congruence.
Qed.

Lemma strict_neq_true (x : option Z) (n : Z) :
  strict_neq x n = true <-> x <> Some n.
Proof.
  rewrite <- strict_neq_false. destruct (strict_neq x n); split; congruence.
Qed.

Lemma at_Some_lt {A} (l : list A) (i : Z) (a : A) :
  at_ l i = Some a -> 0 <= i < len l.
Proof.
  unfold at_, len. destruct (Z.ltb_spec i 0) as [Hneg | Hpos]; [discriminate |].
  intros Hlt%lookup_lt_Some. lia.
Qed.

Lemma lrcCalc_byte (l : list Z) : byte_ok (lrcCalc l).
Proof. unfold lrcCalc. apply land_255_byte. Qed.

(** One turn of the loop surfaces a frame exactly for a well-formed
    candidate, and then consumes exactly that candidate. *)
Lemma parseStep_valid_iff (c rest : list Z) (f : Frame) :
  parseStep c = Continue (ValidFrame f) rest <->
  well_formed c /\ f = candidateFrame c
  /\ rest = slice_from c (9 + candidateDataLen c + 1).
Proof.
  unfold parseStep, well_formed, lrc_ok, candidateFrame, candidateDataLen, be16.
  change (6 + 1) with 7. change (2 + 1) with 3. change (4 + 1) with 5.
  split.
  - destruct (len c <? 9); [discriminate |].
    destruct (strict_neq (at_ c 0) SOF) eqn:H0; [discriminate |].
    destruct (strict_neq (at_ c 1) _) eqn:H1; [discriminate |].
    destruct (len c <? _); [discriminate |].
    destruct (strict_neq (at_ c 8) _) eqn:H2; [discriminate |].
    destruct (strict_neq (at_ c (9 + _)) _) eqn:H3; [discriminate |].
    intros [= <- <-].
    apply strict_neq_false in H0, H1, H2, H3. auto 10.
  - intros [(H0 & H1 & H2 & H3) [-> ->]].
    pose proof (at_Some_lt _ _ _ H2) as L2.
    pose proof (at_Some_lt _ _ _ H3) as L3.
    destruct (Z.ltb_spec (len c) 9) as [Lt9 | _]; [lia |].
    apply strict_neq_false in H0, H1, H2, H3.
    rewrite H0, H1.
    destruct (Z.ltb_spec (len c) (9 + bor (shl (toInt32o (at_ c 6)) 8)
                                            (toInt32o (at_ c 7)) + 1))
      as [Ltf | _]; [lia |].
    now rewrite H2, H3.
Qed.

(** Any other turn that continues drops exactly the leading byte. *)
Lemma parseStep_skip (c rest : list Z) (e : event) :
  parseStep c = Continue e rest -> is_skip e = true -> rest = slice_from c 1.
Proof.
  unfold parseStep.
  repeat match goal with
         | |- context [if ?b then _ else _] => destruct b
         end; intros [= <- <-]; try reflexivity; discriminate.
Qed.

(** A complete candidate that is not well-formed is dropped byte-wise. *)
Lemma parseStep_malformed (c : list Z) :
  complete c -> ~ well_formed c ->
  exists e, is_skip e = true /\ parseStep c = Continue e (slice_from c 1).
Proof.
  unfold complete, candidateDataLen, be16. change (6 + 1) with 7.
  intros [L1 L2] Hbad. unfold parseStep.
  destruct (Z.ltb_spec (len c) 9) as [Lt9 | _]; [lia |].
  destruct (strict_neq (at_ c 0) SOF) eqn:S0; [now eexists |].
  destruct (strict_neq (at_ c 1) _) eqn:S1; [now eexists |].
  destruct (Z.ltb_spec (len c) (9 + bor (shl (toInt32o (at_ c 6)) 8)
                                          (toInt32o (at_ c 7)) + 1))
    as [Ltf | _]; [lia |].
  destruct (strict_neq (at_ c 8) _) eqn:S2; [now eexists |].
  destruct (strict_neq (at_ c (9 + _)) _) eqn:S3; [now eexists |].
  exfalso. apply Hbad. apply strict_neq_false in S0, S1, S2, S3.
  unfold well_formed, lrc_ok, candidateDataLen, be16. auto.
Qed.

Lemma map_u8_bytes (p : list Z) : Forall byte_ok p -> map u8 p = p.
Proof.
  induction 1 as [| b p Hb _ IH]; [reflexivity |].
  simpl. now rewrite u8_byte, IH.
Qed.

Lemma insert_cons_S {A} (i : nat) (x a : A) (l : list A) :
  <[S i := x]> (a :: l) = a :: <[i := x]> l.
Proof. reflexivity. Qed.

Lemma insert_cons_0 {A} (x a : A) (l : list A) :
  <[0%nat := x]> (a :: l) = x :: l.
Proof. reflexivity. Qed.

Lemma makeDataFrame_encoded (c s : Z) (p : list Z) :
  0 <= c <= 65535 -> 0 <= s <= 65535 -> Forall byte_ok p -> len p <= 65535 ->
  makeDataFrame c (Some p) s = encoded c s p.
Proof.
  intros Hc Hs Hp Hn. unfold makeDataFrame, encoded, header8.
  pose proof (len_nonneg p) as Hn0.
  rewrite !hi_byte, !lo_byte by lia.
  assert (E : Z.to_nat (1 + 1 + 2 + 2 + 2 + 1 + len p + 1)
              = (9 + (length p + 1))%nat)
    by (unfold len; lia).
  rewrite E, !replicate_add.
  change (replicate 9 0) with [0;0;0;0;0;0;0;0;0].
  change (u8 SOF) with SOF.
  cbn -[lrcCalc Z.div Z.modulo Z.add Z.sub Z.ltb Z.to_nat len set_at slice].
  match goal with
  | |- context [if 0 <? len p then set_at ?F p 9 else _] =>
    assert (Hbody : (if 0 <? len p then set_at F p 9 else F)
                    = SOF :: 0 :: c / 256 :: c mod 256 :: s / 256 :: s mod 256
                      :: len p / 256 :: len p mod 256 :: 0 :: p ++ [0])
  end.
  { destruct (Z.ltb_spec 0 (len p)) as [Hpos | Hz].
    - unfold set_at. change (Z.to_nat 9) with 9%nat.
      rewrite map_u8_bytes by assumption.
      cbn [take drop app Nat.add].
      rewrite drop_app_length'; [reflexivity | now rewrite length_replicate].
    - destruct p; [reflexivity |].
      rewrite len_cons in Hz. pose proof (len_nonneg p). lia. }
  rewrite Hbody.
  assert (Hoff : (if 0 <? len p then 9 + len p else 9) = 9 + len p).
  { destruct (Z.ltb_spec 0 (len p)); lia. }
  rewrite Hoff.
  assert (E9 : Z.to_nat (9 + len p) = (9 + length p)%nat) by (unfold len; lia).
  assert (E9' : Z.to_nat (9 + len p - 0) = (9 + length p)%nat)
    by (unfold len; lia).
  unfold slice. rewrite E9, E9'.
  change (Z.to_nat 0) with 0%nat. change (Z.to_nat (1 - 0)) with 1%nat.
  change (Z.to_nat (8 - 0)) with 8%nat.
  change (Z.to_nat 1) with 1%nat. change (Z.to_nat 8) with 8%nat.
  change (9 + length p)%nat
    with (S (S (S (S (S (S (S (S (S (length p)))))))))).
  rewrite !drop_0.
  repeat rewrite ?insert_cons_S, ?insert_cons_0, ?firstn_cons, ?firstn_O.
  rewrite !u8_byte by apply lrcCalc_byte.
  rewrite take_app_length.
  rewrite insert_app_r_alt, Nat.sub_diag by lia.
  reflexivity.
Qed.

Lemma len_header8 c s n : len (header8 c s n) = 8.
Proof. reflexivity. Qed.

(** An encoded frame at the head of the buffer passes every check and is
    read back as the fields it was built from. *)
Lemma encoded_well_formed (c s : Z) (p rest : list Z) :
  0 <= c <= 65535 -> 0 <= s <= 65535 -> len p <= 65535 ->
  well_formed (encoded c s p ++ rest)
  /\ candidateFrame (encoded c s p ++ rest) = mkFrame c s p
  /\ slice_from (encoded c s p ++ rest)
                (9 + candidateDataLen (encoded c s p ++ rest) + 1) = rest.
Proof.
  intros Hc Hs Hn. pose proof (len_nonneg p) as Hn0.
  destruct (hi_lo_bytes c Hc) as (Bc1 & Bc2 & Ec).
  destruct (hi_lo_bytes s Hs) as (Bs1 & Bs2 & Es).
  destruct (hi_lo_bytes (len p) (conj Hn0 Hn)) as (Bn1 & Bn2 & En).
  assert (Hlen : candidateDataLen (encoded c s p ++ rest) = len p).
  { unfold candidateDataLen, be16, encoded, header8. cbn [app].
    change (at_ _ 6) with (Some (len p / 256)).
    change (at_ _ (6 + 1)) with (Some (len p mod 256)).
    rewrite be16_bytes by assumption. exact En. }
  unfold well_formed, lrc_ok, candidateFrame. rewrite Hlen.
  set (h9 := header8 c s (len p) ++ [lrcCalc (header8 c s (len p))]).
  assert (Hsplit : encoded c s p ++ rest
                   = (h9 ++ p) ++ lrcCalc (h9 ++ p) :: rest).
  { unfold encoded, h9. cbv zeta. now rewrite <- !app_assoc. }
  assert (Hl9 : len (h9 ++ p) = 9 + len p) by (now rewrite len_app).
  refine (conj (conj _ (conj _ (conj _ _))) (conj _ _)).
  - reflexivity.
  - reflexivity.
  - reflexivity.
  - rewrite Hsplit, at_app_r, slice_0_app_len by lia.
    now rewrite Hl9, Z.sub_diag.
  - f_equal.
    + unfold be16, encoded, header8. cbn [app].
      change (at_ _ 2) with (Some (c / 256)).
      change (at_ _ (2 + 1)) with (Some (c mod 256)).
      now rewrite be16_bytes.
    + unfold be16, encoded, header8. cbn [app].
      change (at_ _ 4) with (Some (s / 256)).
      change (at_ _ (4 + 1)) with (Some (s mod 256)).
      now rewrite be16_bytes.
    + unfold slice, encoded, header8. cbn [app].
      change (Z.to_nat 9) with 9%nat. cbn [drop].
      replace (Z.to_nat (9 + len p - 9)) with (length p) by (unfold len; lia).
      now rewrite drop_0, <- app_assoc, take_app_length.
  - unfold encoded. cbv zeta. rewrite !app_assoc.
    apply slice_from_app_len. rewrite !len_app, len_header8.
    change (len [_]) with 1. lia.
Qed.

Lemma parseLoop_nil (turns : nat) : parseLoop turns [] = ([], []).
Proof. destruct turns; reflexivity. Qed.

Lemma len_pos_cons {A} (a : A) (l : list A) : (0 <? len (a :: l)) = true.
Proof. apply Z.ltb_lt. rewrite len_cons. pose proof (len_nonneg l). lia. Qed.

Lemma encoded_cons (c s : Z) (p : list Z) :
  exists t, encoded c s p = SOF :: lrcCalc [SOF] :: t /\ 8 <= len t.
Proof.
  unfold encoded, header8. cbn [app]. eexists. split; [reflexivity |].
  rewrite !len_cons, len_app, len_cons. change (len (@nil Z)) with 0.
  pose proof (len_nonneg p). lia.
Qed.

(** A turn of the loop on an encoded frame surfaces it and goes on with
    what follows it. *)
Lemma parseLoop_encoded (turns : nat) (c s : Z) (p rest : list Z) :
  0 <= c <= 65535 -> 0 <= s <= 65535 -> len p <= 65535 ->
  parseLoop (S turns) (encoded c s p ++ rest)
  = (ValidFrame (mkFrame c s p) :: (parseLoop turns rest).1,
     (parseLoop turns rest).2).
Proof.
  intros Hc Hs Hn.
  destruct (encoded_well_formed c s p rest Hc Hs Hn) as (Hwf & Hf & Hrest).
  assert (Hstep : parseStep (encoded c s p ++ rest)
                  = Continue (ValidFrame (mkFrame c s p)) rest).
  { apply parseStep_valid_iff.
    exact (conj Hwf (conj (eq_sym Hf) (eq_sym Hrest))). }
  destruct (encoded_cons c s p) as (t & Et & _).
  cbn [parseLoop]. rewrite Hstep. rewrite Et. cbn [app].
  now rewrite len_pos_cons.
Qed.

Lemma parseLoop_one_encoded (c s : Z) (p : list Z) :
  0 <= c <= 65535 -> 0 <= s <= 65535 -> len p <= 65535 ->
  parseLoop (length (encoded c s p)) (encoded c s p)
  = ([ValidFrame (mkFrame c s p)], []).
Proof.
  intros Hc Hs Hn.
  destruct (encoded_cons c s p) as (t & Et & _).
  rewrite Et at 1. cbn [length].
  rewrite <- (app_nil_r (encoded c s p)).
  rewrite parseLoop_encoded by assumption.
  now rewrite parseLoop_nil.
Qed.

(** *** The loop runs to its end

    Every turn that continues shortens the buffer, so the number of turns
    [parseFrames] allows is never what stops the loop. *)

Lemma parseStep_shrinks (c rest : list Z) (e : event) :
  parseStep c = Continue e rest -> (length rest < length c)%nat.
Proof.
  intros Hstep. destruct (is_skip e) eqn:He.
  - rewrite (parseStep_skip _ _ _ Hstep He).
    unfold parseStep in Hstep.
    destruct (Z.ltb_spec (len c) 9) as [Lt9 | Ge9]; [discriminate |].
    unfold slice_from, len in *. rewrite length_drop. lia.
  - destruct e; try discriminate.
    apply parseStep_valid_iff in Hstep as ((_ & _ & _ & H3) & _ & ->).
    apply at_Some_lt in H3.
    unfold slice_from, len in *. rewrite length_drop. lia.
Qed.

Lemma parseLoop_enough (n m : nat) (buffer : list Z) :
  (length buffer <= n)%nat -> (length buffer <= m)%nat ->
  parseLoop n buffer = parseLoop m buffer.
Proof.
  revert m buffer. induction n as [| n IH]; intros m buffer Hn Hm.
  - destruct buffer; [| simpl in Hn; lia]. now rewrite !parseLoop_nil.
  - destruct m as [| m].
    + destruct buffer; [| simpl in Hm; lia]. now rewrite !parseLoop_nil.
    + cbn [parseLoop]. destruct (0 <? len buffer); [| reflexivity].
      destruct (parseStep buffer) as [| e rest] eqn:Hstep; [reflexivity |].
      apply parseStep_shrinks in Hstep.
      rewrite (IH m rest) by lia. reflexivity.
Qed.

(** [parseFrames] stops where the loop of the code stops: on an empty
    buffer or at a [break]. *)
Lemma parseLoop_stops (n : nat) (buffer : list Z) :
  (length buffer <= n)%nat ->
  (parseLoop n buffer).2 = [] \/ parseStep (parseLoop n buffer).2 = Break.
Proof.
  revert buffer. induction n as [| n IH]; intros buffer Hn.
  - destruct buffer; [now left | simpl in Hn; lia].
  - cbn [parseLoop]. destruct (Z.ltb_spec 0 (len buffer)) as [Hpos | Hz].
    + destruct (parseStep buffer) as [| e rest] eqn:Hstep; [now right |].
      apply parseStep_shrinks in Hstep. cbn [snd]. apply IH. lia.
    + left. destruct buffer; [reflexivity |].
      rewrite len_cons in Hz. pose proof (len_nonneg buffer). lia.
Qed.

Lemma parseFrames_stops (buffer : list Z) :
  (parseFrames buffer).2 = [] \/ parseStep (parseFrames buffer).2 = Break.
Proof. apply parseLoop_stops. lia. Qed.

(** The frames of a run all sit at some offset of the input, where the
    bytes pass every check. *)
Lemma parseLoop_frames_well_formed (turns : nat) (buffer : list Z) (f : Frame) :
  In f (frames (parseLoop turns buffer).1) ->
  exists k : nat,
    well_formed (drop k buffer) /\ f = candidateFrame (drop k buffer).
Proof.
  revert buffer. induction turns as [| turns IH]; intros buffer; [intros [] |].
  cbn [parseLoop]. destruct (0 <? len buffer); [| intros []].
  destruct (parseStep buffer) as [| e rest] eqn:Hstep; [intros [] |].
  cbn [fst frames omap]. unfold frames in IH.
  destruct e as [| | | | g]; cbn [frame_of list_omap].
  1-4: intros Hin; destruct (IH _ Hin) as (k & Hk);
       rewrite (parseStep_skip _ _ _ Hstep eq_refl) in Hk;
       unfold slice_from in Hk; rewrite drop_drop in Hk; eauto.
  apply parseStep_valid_iff in Hstep as (Hwf & -> & ->).
  intros [<- | Hin].
  - exists 0%nat. now rewrite drop_0.
  - destruct (IH _ Hin) as (k & Hk).
    unfold slice_from in Hk; rewrite drop_drop in Hk; eauto.
Qed.

(** C1. Frame round-trip: for a command id and a status of 16 bits and a
    payload of at most 4096 bytes, the streaming decoder run on the bytes of
    [makeDataFrame] surfaces exactly one frame, with that command id, that
    status and that payload, and leaves the buffer empty. *)
Theorem frame_roundtrip (commandId status : Z) (payload : list Z) :
  0 <= commandId <= 65535 -> 0 <= status <= 65535 ->
  Forall byte_ok payload -> len payload <= 4096 ->
  parseFrames (makeDataFrame commandId (Some payload) status)
  = ([ValidFrame (mkFrame commandId status payload)], []).
Proof.
  intros Hc Hs Hp Hn.
  rewrite makeDataFrame_encoded by (assumption || lia).
  unfold parseFrames. apply parseLoop_one_encoded; lia.
Qed.

Lemma frame_roundtrip_witness :
  parseFrames (makeDataFrame 1025 (Some [1; 2; 3]) 0x68)
  = ([ValidFrame (mkFrame 1025 0x68 [1; 2; 3])], []).
Proof.
  apply (frame_roundtrip 1025 0x68 [1; 2; 3]).
  - lia.
  - lia.
  - repeat constructor; unfold byte_ok; lia.
  - unfold len; simpl; lia.
Defined.

(** *** Resynchronisation *)

(** A leading byte that cannot start a frame costs one turn and one byte. *)
Lemma parseStep_garbage_byte (g : list Z) (a : Z) (t : list Z) :
  no_frame_start (a :: g) -> 8 <= len t ->
  exists e, is_skip e = true
    /\ parseStep (a :: g ++ SOF :: lrcCalc [SOF] :: t)
       = Continue e (g ++ SOF :: lrcCalc [SOF] :: t).
Proof.
  intros Hclean Ht. unfold parseStep.
  assert (Hlen : 9 <= len (a :: g ++ SOF :: lrcCalc [SOF] :: t)).
  { rewrite len_cons, len_app, !len_cons. pose proof (len_nonneg g). lia. }
  destruct (Z.ltb_spec (len (a :: g ++ SOF :: lrcCalc [SOF] :: t)) 9)
    as [Lt9 | _]; [lia |].
  change (at_ (a :: g ++ SOF :: lrcCalc [SOF] :: t) 0) with (Some a).
  change (slice_from (a :: g ++ SOF :: lrcCalc [SOF] :: t) 1)
    with (g ++ SOF :: lrcCalc [SOF] :: t).
  cbn [strict_neq]. destruct (Z.eqb_spec a SOF) as [-> | Hne]; cbn [negb].
  - exists LRC1Mismatch. split; [reflexivity |].
    change (slice (SOF :: g ++ SOF :: lrcCalc [SOF] :: t) 0 1) with [SOF].
    assert (Hneq : strict_neq (at_ (SOF :: g ++ SOF :: lrcCalc [SOF] :: t) 1)
                              (lrcCalc [SOF]) = true).
    { apply strict_neq_true. destruct g as [| b g].
      - cbn. intros H. vm_compute in H. discriminate H.
      - cbn. intros [= H]. destruct Hclean as [Hab _]. now apply Hab. }
    now rewrite Hneq.
  - now exists InvalidSOF.
Qed.

Lemma no_frame_start_tail (a : Z) (g : list Z) :
  no_frame_start (a :: g) -> no_frame_start g.
Proof. destruct g as [| b g]; [easy |]. now intros [_ H]. Qed.

Lemma parseLoop_garbage (garbage t : list Z) (n : nat) :
  no_frame_start garbage -> 8 <= len t ->
  exists skips,
    length skips = length garbage /\ all_skips skips
    /\ parseLoop (length garbage + n) (garbage ++ SOF :: lrcCalc [SOF] :: t)
       = (skips ++ (parseLoop n (SOF :: lrcCalc [SOF] :: t)).1,
          (parseLoop n (SOF :: lrcCalc [SOF] :: t)).2).
Proof.
  intros Hclean Ht. induction garbage as [| a g IH].
  - exists []. split; [reflexivity |]. split; [constructor |].
    cbn [app length Nat.add]. now destruct (parseLoop n _).
  - destruct (IH (no_frame_start_tail _ _ Hclean)) as (skips & Hl & Hs & Hrun).
    destruct (parseStep_garbage_byte g a t Hclean Ht) as (e & He & Hstep).
    exists (e :: skips). split; [simpl; lia |]. split; [now constructor |].
    cbn [length Nat.add app parseLoop].
    rewrite len_pos_cons, Hstep, Hrun. reflexivity.
Qed.

Lemma frames_app (evs1 evs2 : list event) :
  frames (evs1 ++ evs2) = frames evs1 ++ frames evs2.
Proof.
  unfold frames. induction evs1 as [| e evs1 IH]; [reflexivity |].
  cbn. destruct (frame_of e); cbn; now rewrite IH.
Qed.

Lemma frames_skips (evs : list event) : all_skips evs -> frames evs = [].
Proof.
  induction 1 as [| e evs He _ IH]; [reflexivity |].
  unfold frames in *. cbn. destruct e; try discriminate; exact IH.
Qed.

Lemma skipped_app (evs1 evs2 : list event) :
  skipped (evs1 ++ evs2) = (skipped evs1 + skipped evs2)%nat.
Proof. unfold skipped. now rewrite filter_app, length_app. Qed.

Lemma skipped_skips (evs : list event) :
  all_skips evs -> skipped evs = length evs.
Proof.
  unfold skipped. induction 1 as [| e evs He _ IH]; [reflexivity |].
  rewrite filter_cons_True by assumption. simpl. now rewrite IH.
Qed.

(** C2, as the code has it. Resynchronisation: for every valid encoded
    frame and every run of garbage bytes in which no start-of-frame byte
    0x11 is directly followed by its checksum 0xEF, the decoder run on the
    garbage followed by the frame drops the garbage bytes one per turn,
    exactly as many as there are, then surfaces exactly one frame, the
    valid one, and leaves the buffer empty. *)
Theorem resync_after_clean_garbage (garbage : list Z) (c s : Z) (p : list Z) :
  0 <= c <= 65535 -> 0 <= s <= 65535 -> Forall byte_ok p -> len p <= 4096 ->
  no_frame_start garbage ->
  exists skips,
    parseFrames (garbage ++ makeDataFrame c (Some p) s)
    = (skips ++ [ValidFrame (mkFrame c s p)], [])
    /\ all_skips skips /\ length skips = length garbage
    /\ frames (skips ++ [ValidFrame (mkFrame c s p)]) = [mkFrame c s p]
    /\ skipped (skips ++ [ValidFrame (mkFrame c s p)]) = length garbage.
Proof.
  intros Hc Hs Hp Hn Hclean.
  rewrite makeDataFrame_encoded by (assumption || lia).
  destruct (encoded_cons c s p) as (t & Et & Ht).
  destruct (parseLoop_garbage garbage t (length (encoded c s p)) Hclean Ht)
    as (skips & Hl & Hs' & Hrun).
  rewrite <- Et in Hrun.
  rewrite parseLoop_one_encoded in Hrun by lia. cbn [fst snd] in Hrun.
  exists skips. unfold parseFrames. rewrite length_app, Hrun.
  split; [reflexivity |]. split; [assumption |]. split; [assumption |].
  split.
  - rewrite frames_app, frames_skips by assumption. reflexivity.
  - rewrite skipped_app, skipped_skips by assumption.
    change (skipped [ValidFrame (mkFrame c s p)]) with 0%nat. lia.
Qed.

Lemma resync_after_clean_garbage_witness :
  exists skips,
    parseFrames ([0x00; 0x11; 0x42] ++ makeDataFrame 1025 (Some [1; 2; 3]) 0x68)
    = (skips ++ [ValidFrame (mkFrame 1025 0x68 [1; 2; 3])], [])
    /\ all_skips skips /\ length skips = 3%nat
    /\ frames (skips ++ [ValidFrame (mkFrame 1025 0x68 [1; 2; 3])])
       = [mkFrame 1025 0x68 [1; 2; 3]]
    /\ skipped (skips ++ [ValidFrame (mkFrame 1025 0x68 [1; 2; 3])]) = 3%nat.
Proof.
  apply (resync_after_clean_garbage [0x00; 0x11; 0x42] 1025 0x68 [1; 2; 3]).
  - lia.
  - lia.
  - repeat constructor; unfold byte_ok; lia.
  - unfold len; simpl; lia.
  - cbn. repeat split; intros [H1 H2]; vm_compute in H1, H2; discriminate.
Defined.

(** C2, as stated, fails: eight garbage bytes that look like a header
    announcing 65535 bytes of data make the decoder wait for more input.
    Nothing is surfaced and no byte is dropped. *)
Lemma resync_counterexample :
  let garbage := [0x11; 0xEF; 0; 0; 0; 0; 0xFF; 0xFF] in
  let frame := makeDataFrame 1025 (Some [1; 2; 3]) 0x68 in
  let r := parseFrames (garbage ++ frame) in
  frames r.1 = [] /\ skipped r.1 = 0%nat /\ r.2 = garbage ++ frame
  /\ ~ (frames r.1 = [mkFrame 1025 0x68 [1; 2; 3]]
        /\ skipped r.1 = length garbage /\ r.2 = []).
Proof.
  vm_compute. repeat split. intros (H & _). discriminate.
Qed.

(** *** What a turn decides, and when *)

Lemma well_formed_complete (c : list Z) :
  well_formed c -> header_ok c /\ complete c.
Proof.
  intros (H0 & H1 & H2 & H3). split; [now split |].
  apply at_Some_lt in H2, H3. unfold complete. lia.
Qed.

Lemma parseStep_wait (c : list Z) : must_wait c -> parseStep c = Break.
Proof.
  unfold must_wait, header_ok, lrc_ok, complete, candidateDataLen, be16.
  change (6 + 1) with 7. unfold parseStep.
  intros [Hshort | [[H0 H1] Hpart]].
  - destruct (Z.ltb_spec (len c) 9); [reflexivity | lia].
  - destruct (Z.ltb_spec (len c) 9) as [| Ge9]; [reflexivity |].
    apply strict_neq_false in H0, H1. rewrite H0, H1.
    destruct (Z.ltb_spec (len c) (9 + bor (shl (toInt32o (at_ c 6)) 8)
                                            (toInt32o (at_ c 7)) + 1))
      as [| Gef]; [reflexivity |].
    exfalso. apply Hpart. lia.
Qed.

Lemma parseStep_drop (c : list Z) :
  must_drop c ->
  exists e, is_skip e = true /\ parseStep c = Continue e (drop 1 c).
Proof.
  intros [Ge9 [Hhead | [Hall Hbad]]]; [| now apply parseStep_malformed].
  unfold header_ok, lrc_ok in Hhead. unfold parseStep.
  destruct (Z.ltb_spec (len c) 9); [lia |].
  destruct (strict_neq (at_ c 0) SOF) eqn:S0; [now eexists |].
  destruct (strict_neq (at_ c 1) _) eqn:S1; [now eexists |].
  exfalso. apply Hhead. now apply strict_neq_false in S0, S1.
Qed.

(** Every buffer is in one of the three situations. *)
Lemma parseStep_situation (c : list Z) :
  must_wait c \/ must_drop c \/ well_formed c.
Proof.
  destruct (Z.lt_ge_cases (len c) 9) as [Lt9 | Ge9]; [left; now left |].
  destruct (decide (at_ c 0 = Some SOF)) as [H0 | H0].
  2:{ right; left. split; [exact Ge9 |]. left. now intros [? _]. }
  destruct (decide (at_ c 1 = Some (lrcCalc (slice c 0 1)))) as [H1 | H1].
  2:{ right; left. split; [exact Ge9 |]. left. now intros [_ ?]. }
  destruct (Z.lt_ge_cases (len c) (9 + candidateDataLen c + 1))
    as [Ltf | Gef].
  { left; right. split; [now split |]. unfold complete. lia. }
  assert (Hall : complete c) by (unfold complete; lia).
  destruct (decide (at_ c 8 = Some (lrcCalc (slice c 0 8)))) as [H2 | H2].
  2:{ right; left. split; [exact Ge9 |]. right. split; [exact Hall |].
      now intros (_ & _ & ? & _). }
  destruct (decide (at_ c (9 + candidateDataLen c)
                    = Some (lrcCalc (slice c 0 (9 + candidateDataLen c)))))
    as [H3 | H3].
  - right; right. now repeat split.
  - right; left. split; [exact Ge9 |]. right. split; [exact Hall |].
    now intros (_ & _ & _ & ?).
Qed.

(** A turn that continues is followed by the whole loop on what is left. *)
Lemma parseFrames_turn (buffer rest : list Z) (e : event) :
  parseStep buffer = Continue e rest ->
  parseFrames buffer = (e :: (parseFrames rest).1, (parseFrames rest).2).
Proof.
  intros Hstep. pose proof (parseStep_shrinks _ _ _ Hstep) as Hlt.
  unfold parseFrames. destruct buffer as [| b buffer]; [simpl in Hlt; lia |].
  cbn [length parseLoop]. rewrite len_pos_cons, Hstep.
  rewrite (parseLoop_enough (length buffer) (length rest) rest)
    by (simpl in Hlt; lia).
  reflexivity.
Qed.

Lemma parseFrames_wait (buffer : list Z) :
  parseStep buffer = Break -> parseFrames buffer = ([], buffer).
Proof.
  intros Hstep. unfold parseFrames.
  destruct buffer as [| b buffer]; [reflexivity |].
  cbn [length parseLoop]. now rewrite len_pos_cons, Hstep.
Qed.

(** C3, as the code has it. For every input buffer: every frame
    [parseFrames] surfaces is read at an offset of the input where byte 0
    is SOF (0x11) and the three LRC bytes validate against the bytes they
    cover, so a candidate failing a check is never surfaced.  A buffer is
    in one of three situations.  While fewer than nine bytes are buffered,
    or the header is good and the frame it announces is not all there, the
    decoder waits: nothing is surfaced and nothing dropped.  Once a failing
    check can be made (SOF or LRC1 in nine bytes, LRC2 or LRC3 in the whole
    announced frame) exactly one leading byte is dropped and the decoder
    retries on the rest.  A candidate passing every check is surfaced and
    the decoder goes on behind it. *)
Theorem decoder_surfaces_only_well_formed (buffer : list Z) :
  (forall f, In f (frames (parseFrames buffer).1) ->
     exists k : nat,
       well_formed (drop k buffer) /\ f = candidateFrame (drop k buffer))
  /\ (must_wait buffer \/ must_drop buffer \/ well_formed buffer)
  /\ (must_wait buffer -> parseFrames buffer = ([], buffer))
  /\ (must_drop buffer ->
        exists e, is_skip e = true
          /\ parseFrames buffer
             = (e :: (parseFrames (drop 1 buffer)).1,
                (parseFrames (drop 1 buffer)).2))
  /\ (well_formed buffer ->
        let rest := slice_from buffer (9 + candidateDataLen buffer + 1) in
        parseFrames buffer
        = (ValidFrame (candidateFrame buffer) :: (parseFrames rest).1,
           (parseFrames rest).2)).
Proof.
  refine (conj _ (conj _ (conj _ (conj _ _)))).
  - intros f. apply parseLoop_frames_well_formed.
  - apply parseStep_situation.
  - intros Hwait. now apply parseFrames_wait, parseStep_wait.
  - intros Hdrop. destruct (parseStep_drop buffer Hdrop) as (e & He & Hstep).
    exists e. split; [exact He |]. now apply parseFrames_turn.
  - intros Hwf rest. apply parseFrames_turn.
    now apply parseStep_valid_iff.
Qed.

(** C3, as stated, fails: the length check comes before the LRC2 check.
    These twelve bytes start with a good SOF and LRC1, announce 65535 bytes
    of data and carry a wrong LRC2: the candidate fails a check, yet the
    decoder waits for the rest and drops no byte. *)
Lemma failing_candidate_counterexample :
  let buffer := [0x11; 0xEF; 0; 0; 0; 0; 0xFF; 0xFF; 0x00; 1; 2; 3] in
  ~ well_formed buffer
  /\ parseFrames buffer = ([], buffer)
  /\ ~ (exists e rest, parseStep buffer = Continue e rest).
Proof.
  intros buffer. split; [| split].
  - intros (_ & _ & H & _). vm_compute in H. discriminate H.
  - vm_compute. reflexivity.
  - intros (e & rest & H). vm_compute in H. discriminate H.
Qed.

End CodecFacts.

(** ** The command channel *)

Module ChannelFacts.
Import JS Codec Channel.

Lemma settle_lookup_eq (p : nat) (v : settled) (ps : gmap nat settled) :
  ps !! p = Some Pending -> settle p v ps !! p = Some v.
Proof. intros H. unfold settle. rewrite H. apply lookup_insert_eq. Qed.

Lemma settle_lookup_ne (p q : nat) (v : settled) (ps : gmap nat settled) :
  p <> q -> settle p v ps !! q = ps !! q.
Proof.
  intros H. unfold settle.
  destruct (ps !! p) as [[| |] |]; try reflexivity.
  now apply lookup_insert_ne.
Qed.

(** A time-out or a response for another promise leaves the wait alone. *)
Lemma waiting_fireTimeout (st : state) (c : Z) (p id : nat) :
  waiting st c p -> id <> p -> waiting (fireTimeout id st) c p.
Proof.
  intros (Ht & Hp & Hn & Hcb & Htm) Hne. unfold fireTimeout.
  destruct (timers st !! id) as [t |] eqn:Hid; [| now repeat split].
  assert (tm_promise t <> p) by (intros E; apply Hne; eauto).
  repeat split; cbn.
  - destruct Ht as [b Ht]. exists b. now rewrite lookup_delete_ne.
  - now rewrite settle_lookup_ne.
  - assumption.
  - intros k cb Hk. apply Hcb.
    now apply lookup_delete_Some in Hk as [_ Hk].
  - intros id' t' Hid'. apply Htm.
    now apply lookup_delete_Some in Hid' as [_ Hid'].
Qed.

Lemma waiting_handleResponse (st : state) (c : Z) (p : nat) (f : Frame) :
  waiting st c p -> cmd f <> c -> waiting (handleResponse f st) c p.
Proof.
  intros (Ht & Hp & Hn & Hcb & Htm) Hne. unfold handleResponse.
  destruct (responseCallbacks st !! cmd f) as [cb |] eqn:Hf;
    [| now repeat split].
  assert (cb_promise cb <> p /\ cb_timeoutId cb <> p) as [Hcp Hct]
    by (split; intros E; apply Hne; eauto).
  repeat split; cbn.
  - destruct Ht as [b Ht]. exists b. now rewrite lookup_delete_ne.
  - now rewrite settle_lookup_ne.
  - assumption.
  - intros k cb' Hk. apply Hcb.
    now apply lookup_delete_Some in Hk as [_ Hk].
  - intros id' t' Hid'. apply Htm.
    now apply lookup_delete_Some in Hid' as [_ Hid'].
Qed.

Lemma waiting_frames (fs : list Frame) (st : state) (c : Z) (p : nat) :
  waiting st c p -> Forall (fun f => cmd f <> c) fs ->
  waiting (fold_left (fun s f => handleResponse f s) fs st) c p.
Proof.
  intros Hw Hfs. revert st Hw.
  induction Hfs as [| f fs Hf _ IH]; intros st Hw; [exact Hw |].
  cbn. apply IH. now apply waiting_handleResponse.
Qed.

Lemma waiting_onData (st : state) (c : Z) (p : nat) (chunk : list Z) :
  waiting st c p -> quiet c p (AData chunk) st -> waiting (onData chunk st) c p.
Proof.
  intros Hw Hq. unfold onData. apply waiting_frames; [| exact Hq].
  exact Hw.
Qed.

Lemma send_nextId (dr : driver) (c : Z) (d : option (list Z)) (s : Z)
  (st : state) :
  (send dr c d s st).1 = nextId st
  /\ nextId (send dr c d s st).2 = S (nextId st)
  /\ connected (send dr c d s st).2 = connected st.
Proof.
  destruct dr as [| silent]; cbn; [easy |].
  unfold sendCmd. now destruct (connected st).
Qed.

(** A further send, of whatever command, takes fresh identities. *)
Lemma waiting_send (dr : driver) (st : state) (c c' : Z) (p : nat)
  (d : option (list Z)) (s : Z) :
  waiting st c p -> waiting (send dr c' d s st).2 c p.
Proof.
  intros (Ht & Hp & Hn & Hcb & Htm).
  assert (Hne : nextId st <> p) by lia.
  assert (Hreg : forall b : bool,
    waiting (mkState (<[c' := mkCallback (nextId st) (nextId st)]>
                        (responseCallbacks st))
                     (if b then {[c']} ∪ silentCommands st
                      else silentCommands st)
                     (<[nextId st := mkTimer c' (nextId st) b]> (timers st))
                     (<[nextId st := Pending]> (promises st))
                     (S (nextId st)) (buffer st)
                     (written st ++ [makeDataFrame c' d s]) (connected st))
            c p).
  { intros b. repeat split; cbn.
    - destruct Ht as [b' Ht]. exists b'. now rewrite lookup_insert_ne.
    - now rewrite lookup_insert_ne.
    - lia.
    - intros k cb Hk Hcbp. destruct (decide (c' = k)) as [<- | Hk'].
      + rewrite lookup_insert_eq in Hk. injection Hk as <-. cbn in Hcbp. lia.
      + rewrite lookup_insert_ne in Hk by assumption. eauto.
    - intros id t Hid Ht'. destruct (decide (nextId st = id)) as [<- | Hk'].
      + rewrite lookup_insert_eq in Hid. injection Hid as <-. cbn in Ht'. lia.
      + rewrite lookup_insert_ne in Hid by assumption. eauto. }
  destruct dr as [| silent]; cbn.
  - destruct (Hreg false) as (? & ? & ? & ? & ?). now repeat split.
  - unfold sendCmd. destruct (connected st); cbn.
    + destruct (Hreg true) as (? & ? & ? & ? & ?).
      destruct (Hreg false) as (? & ? & ? & ? & ?).
      destruct silent; now repeat split.
    + repeat split; cbn; try assumption.
      * now rewrite lookup_insert_ne.
      * lia.
Qed.

(** A send on a connected device registers a wait of its own. *)
Lemma send_waiting (dr : driver) (st : state) (c : Z)
  (d : option (list Z)) (s : Z) :
  wf st -> connected st = true ->
  waiting (send dr c d s st).2 c (send dr c d s st).1
  /\ responseCallbacks (send dr c d s st).2 !! c
     = Some (mkCallback (send dr c d s st).1 (send dr c d s st).1).
Proof.
  intros [Wcb Wtm] Hconn.
  assert (Hreg : forall b : bool,
    waiting (mkState (<[c := mkCallback (nextId st) (nextId st)]>
                        (responseCallbacks st))
                     (if b then {[c]} ∪ silentCommands st
                      else silentCommands st)
                     (<[nextId st := mkTimer c (nextId st) b]> (timers st))
                     (<[nextId st := Pending]> (promises st))
                     (S (nextId st)) (buffer st)
                     (written st ++ [makeDataFrame c d s]) (connected st))
            c (nextId st)).
  { intros b. repeat split; cbn.
    - exists b. apply lookup_insert_eq.
    - apply lookup_insert_eq.
    - lia.
    - intros k cb Hk Hcbp. destruct (decide (c = k)) as [<- | Hk']; [easy |].
      rewrite lookup_insert_ne in Hk by assumption.
      apply Wcb in Hk. lia.
    - intros id t Hid Ht'.
      destruct (decide (nextId st = id)) as [<- | Hk']; [easy |].
      rewrite lookup_insert_ne in Hid by assumption.
      apply Wtm in Hid. lia. }
  destruct dr as [| silent]; cbn.
  - split; [| apply lookup_insert_eq].
    destruct (Hreg false) as (? & ? & ? & ? & ?). now repeat split.
  - unfold sendCmd. rewrite Hconn. cbn. split; [| apply lookup_insert_eq].
    destruct (Hreg true) as (? & ? & ? & ? & ?).
    destruct (Hreg false) as (? & ? & ? & ? & ?).
    destruct silent; now repeat split.
Qed.

Lemma waiting_act (a : action) (st : state) (c : Z) (p : nat) :
  waiting st c p -> quiet c p a st -> waiting (act a st) c p.
Proof.
  intros Hw Hq. destruct a as [c' d s | c' d s silent | id | chunk]; cbn.
  - apply (waiting_send Extension); exact Hw.
  - apply (waiting_send (MainPage silent)); exact Hw.
  - now apply waiting_fireTimeout.
  - now apply waiting_onData.
Qed.

Lemma waiting_run (l : list action) (st : state) (c : Z) (p : nat) :
  waiting st c p -> quiet_run c p l st -> waiting (run l st) c p.
Proof.
  revert st. induction l as [| a l IH]; intros st Hw Hq; [exact Hw |].
  destruct Hq as [Ha Hl]. cbn. apply IH; [| exact Hl].
  now apply waiting_act.
Qed.

(** Nothing an action does disconnects the device. *)
Lemma handleResponse_connected (f : Frame) (st : state) :
  connected (handleResponse f st) = connected st.
Proof. unfold handleResponse. now destruct (_ !! _). Qed.

Lemma frames_connected (fs : list Frame) (st : state) :
  connected (fold_left (fun s f => handleResponse f s) fs st) = connected st.
Proof.
  revert st. induction fs as [| f fs IH]; intros st; [reflexivity |].
  cbn. now rewrite IH, handleResponse_connected.
Qed.

Lemma act_connected (a : action) (st : state) :
  connected (act a st) = connected st.
Proof.
  destruct a as [c' d s | c' d s silent | id | chunk]; cbn.
  - reflexivity.
  - apply (send_nextId (MainPage silent)).
  - unfold fireTimeout. now destruct (_ !! _).
  - unfold onData. now rewrite frames_connected.
Qed.

Lemma run_connected (l : list action) (st : state) :
  connected (run l st) = connected st.
Proof.
  revert st. induction l as [| a l IH]; intros st; [reflexivity |].
  cbn. now rewrite IH, act_connected.
Qed.

(** Reachable states have well-founded identities. *)
Lemma wf_init : wf init.
Proof.
  split; intros ? ? H; cbn in H; rewrite lookup_empty in H; discriminate.
Qed.

Lemma wf_send (dr : driver) (c : Z) (d : option (list Z)) (s : Z)
  (st : state) : wf st -> wf (send dr c d s st).2.
Proof.
  intros [Wcb Wtm].
  assert (Hreg : forall (b : bool) sil w,
    wf (mkState (<[c := mkCallback (nextId st) (nextId st)]>
                   (responseCallbacks st)) sil
                (<[nextId st := mkTimer c (nextId st) b]> (timers st))
                (<[nextId st := Pending]> (promises st))
                (S (nextId st)) (buffer st) w (connected st))).
  { intros b sil w. split; cbn.
    - intros k cb Hk. destruct (decide (c = k)) as [<- | Hk'].
      + rewrite lookup_insert_eq in Hk. injection Hk as <-. cbn. lia.
      + rewrite lookup_insert_ne in Hk by assumption. apply Wcb in Hk. lia.
    - intros id t Hid. destruct (decide (nextId st = id)) as [<- | Hk'].
      + rewrite lookup_insert_eq in Hid. injection Hid as <-. cbn. lia.
      + rewrite lookup_insert_ne in Hid by assumption. apply Wtm in Hid. lia. }
  destruct dr as [| silent]; cbn; [apply Hreg |].
  unfold sendCmd. destruct (connected st); cbn; [apply Hreg |].
  split; cbn.
  - intros k cb Hk. apply Wcb in Hk. lia.
  - intros id t Hid. apply Wtm in Hid. lia.
Qed.

Lemma wf_fireTimeout (id : nat) (st : state) : wf st -> wf (fireTimeout id st).
Proof.
  intros [Wcb Wtm]. unfold fireTimeout.
  destruct (timers st !! id) as [t |]; [| now split].
  split; cbn.
  - intros k cb Hk. apply lookup_delete_Some in Hk as [_ Hk]. eauto.
  - intros id' t' Hid. apply lookup_delete_Some in Hid as [_ Hid]. eauto.
Qed.

Lemma wf_handleResponse (f : Frame) (st : state) :
  wf st -> wf (handleResponse f st).
Proof.
  intros [Wcb Wtm]. unfold handleResponse.
  destruct (responseCallbacks st !! cmd f) as [cb |]; [| now split].
  split; cbn.
  - intros k cb' Hk. apply lookup_delete_Some in Hk as [_ Hk]. eauto.
  - intros id' t' Hid. apply lookup_delete_Some in Hid as [_ Hid]. eauto.
Qed.

Lemma wf_frames (fs : list Frame) (st : state) :
  wf st -> wf (fold_left (fun s f => handleResponse f s) fs st).
Proof.
  revert st. induction fs as [| f fs IH]; intros st Hwf; [exact Hwf |].
  cbn. apply IH. now apply wf_handleResponse.
Qed.

Lemma wf_act (a : action) (st : state) : wf st -> wf (act a st).
Proof.
  intros Hwf. destruct a as [c' d s | c' d s silent | id | chunk]; cbn.
  - now apply (wf_send Extension).
  - now apply (wf_send (MainPage silent)).
  - now apply wf_fireTimeout.
  - unfold onData. apply wf_frames. exact Hwf.
Qed.

Lemma wf_run (l : list action) (st : state) : wf st -> wf (run l st).
Proof.
  revert st. induction l as [| a l IH]; intros st Hwf; [exact Hwf |].
  cbn. apply IH. now apply wf_act.
Qed.

(** What a send on a connected device leaves behind. *)
Lemma send_connected (dr : driver) (st : state) (c : Z)
  (d : option (list Z)) (s : Z) :
  connected st = true ->
  (send dr c d s st).1 = nextId st
  /\ responseCallbacks (send dr c d s st).2
     = <[c := mkCallback (nextId st) (nextId st)]> (responseCallbacks st)
  /\ promises (send dr c d s st).2 = <[nextId st := Pending]> (promises st).
Proof.
  intros Hconn. destruct dr as [| silent]; cbn; [easy |].
  unfold sendCmd. now rewrite Hconn.
Qed.

(** C8. Time-out cleanup and independence, in both drivers: a send of
    command [c] on a connected device whose timer elapses before any frame
    for [c] arrives (whatever else happens meanwhile) gets its promise
    rejected with the time-out error and the entry of [c] deleted; a frame
    for [c] arriving afterwards changes nothing; a later send of [c]
    registers its own callback with a pending promise, and the next frame
    for [c] resolves that promise with this frame, the first promise
    staying rejected. *)
Theorem timeout_cleanup_and_independence (dr dr' : driver) (st : state)
  (c : Z) (d d' : option (list Z)) (s s' : Z) (others : list action)
  (response : Frame) :
  wf st -> connected st = true ->
  let p1 := (send dr c d s st).1 in
  let st1 := (send dr c d s st).2 in
  quiet_run c p1 others st1 ->
  cmd response = c ->
  let st2 := fireTimeout p1 (run others st1) in
  let p2 := (send dr' c d' s' st2).1 in
  let st3 := (send dr' c d' s' st2).2 in
  promises (run others st1) !! p1 = Some Pending
  /\ promises st2 !! p1 = Some (Rejected timeout_message)
  /\ responseCallbacks st2 !! c = None
  /\ handleResponse response st2 = st2
  /\ responseCallbacks st3 !! c = Some (mkCallback p2 p2)
  /\ promises st3 !! p2 = Some Pending
  /\ promises (handleResponse response st3) !! p2 = Some (Resolved response)
  /\ promises (handleResponse response st3) !! p1
     = Some (Rejected timeout_message)
  /\ responseCallbacks (handleResponse response st3) !! c = None.
Proof.
  intros Hwf Hconn p1 st1 Hquiet Hresp st2 p2 st3.
  destruct (send_waiting dr st c d s Hwf Hconn) as [Hw1 _].
  fold p1 st1 in Hw1.
  pose proof (waiting_run others st1 c p1 Hw1 Hquiet)
    as ([b Htm] & Hpend & Hlt & _ & _).
  assert (Hconn2 : connected st2 = true).
  { subst st2. unfold fireTimeout. rewrite Htm. cbn.
    rewrite run_connected. subst st1.
    now rewrite (proj2 (proj2 (send_nextId dr c d s st))). }
  assert (Hn2 : nextId st2 = nextId (run others st1)).
  { subst st2. unfold fireTimeout. now rewrite Htm. }
  assert (Hrej : promises st2 !! p1 = Some (Rejected timeout_message)).
  { subst st2. unfold fireTimeout. rewrite Htm. cbn.
    now apply settle_lookup_eq. }
  assert (Hgone : responseCallbacks st2 !! c = None).
  { subst st2. unfold fireTimeout. rewrite Htm. cbn. apply lookup_delete_eq. }
  destruct (send_connected dr' st2 c d' s' Hconn2) as (Ep2 & Ecb & Eps).
  fold p2 in Ep2. fold st3 in Ecb, Eps.
  assert (Hcb3 : responseCallbacks st3 !! c = Some (mkCallback p2 p2)).
  { rewrite Ecb, Ep2. apply lookup_insert_eq. }
  assert (Hne : p2 <> p1) by lia.
  refine (conj Hpend (conj Hrej (conj Hgone (conj _ (conj Hcb3 _))))).
  - unfold handleResponse. now rewrite Hresp, Hgone.
  - assert (Hp3 : promises st3 !! p2 = Some Pending).
    { rewrite Eps, Ep2. apply lookup_insert_eq. }
    split; [exact Hp3 |].
    unfold handleResponse. rewrite Hresp, Hcb3. cbn.
    split; [now apply settle_lookup_eq |].
    split; [| apply lookup_delete_eq].
    rewrite settle_lookup_ne by assumption.
    rewrite Eps, lookup_insert_ne by lia. exact Hrej.
Qed.

Lemma timeout_cleanup_and_independence_witness :
  let response := mkFrame 1025 0x68 [1; 2; 3] in
  let others := [ASendCommand 1018 None 0; AData [0x11; 0x42]] in
  let p1 := (send Extension 1025 None 0 init).1 in
  let st1 := (send Extension 1025 None 0 init).2 in
  let st2 := fireTimeout p1 (run others st1) in
  let p2 := (send Extension 1025 None 0 st2).1 in
  let st3 := (send Extension 1025 None 0 st2).2 in
  promises (run others st1) !! p1 = Some Pending
  /\ promises st2 !! p1 = Some (Rejected timeout_message)
  /\ responseCallbacks st2 !! 1025 = None
  /\ handleResponse response st2 = st2
  /\ responseCallbacks st3 !! 1025 = Some (mkCallback p2 p2)
  /\ promises st3 !! p2 = Some Pending
  /\ promises (handleResponse response st3) !! p2 = Some (Resolved response)
  /\ promises (handleResponse response st3) !! p1
     = Some (Rejected timeout_message)
  /\ responseCallbacks (handleResponse response st3) !! 1025 = None.
Proof.
  apply (timeout_cleanup_and_independence Extension Extension init 1025
           None None 0 0
           [ASendCommand 1018 None 0; AData [0x11; 0x42]]
           (mkFrame 1025 0x68 [1; 2; 3])).
  - exact wf_init.
  - reflexivity.
  - cbn. repeat split. vm_compute. constructor.
  - reflexivity.
Defined.

End ChannelFacts.

(** ** Loops of the scripts *)

Module ExecFacts.
Import Exec.

(** The length [range_by] allows never cuts a loop short: with a positive
    stride any larger allowance lists the same indices. *)
Lemma range_from_enough (n m : nat) (i stop stride : Z) :
  1 <= stride ->
  (Z.to_nat (stop - i) <= n)%nat -> (Z.to_nat (stop - i) <= m)%nat ->
  range_from n i stop stride = range_from m i stop stride.
Proof.
  intros Hstride. revert m i.
  induction n as [| n IH]; intros m i Hn Hm.
  - destruct m as [| m]; [reflexivity |]. cbn.
    destruct (Z.ltb_spec i stop); [lia | reflexivity].
  - destruct m as [| m]; cbn.
    + destruct (Z.ltb_spec i stop); [lia | reflexivity].
    + destruct (Z.ltb_spec i stop); [| reflexivity].
      f_equal. apply IH; lia.
Qed.

(** The indices are the multiples of the stride below the bound. *)
Lemma range_from_spec (n : nat) (i stop stride x : Z) :
  1 <= stride -> (Z.to_nat (stop - i) <= n)%nat ->
  In x (range_from n i stop stride)
  <-> exists k, 0 <= k /\ x = i + k * stride /\ x < stop.
Proof.
  intros Hstride. revert i.
  induction n as [| n IH]; intros i Hn; cbn.
  - split; [intros [] | intros (k & Hk & -> & Hlt); nia].
  - destruct (Z.ltb_spec i stop) as [Hlt | Hge].
    + cbn. rewrite IH by lia. split.
      * intros [<- | (k & Hk & -> & Hx)].
        -- exists 0. lia.
        -- exists (k + 1). lia.
      * intros (k & Hk & -> & Hx).
        destruct (Z.eq_dec k 0) as [-> | Hne]; [left; lia |].
        right. exists (k - 1). lia.
    + split; [intros [] | intros (k & Hk & -> & Hx); nia].
Qed.

End ExecFacts.

(** ** The device session *)

Module SessionFacts.
Import JS Codec Exec Session JSFacts CodecFacts.

Lemma u8_is_byte (z : Z) : byte_ok (u8 z).
Proof. unfold u8, byte_ok. pose proof (Z.mod_pos_bound z 256). lia. Qed.

Section ReadLoop.
Context {D : Type}.
Variable device_cmd : device D.
Variables command total unit : Z.
Variable failure : Z -> Z -> Z -> message.
Hypothesis Hdev : answers_reads device_cmd command unit.

(** With such a device the read loop visits every index, appends every
    answer and touches neither the console nor the files. *)
Lemma forEach_readChunk_ok (indices : list Z) (acc : list Z)
  (w : world D message) :
  exists rs w',
    forEach indices acc (readChunk device_cmd command total failure) w
    = (w', Normal (acc ++ concat (map data rs)))
    /\ trace w'
       = trace w ++
         zip_with (fun i r =>
                     (mkRequest command
                        (Some [u8 i; u8 (Z.min 32 (total - i))]),
                      Response r)) indices rs
    /\ console w' = console w /\ files w' = files w
    /\ Forall2 (fun i r => len (data r) = u8 (Z.min 32 (total - i)) * unit
                           /\ Forall byte_ok (data r)) indices rs.
Proof.
  revert acc w. induction indices as [| i indices IH]; intros acc w.
  - exists [], w. cbn. rewrite !app_nil_r. repeat split. constructor.
  - destruct (Hdev (dev w) (u8 i) (u8 (Z.min 32 (total - i)))
                (u8_is_byte _) (u8_is_byte _))
      as (d' & r & Hr & Hs & Hl & Hb).
    set (w1 := mkWorld d'
                 (trace w ++ [(mkRequest command
                                 (Some [u8 i; u8 (Z.min 32 (total - i))]),
                               Response r)])
                 (console w) (files w)).
    destruct (IH (acc ++ data r) w1) as (rs & w' & Hrun & Ht & Hc & Hf & Hall).
    exists (r :: rs), w'. cbn [forEach].
    unfold bind at 1, readChunk at 1, bind at 1, cmd_ at 1.
    rewrite Hr. fold w1. rewrite Hs. cbn [negb]. rewrite Z.eqb_refl.
    cbn [negb]. unfold ret at 1. rewrite Hrun.
    repeat split.
    + cbn [map concat]. now rewrite app_assoc.
    + rewrite Ht. cbn [zip_with]. subst w1. cbn [trace].
      now rewrite <- app_assoc.
    + now rewrite Hc.
    + now rewrite Hf.
    + constructor; [split |]; assumption.
Qed.

End ReadLoop.




(** *** A failed chunk stops the transfer *)

Section Careful.
Context {D : Type}.
Variable device_cmd : device D.

Abbreviation M := (Exec.M D message).

Lemma careful_weaken {A} (m : M A) : careful true m -> careful false m.
Proof.
  intros H w. destruct (H w) as (new & Ht & _ & Hcases).
  exists new. split; [exact Ht |]. split; [discriminate | exact Hcases].
Qed.

(** Steps that issue no command and write no file. *)
Lemma careful_silent {A} (strict : bool) (m : M A) :
  (forall w, trace (m w).1 = trace w /\ files (m w).1 = files w) ->
  careful strict m.
Proof.
  intros H w. destruct (H w) as [Ht Hf]. exists [].
  rewrite app_nil_r. split; [exact Ht |]. split; [now intros _ |].
  left. constructor.
Qed.

Lemma careful_ret {A} (strict : bool) (a : A) : careful strict (ret a : M A).
Proof. now apply careful_silent. Qed.

Lemma careful_return {A} (strict : bool) : careful strict (return_ : M A).
Proof. now apply careful_silent. Qed.

Lemma careful_throw {A} (strict : bool) (e : string) :
  careful strict (throw e : M A).
Proof. now apply careful_silent. Qed.

Lemma careful_log (strict : bool) (isError : bool) (msg : message) :
  careful strict (log isError msg : M unit).
Proof. now apply careful_silent. Qed.

(** A command that is not a chunk transfer. *)
Lemma careful_cmd (strict : bool) (c : Z) (payload : option (list Z)) :
  is_chunk_cmd c = false -> careful strict (cmd_ device_cmd c payload).
Proof.
  intros Hc w. unfold cmd_.
  destruct (device_cmd (dev w) c payload) as [d' o].
  exists [(mkRequest c payload, o)].
  assert (Hclean : no_failed_chunk [(mkRequest c payload, o)]).
  { constructor; [| constructor].
    intros [Hchunk _]. cbn in Hchunk. congruence. }
  destruct o; cbn; (split; [reflexivity |]); (split; [now intros _ |]);
    now left.
Qed.

Lemma no_failed_chunk_app (l1 l2 : list (request * outcome)) :
  no_failed_chunk l1 -> no_failed_chunk l2 -> no_failed_chunk (l1 ++ l2).
Proof. intros H1 H2. apply Forall_app. now split. Qed.

(** Sequencing: what follows a careful step only runs when that step met
    no failed chunk. *)
Lemma careful_bind {A B} (strict : bool) (m : M A) (k : A -> M B) :
  careful true m -> (forall a, careful strict (k a)) ->
  careful strict (bind m k).
Proof.
  intros Hm Hk w. unfold bind.
  destruct (Hm w) as (new1 & Ht1 & Hf1 & Hcases1).
  destruct (m w) as [w1 [a | | e]] eqn:Hmw; cbn [fst snd] in *.
  - destruct Hcases1 as [Hclean1 | (pre & e & msg & _ & _ & _ & Habs & _)];
      [| discriminate].
    destruct (Hk a w1) as (new2 & Ht2 & Hf2 & Hcases2).
    exists (new1 ++ new2). split; [now rewrite Ht2, Ht1, app_assoc |].
    split; [intros Hs; now rewrite Hf2, Hf1 |].
    destruct Hcases2
      as [Hclean2 | (pre & e & msg & -> & Hpre & He & Hc & Hf & Hl)].
    + left. now apply no_failed_chunk_app.
    + right. exists (new1 ++ pre), e, msg.
      split; [now rewrite app_assoc |].
      split; [now apply no_failed_chunk_app |].
      now rewrite Hf, Hf1.
  - exists new1. split; [exact Ht1 |]. split; [now intros _; apply Hf1 |].
    destruct Hcases1 as [Hclean1 | (pre & e & msg & H)]; [now left |].
    right. now exists pre, e, msg.
  - exists new1. split; [exact Ht1 |]. split; [now intros _; apply Hf1 |].
    destruct Hcases1 as [Hclean1 | (pre & e' & msg & _ & _ & _ & Habs & _)];
      [now left | discriminate].
Qed.

Lemma careful_forEach {A} (body : Z -> A -> M A) (indices : list Z) (acc : A) :
  (forall i a, careful true (body i a)) ->
  careful true (forEach indices acc body).
Proof.
  intros Hbody. revert acc.
  induction indices as [| i indices IH]; intros acc; cbn [forEach].
  - apply careful_ret.
  - apply careful_bind; [apply Hbody | intros a; apply IH].
Qed.

(** One chunk request: a status other than [0x68] logs the error line and
    returns. *)
Lemma careful_chunk {A} (c : Z) (payload : option (list Z))
  (failure : Z -> message) (k : Frame -> M A) :
  is_chunk_cmd c = true -> (forall s, chunk_error (failure s)) ->
  (forall r, careful true (k r)) ->
  careful true
    (bind (cmd_ device_cmd c payload)
       (fun r => if negb (status r =? SUCCESS)
                 then bind (log true (failure (status r))) (fun _ => return_)
                 else k r)).
Proof.
  intros Hc Hfail Hk w.
  match goal with |- stops_at_failed_chunk _ _ (?m w).1 _ => set (run := m) end.
  assert (Hrun : run w =
    match device_cmd (dev w) c payload with
    | (d', Response r) =>
      let w1 := mkWorld d' (trace w ++ [(mkRequest c payload, Response r)])
                        (console w) (files w) in
      if negb (status r =? SUCCESS)
      then (mkWorld d' (trace w1)
                    (console w ++ [(true, failure (status r))]) (files w),
            Returned)
      else k r w1
    | (d', Throws e) =>
      (mkWorld d' (trace w ++ [(mkRequest c payload, Throws e)])
               (console w) (files w), Thrown e)
    end).
  { subst run. unfold bind, cmd_, log, return_.
    destruct (device_cmd (dev w) c payload) as [d' [r | e]]; [| reflexivity].
    cbv zeta. now destruct (negb (status r =? SUCCESS)). }
  rewrite Hrun. clear Hrun run.
  destruct (device_cmd (dev w) c payload) as [d' [r | e]].
  - cbv zeta.
    destruct (Z.eqb_spec (status r) SUCCESS) as [Hs | Hs]; cbn [negb].
    + set (w1 := mkWorld d' (trace w ++ [(mkRequest c payload, Response r)])
                         (console w) (files w)).
      destruct (Hk r w1) as (new & Ht & Hf & Hcases).
      exists ((mkRequest c payload, Response r) :: new).
      split; [rewrite Ht; subst w1; cbn; now rewrite <- app_assoc |].
      split; [intros _; now rewrite Hf |].
      assert (Hok : ~ failed_chunk (mkRequest c payload, Response r)).
      { intros (_ & r' & [= <-] & Hne). now apply Hne. }
      destruct Hcases as [Hclean | (pre & e & msg & -> & Hpre & He & Hrest)].
      * left. now constructor.
      * right. exists ((mkRequest c payload, Response r) :: pre), e, msg.
        split; [reflexivity |]. split; [now constructor |].
        destruct Hrest as (Hret & Hfw & Hlast). rewrite Hfw.
        exact (conj He (conj Hret (conj eq_refl Hlast))).
    + exists [(mkRequest c payload, Response r)]. cbn.
      split; [reflexivity |]. split; [now intros _ |].
      right. exists [], (mkRequest c payload, Response r), (failure (status r)).
      split; [reflexivity |]. split; [constructor |].
      split; [split; [exact Hc | now exists r] |].
      split; [reflexivity |]. split; [reflexivity |].
      split; [apply last_snoc | apply Hfail].
  - exists [(mkRequest c payload, Throws e)]. cbn.
    split; [reflexivity |]. split; [now intros _ |].
    left. constructor; [| constructor].
    intros (_ & r & Habs & _). discriminate.
Qed.

End Careful.

Ltac careful_step :=
  match goal with
  | |- careful _ (Exec.bind _ _) => apply careful_bind; [| intros ?]
  | |- careful _ (Exec.ret _) => apply careful_ret
  | |- careful _ Exec.return_ => apply careful_return
  | |- careful _ (Exec.throw _) => apply careful_throw
  | |- careful _ (Exec.log _ _) => apply careful_log
  | |- careful _ (Exec.cmd_ _ _ _) => apply careful_cmd; reflexivity
  | |- careful _ (if ?b then _ else _) => destruct b
  | |- careful _ (match ?x with _ => _ end) => destruct x
  end.

Section Commands.
Context {D : Type}.
Variable device_cmd : device D.
Variable fs_write : string -> list Z -> option bool.
Variable fs_read : string -> option (option (list Z)).
Variable makeFilePath : string -> frequency -> Z -> string.

Lemma careful_readChunk (command total : Z)
  (failure : Z -> Z -> Z -> message) (index : Z) (allData : list Z) :
  is_chunk_cmd command = true ->
  (forall a b s, chunk_error (failure a b s)) ->
  careful true (readChunk device_cmd command total failure index allData).
Proof.
  intros Hc Hf. unfold readChunk. cbv zeta.
  apply (careful_chunk device_cmd command _
           (fun s => failure index (index + Z.min 32 (total - index) - 1) s)
           (fun r => ret (allData ++ data r))); [exact Hc | | ].
  - intros s. apply Hf.
  - intros r. apply careful_ret.
Qed.

Lemma careful_readTagData (freq : frequency) (tagType : Z) :
  careful true (readTagData device_cmd freq tagType).
Proof.
  unfold readTagData, readLoop. cbv zeta.
  destruct freq.
  - destruct ((1100 <=? tagType) && (tagType <=? 1108)).
    + apply careful_bind; [| intros ?; apply careful_ret].
      apply careful_forEach. intros i a.
      now apply careful_readChunk.
    + destruct ((1000 <=? tagType) && (tagType <=? 1003)).
      * apply careful_bind; [| intros ?; apply careful_ret].
        apply careful_forEach. intros i a.
        now apply careful_readChunk.
      * repeat careful_step.
  - destruct ((tagType =? 100) || (100 <=? tagType) && (tagType <=? 103));
      repeat careful_step.
  - apply careful_ret.
Qed.

Lemma careful_currentSlotOr (slotArg : option Z) :
  careful true (currentSlotOr device_cmd slotArg).
Proof. unfold currentSlotOr. repeat careful_step. Qed.

Lemma careful_switchToSlot (slotNum : option Z) :
  careful true (switchToSlot device_cmd slotNum).
Proof. unfold switchToSlot. repeat careful_step. Qed.

(** A block that only logs what it catches. *)
Lemma careful_try_catch_log (strict : bool) (body : Exec.M D message unit)
  (caught : string -> message) :
  careful strict body ->
  careful strict (try_catch body (fun err => log true (caught err))).
Proof.
  intros Hbody w. unfold try_catch, try_catch_finally, ret, log.
  destruct (Hbody w) as (new & Ht & Hf & Hcases).
  destruct (body w) as [w1 [[] | | e]]; cbn [fst snd] in *.
  - exists new. now repeat split.
  - exists new. now repeat split.
  - exists new. split; [exact Ht |]. split; [exact Hf |].
    destruct Hcases as [Hclean | (pre & e' & msg & _ & _ & _ & Habs & _)];
      [now left | discriminate].
Qed.

(** The last step of [slot save] issues no command. *)
Lemma careful_quiet {A} (m : Exec.M D message A) :
  (forall w, trace (m w).1 = trace w) -> careful false m.
Proof.
  intros H w. exists []. rewrite app_nil_r.
  split; [apply H |]. split; [discriminate |]. left. constructor.
Qed.

Lemma careful_slotSave (slotArg : option Z) (freq : frequency)
  (userPath : string) :
  careful false
    (slotSave device_cmd fs_write makeFilePath slotArg freq userPath).
Proof.
  assert (Hbody : careful false
            (slotSaveBody device_cmd fs_write makeFilePath slotArg freq
                          userPath)).
  { unfold slotSaveBody. cbv zeta.
    apply careful_bind; [apply careful_currentSlotOr | intros slotNum].
    apply careful_bind; [repeat careful_step | intros slotInfo].
    destruct (negb (status slotInfo =? SUCCESS)); [repeat careful_step |].
    match goal with |- careful _ (if ?b then _ else _) => destruct b end;
      [repeat careful_step |].
    apply careful_bind; [apply careful_log | intros _].
    apply careful_bind; [apply careful_switchToSlot | intros _].
    apply careful_bind; [apply careful_readTagData | intros fileData].
    apply careful_quiet. intros w. unfold bind, writeFile_, log.
    destruct (fs_write _ _) as [[|] |]; reflexivity. }
  unfold slotSave. destruct freq.
  - now apply careful_try_catch_log.
  - now apply careful_try_catch_log.
  - repeat careful_step.
Qed.

Lemma careful_writePageBatch (fileData : list Z) (totalPages pageIndex : Z)
  (u : unit) :
  careful true (writePageBatch device_cmd fileData totalPages pageIndex u).
Proof.
  unfold writePageBatch. cbv zeta.
  apply (careful_chunk device_cmd CMD_MF0_NTAG_WRITE_EMU_PAGE_DATA _
           (fun s => ErrorWritingPages pageIndex
                       (pageIndex + Z.min 32 (totalPages - pageIndex) - 1) s)
           (fun _ => ret tt)); [reflexivity | easy |].
  intros r. apply careful_ret.
Qed.

Lemma careful_writeBlockBatch (fileData : list Z) (totalBlocks blockIndex : Z)
  (u : unit) :
  careful true (writeBlockBatch device_cmd fileData totalBlocks blockIndex u).
Proof.
  unfold writeBlockBatch. cbv zeta.
  apply (careful_chunk device_cmd CMD_MF1_WRITE_EMU_BLOCK_DATA _
           (fun s => ErrorWritingBlocks blockIndex
                       (blockIndex + Z.min 32 (totalBlocks - blockIndex) - 1) s)
           (fun _ => ret tt)); [reflexivity | easy |].
  intros r. apply careful_ret.
Qed.

Lemma careful_writeTagData (freq : frequency) (tagTypeValue : Z)
  (fileData : list Z) :
  careful true (writeTagData device_cmd freq tagTypeValue fileData).
Proof.
  unfold writeTagData, writePages, writeBlocks. cbv zeta.
  destruct freq.
  - destruct ((1100 <=? tagTypeValue) && (tagTypeValue <=? 1108)).
    + apply careful_bind; [apply careful_log | intros _].
      apply careful_bind; [| intros ?; apply careful_log].
      apply careful_forEach. intros i a. apply careful_writePageBatch.
    + destruct ((1000 <=? tagTypeValue) && (tagTypeValue <=? 1003)).
      * apply careful_bind; [apply careful_log | intros _].
        apply careful_bind; [| intros ?; apply careful_log].
        apply careful_forEach. intros i a. apply careful_writeBlockBatch.
      * apply careful_ret.
  - destruct (tagTypeValue =? 100); [| repeat careful_step].
    destruct (len fileData <? 5); repeat careful_step.
  - apply careful_ret.
Qed.

Lemma careful_slotLoad (saveToFlash : bool) (slotArg : option Z)
  (freq : frequency) (tagTypeValue : Z) (filePath : string) :
  careful true
    (slotLoad device_cmd fs_read saveToFlash slotArg freq tagTypeValue
              filePath).
Proof.
  assert (Hbody : careful true
            (slotLoadBody device_cmd fs_read saveToFlash slotArg freq
                          tagTypeValue filePath)).
  { unfold slotLoadBody. cbv zeta.
    destruct (fs_read filePath) as [[fileData |] |]; [| repeat careful_step ..].
    apply careful_bind; [apply careful_log | intros _].
    apply careful_bind; [apply careful_currentSlotOr | intros slotNum].
    apply careful_bind; [apply careful_switchToSlot | intros _].
    apply careful_bind; [apply careful_log | intros _].
    apply careful_bind; [repeat careful_step | intros setTypeResult].
    destruct (negb (status setTypeResult =? SUCCESS)); [repeat careful_step |].
    apply careful_bind; [apply careful_writeTagData | intros _].
    repeat careful_step. }
  unfold slotLoad.
  destruct (bool_decide (freq = hf) && (tagTypeValue <? 1000));
    [repeat careful_step |].
  destruct (bool_decide (freq = lf) && (1000 <=? tagTypeValue));
    [repeat careful_step |].
  now apply careful_try_catch_log.
Qed.

(** What a careful run says about a failed chunk found in its trace. *)
Lemma stops_at_failed_chunk_inv {A} (strict : bool) (w w' : world D message)
  (c : completion A) (new : list (request * outcome)) (e : request * outcome) :
  stops_at_failed_chunk strict w w' c ->
  trace w' = trace w ++ new -> In e new -> failed_chunk e ->
  (exists pre, new = pre ++ [e] /\ no_failed_chunk pre)
  /\ c = Returned /\ files w' = files w
  /\ exists msg, last (console w') = Some (true, msg) /\ chunk_error msg.
Proof.
  intros (new' & Ht & _ & Hcases) Hnew Hin He.
  rewrite Ht in Hnew. apply app_inv_head in Hnew. subst new'.
  destruct Hcases
    as [Hclean | (pre & e' & msg & -> & Hpre & He' & Hc & Hf & Hl)].
  - exfalso. unfold no_failed_chunk in Hclean.
    rewrite Forall_forall in Hclean.
    apply (Hclean e); [now apply list_elem_of_In | exact He].
  - apply in_app_or in Hin as [Hin | [<- | []]].
    + exfalso. unfold no_failed_chunk in Hpre. rewrite Forall_forall in Hpre.
      apply (Hpre e); [now apply list_elem_of_In | exact He].
    + split; [now exists pre |]. split; [exact Hc |]. split; [exact Hf |].
      now exists msg.
Qed.

End Commands.

(** C7, as the code has it. Bulk-transfer failure: in the chunked reads of
    [slot save] and the chunked writes of [slot loadram/loadflash], a chunk
    answered with a status other than 0x68 is the last command the
    operation issues (no further chunk request, no save to flash), no file
    is written, the error line of that chunk is the last console line, and
    the operation ends by an early [return], not by a thrown error. *)
Theorem chunk_failure_stops_transfer {D} (device_cmd : device D)
  (fs_write : string -> list Z -> option bool)
  (fs_read : string -> option (option (list Z)))
  (makeFilePath : string -> frequency -> Z -> string)
  (w : world D message) (new : list (request * outcome))
  (e : request * outcome) :
  In e new -> failed_chunk e ->
  (forall slotArg freq userPath,
     let r :=
       slotSave device_cmd fs_write makeFilePath slotArg freq userPath w in
     trace r.1 = trace w ++ new ->
     (exists pre, new = pre ++ [e] /\ no_failed_chunk pre)
     /\ r.2 = Returned /\ files r.1 = files w
     /\ exists msg, last (console r.1) = Some (true, msg) /\ chunk_error msg)
  /\ (forall saveToFlash slotArg freq tagTypeValue filePath,
        let r := slotLoad device_cmd fs_read saveToFlash slotArg freq
                          tagTypeValue filePath w in
        trace r.1 = trace w ++ new ->
        (exists pre, new = pre ++ [e] /\ no_failed_chunk pre)
        /\ r.2 = Returned /\ files r.1 = files w
        /\ exists msg,
             last (console r.1) = Some (true, msg) /\ chunk_error msg).
Proof.
  intros Hin He. split.
  - intros slotArg freq userPath r Ht.
    apply (stops_at_failed_chunk_inv false w r.1 r.2 new e); try assumption.
    apply careful_slotSave.
  - intros saveToFlash slotArg freq tagTypeValue filePath r Ht.
    apply (stops_at_failed_chunk_inv true w r.1 r.2 new e); try assumption.
    apply careful_slotLoad.
Qed.

Lemma chunk_failure_stops_transfer_witness :
  let w0 : world nat message := fresh_world 0%nat in
  let r := slotSave flaky no_files dump_name (Some 0) hf "" w0 in
  let e := (pageRead 32 32, Response (mkFrame 4021 0x60 [])) in
  In e (trace r.1) /\ failed_chunk e
  /\ (exists pre, trace r.1 = pre ++ [e] /\ no_failed_chunk pre)
  /\ r.2 = Returned /\ files r.1 = files w0
  /\ exists msg, last (console r.1) = Some (true, msg) /\ chunk_error msg.
Proof.
  intros w0 r e.
  assert (Hin : In e (trace r.1)) by (vm_compute; tauto).
  assert (He : failed_chunk e).
  { split; [reflexivity |]. eexists. split; [reflexivity |]. discriminate. }
  split; [exact Hin |]. split; [exact He |].
  apply (proj1 (chunk_failure_stops_transfer flaky no_files (fun _ => None)
                  dump_name w0 (trace r.1) e Hin He) (Some 0) hf ""%string).
  reflexivity.
Defined.

(** C7, as stated, fails: when the second page read of [slot save] is
    answered with status 0x60, the [try] block ends by [return] after the
    error line; nothing is thrown and the [catch] clause never runs. *)
Lemma chunk_failure_counterexample :
  let w0 : world nat message := fresh_world 0%nat in
  let body := slotSaveBody flaky no_files dump_name (Some 0) hf "" w0 in
  let r := slotSave flaky no_files dump_name (Some 0) hf "" w0 in
  last (trace body.1) = Some (pageRead 32 32, Response (mkFrame 4021 0x60 []))
  /\ body.2 = Returned
  /\ ~ (exists message, body.2 = Thrown message)
  /\ r.2 = Returned
  /\ console r.1 = [(false, ReadingData 1101);
                    (true, ErrorReadingPages 32 63 0x60)].
Proof.
  vm_compute. repeat split. intros [message H]. discriminate.
Qed.

End SessionFacts.

(** ** The scan-and-save script *)

Module ScannerFacts.
Import JS Codec Exec Scanner.

Section Script.
Context {D : Type}.
Variable device_cmd : device D.
Variable fs_write : string -> list Z -> option bool.
Variable makeFileName : list Z -> string.
Variable P : request -> Prop.

Abbreviation M := (Exec.M D message).

Lemma issues_silent {A} (m : M A) :
  (forall w, trace (m w).1 = trace w) -> issues P m.
Proof.
  intros H w. exists []. rewrite app_nil_r. split; [apply H | constructor].
Qed.

Lemma issues_cmd (c : Z) (payload : option (list Z)) :
  P (mkRequest c payload) -> issues P (cmd_ device_cmd c payload).
Proof.
  intros HP w. unfold cmd_.
  destruct (device_cmd (dev w) c payload) as [d' o].
  exists [(mkRequest c payload, o)].
  destruct o; cbn; (split; [reflexivity | now repeat constructor]).
Qed.

Lemma issues_bind {A B} (m : M A) (k : A -> M B) :
  issues P m -> (forall a, issues P (k a)) -> issues P (bind m k).
Proof.
  intros Hm Hk w. unfold bind. destruct (Hm w) as (new1 & Ht1 & Hp1).
  destruct (m w) as [w1 [a | | e]]; cbn [fst snd] in *; [| now exists new1 ..].
  destruct (Hk a w1) as (new2 & Ht2 & Hp2).
  exists (new1 ++ new2). split; [now rewrite Ht2, Ht1, app_assoc |].
  apply Forall_app. now split.
Qed.

Lemma issues_forEach {A} (body : Z -> A -> M A) (indices : list Z) (acc : A) :
  (forall i a, issues P (body i a)) -> issues P (forEach indices acc body).
Proof.
  intros Hbody. revert acc.
  induction indices as [| i indices IH]; intros acc; cbn [forEach].
  - now apply issues_silent.
  - apply issues_bind; [apply Hbody | intros a; apply IH].
Qed.

End Script.

Ltac issues_step :=
  match goal with
  | |- issues _ (Exec.bind _ _) => apply issues_bind; [| intros ?]
  | |- issues _ (Exec.ret _) => now apply issues_silent
  | |- issues _ Exec.return_ => now apply issues_silent
  | |- issues _ (Exec.throw _) => now apply issues_silent
  | |- issues _ (Exec.log _ _) => now apply issues_silent
  | |- issues _ (sleep _) => now apply issues_silent
  | |- issues _ (Exec.cmd_ _ _ _) => apply issues_cmd; discriminate
  | |- issues _ (if ?b then _ else _) => destruct b
  | |- issues _ (match ?x with _ => _ end) => destruct x
  end.

Section Restore.
Context {D : Type}.
Variable device_cmd : device D.
Variable fs_write : string -> list Z -> option bool.
Variable makeFileName : list Z -> string.

Abbreviation not_restore := (fun rq : request => rq <> restore).

Lemma issues_scanLoop (attempts : list Z) (scanResponse : option Frame) :
  issues not_restore (scanLoop device_cmd attempts scanResponse).
Proof.
  revert scanResponse.
  induction attempts as [| attempt rest IH]; intros scanResponse;
    cbn [scanLoop].
  - now apply issues_silent.
  - apply issues_bind; [apply issues_cmd; discriminate | intros r].
    destruct (0 <? len (data r)); [repeat issues_step |].
    apply issues_bind; [repeat issues_step | intros _; apply IH].
Qed.

Lemma issues_readAllPages : issues not_restore (readAllPages device_cmd).
Proof.
  unfold readAllPages. apply issues_forEach. intros page allData. cbv zeta.
  apply issues_bind; [apply issues_cmd; discriminate | intros r].
  repeat issues_step.
Qed.

Lemma issues_writeFile (filename : string) (content : list Z) :
  issues not_restore
    (writeFile_ fs_write filename content : Exec.M D message bool).
Proof.
  apply issues_silent. intros w. unfold writeFile_.
  now destruct (fs_write filename content).
Qed.

(** The [try] block never asks for emulator mode. *)
Lemma issues_scanBody :
  issues not_restore (scanBody device_cmd fs_write makeFileName).
Proof.
  unfold scanBody. cbv zeta.
  apply issues_bind; [now apply issues_silent | intros _].
  apply issues_bind; [apply issues_cmd; discriminate | intros modeResponse].
  destruct (negb (status modeResponse =? 104)); [repeat issues_step |].
  apply issues_bind; [now apply issues_silent | intros _].
  apply issues_bind; [now apply issues_silent | intros _].
  apply issues_bind; [now apply issues_silent | intros _].
  apply issues_bind; [apply issues_scanLoop | intros scanResponse].
  destruct scanResponse as [scanResponse |]; [| now apply issues_silent].
  destruct (len (data scanResponse) =? 0); [repeat issues_step |].
  destruct (at_ (data scanResponse) _) as [sak |]; [| now apply issues_silent].
  apply issues_bind; [now apply issues_silent | intros _].
  apply issues_bind; [repeat issues_step | intros _].
  apply issues_bind; [now apply issues_silent | intros _].
  apply issues_bind; [apply issues_readAllPages | intros allData].
  apply issues_bind; [now apply issues_silent | intros _].
  apply issues_bind; [now apply issues_silent | intros _].
  apply issues_bind; [apply issues_writeFile | intros _].
  repeat issues_step.
Qed.

(** The [finally] block asks for emulator mode once and completes. *)
Lemma restoreEmulatorMode_once (w : world D message) :
  exists o,
    trace (restoreEmulatorMode device_cmd w).1 = trace w ++ [(restore, o)]
    /\ (restoreEmulatorMode device_cmd w).2 = Normal tt.
Proof.
  unfold restoreEmulatorMode, try_catch, try_catch_finally, bind, log, cmd_,
    ret. cbn.
  change (mkRequest CMD_SET_ACTIVE_MODE (Some [u8 0])) with restore.
  destruct (device_cmd (dev w) CMD_SET_ACTIVE_MODE (Some [u8 0]))
    as [d' [r | e]]; cbn; eauto.
Qed.

(** C9. Mode-switch restoration: whatever the device answers, and so on
    every way out of the [try] block of the scan-and-save script (normal
    completion, an error thrown during the scan or the page reads, an early
    return), the command restoring emulator mode, CMD_SET_ACTIVE_MODE with
    payload byte 0, is issued exactly once, after every other command of
    the script, and the script does not end by a throw. *)
Theorem emulator_mode_restored (w : world D message) :
  let r := scanAndSave device_cmd fs_write makeFileName true w in
  exists before o,
    trace r.1 = trace w ++ before ++ [(restore, o)]
    /\ Forall (fun e => e.1 <> restore) before
    /\ (forall message, r.2 <> Thrown message).
Proof.
  cbv zeta.
  set (w0 := mkWorld (dev w) (trace w) (console w ++ [(false, Banner)])
                     (files w)).
  assert (Hrun : scanAndSave device_cmd fs_write makeFileName true w
                 = try_catch_finally
                     (scanBody device_cmd fs_write makeFileName)
                     (fun error => log true (ScanError error))
                     (restoreEmulatorMode device_cmd) w0) by reflexivity.
  rewrite Hrun. clear Hrun. unfold try_catch_finally.
  destruct (issues_scanBody w0) as (new & Ht & Hnew).
  destruct (scanBody device_cmd fs_write makeFileName w0) as [w1 [[] | | e]];
    cbn [fst snd] in Ht.
  - destruct (restoreEmulatorMode_once w1) as (o & Htr & Hc).
    exists new, o. rewrite Htr, Ht, Hc. subst w0. cbn [trace].
    split; [now rewrite app_assoc |]. split; [exact Hnew |]. discriminate.
  - destruct (restoreEmulatorMode_once w1) as (o & Htr & Hc).
    destruct (restoreEmulatorMode device_cmd w1) as [w2 c2].
    cbn [fst snd] in Htr, Hc. subst c2. cbn [fst snd].
    exists new, o. rewrite Htr, Ht. subst w0. cbn [trace].
    split; [now rewrite app_assoc |]. split; [exact Hnew |]. discriminate.
  - set (w2 := (log true (ScanError e) w1).1).
    assert (Hlog : log true (ScanError e) w1 = (w2, Normal tt)) by reflexivity.
    rewrite Hlog.
    destruct (restoreEmulatorMode_once w2) as (o & Htr & Hc).
    exists new, o. rewrite Htr, Hc. subst w2. cbn [log fst trace].
    rewrite Ht. subst w0. cbn [trace].
    split; [now rewrite app_assoc |]. split; [exact Hnew |]. discriminate.
Qed.

End Restore.

(** The restoring command runs after a time-out in the middle of the page
    reads: the trace of the run ends with it and holds it once. *)
Example restored_after_thrown_read :
  let r := scanAndSave failing_reader (fun _ _ => Some true)
                       (fun _ => "tag.bin"%string) true (mkWorld tt [] [] []) in
  last (trace r.1) = Some (restore, Response (mkFrame 1001 0x68 []))
  /\ length (filter (fun e => e.1 = restore) (trace r.1)) = 1%nat
  /\ In (true, ScanError "Command response timed out") (console r.1)
  /\ r.2 = Normal tt.
Proof. vm_compute. repeat split. tauto. Qed.

End ScannerFacts.

(** ** The RFID dump analyzer *)

Module RFIDFacts.
Import JS Text RFID JSFacts.
Local Open Scope string_scope.
Local Open Scope Z_scope.

(** The analyzers only ever touch [details]. *)

Lemma same_class_refl (r : result) : same_class r r.
Proof. now repeat split. Qed.

Lemma same_class_trans (r1 r2 r3 : result) :
  same_class r1 r2 -> same_class r2 r3 -> same_class r1 r3.
Proof. intros (? & ? & ?) (? & ? & ?). repeat split; congruence. Qed.

Lemma same_class_set_detail (k : string) (v : detail) (r : result) :
  same_class r (set_detail k v r).
Proof. now repeat split. Qed.

Lemma analyzeEM410X_class (data : list Z) (r : result) :
  same_class r (analyzeEM410X data r).
Proof. unfold analyzeEM410X. destruct (negb _); now repeat split. Qed.

Lemma analyzeT5577_class (data : list Z) (r : result) :
  same_class r (analyzeT5577 data r).
Proof. now repeat split. Qed.

Lemma analyzeLF_class (data : list Z) (r : result) :
  same_class r (analyzeLF data r).
Proof.
  unfold analyzeLF. destruct (_ || _); [apply analyzeEM410X_class |].
  destruct (bool_decide _); [apply analyzeT5577_class | apply same_class_refl].
Qed.

(** What [detectTagType] decides for five bytes. *)
Lemma detectTagType_5 (data : list Z) (r : result) :
  len data = 5 ->
  frequency_ (detectTagType data r) = Some LF
  /\ tagType (detectTagType data r) = Some "EM410X"
  /\ confidence (detectTagType data r) = 90.
Proof. intros H. unfold detectTagType. rewrite H. now cbn. Qed.

(** C4, as the code has it. Classifier on small buffers: every 5-byte
    buffer matches the EM410X entry of the size table, so its report has tag
    type EM410X, frequency LF and confidence 90 (the size-5 heuristic with
    confidence 95 is never reached); a null or 0-byte input makes [analyze]
    return the explicit error result, without throwing. *)
Theorem classify_small_buffers
  (readFile : option (string -> option (option (list Z)))) (data : list Z) :
  len data = 5 ->
  (exists r, analyze readFile (Buffer data) = Report r
             /\ tagType r = Some "EM410X" /\ frequency_ r = Some LF
             /\ confidence r = 90)
  /\ analyze readFile Null = ErrorResult "No data provided or file is empty"
  /\ analyze readFile (Buffer [])
     = ErrorResult "No data provided or file is empty".
Proof.
  intros H. split; [| now split].
  destruct (detectTagType_5 data (blank data) H) as (Hf & Ht & Hc).
  unfold analyze. rewrite H. cbn [Z.eqb]. cbv zeta.
  rewrite Hf. eexists. split; [reflexivity |].
  destruct (analyzeLF_class data (detectTagType data (blank data)))
    as (Hf' & Ht' & Hc').
  now rewrite Hf', Ht', Hc'.
Qed.

Lemma classify_small_buffers_witness :
  len [1; 2; 3; 4; 5] = 5
  /\ (exists r, analyze None (Buffer [1; 2; 3; 4; 5]) = Report r
                /\ tagType r = Some "EM410X" /\ frequency_ r = Some LF
                /\ confidence r = 90)
  /\ analyze None Null = ErrorResult "No data provided or file is empty"
  /\ analyze None (Buffer []) = ErrorResult "No data provided or file is empty".
Proof.
  split; [reflexivity |].
  apply (classify_small_buffers None [1; 2; 3; 4; 5]). reflexivity.
Defined.

(** C4, as stated, fails: the report of a 5-byte buffer has confidence 90,
    not 95. *)
Lemma classify_5_bytes_counterexample :
  exists r, analyze None (Buffer [1; 2; 3; 4; 5]) = Report r
            /\ confidence r = 90 /\ confidence r <> 95.
Proof.
  eexists. split; [reflexivity |]. split; [reflexivity | discriminate].
Qed.

Lemma lor_shifted (h l n : Z) :
  0 <= n -> 0 <= l < 2 ^ n -> Z.lor (h * 2 ^ n) l = h * 2 ^ n + l.
Proof.
  intros Hn Hl. rewrite <- Z.add_nocarry_lor; [reflexivity |].
  apply Z.bits_inj'. intros i Hi.
  rewrite Z.land_spec, Z.bits_0.
  destruct (Z.ltb_spec i n) as [Hlt | Hge].
  - now rewrite Z.mul_pow2_bits_low.
  - assert (Z.testbit l i = false) as ->; [| apply andb_false_r].
    destruct (Z.eq_dec l 0) as [-> | Hne]; [apply Z.bits_0 |].
    apply Z.bits_above_log2; [lia |].
    apply Z.log2_lt_pow2; [lia |].
    apply Z.lt_le_trans with (2 ^ n); [lia |].
    apply Z.pow_le_mono_r; lia.
Qed.

Lemma toInt32_wrap (z : Z) :
  2 ^ 31 <= z < 2 ^ 32 -> toInt32 z = z - 2 ^ 32.
Proof.
  intros H. unfold toInt32.
  change (2 ^ 31) with 2147483648 in *. change (2 ^ 32) with 4294967296 in *.
  assert ((z + 2147483648) mod 4294967296 = z + 2147483648 - 4294967296) as ->;
    [| lia].
  symmetry. apply Z.mod_unique_pos with (q := 1); lia.
Qed.

(** What the shifts and ors of [analyzeEM410X] compute from four bytes:
    the big-endian value, read as a signed 32-bit number. *)
Lemma customerId_value (b1 b2 b3 b4 : Z) :
  byte_ok b1 -> byte_ok b2 -> byte_ok b3 -> byte_ok b4 ->
  bor (bor (bor (shl (toInt32o (Some b1)) 24) (shl (toInt32o (Some b2)) 16))
           (shl (toInt32o (Some b3)) 8))
      (toInt32o (Some b4))
  = toInt32 (b1 * 2 ^ 24 + b2 * 2 ^ 16 + b3 * 2 ^ 8 + b4).
Proof.
  unfold byte_ok. intros H1 H2 H3 H4.
  unfold bor, shl, toInt32o.
  change (24 mod 32) with 24. change (16 mod 32) with 16.
  change (8 mod 32) with 8.
  rewrite !(toInt32_small b1), !(toInt32_small b2), !(toInt32_small b3),
    !(toInt32_small b4) by lia.
  rewrite !Z.shiftl_mul_pow2 by lia.
  set (k := if b1 <? 128 then b1 else b1 - 256).
  assert (Hk : toInt32 (b1 * 2 ^ 24) = k * 2 ^ 24 /\ -128 <= k < 128).
  { subst k. destruct (Z.ltb_spec b1 128).
    - split; [apply toInt32_small |]; change (2 ^ 24) with 16777216;
        change (2 ^ 31) with 2147483648; lia.
    - split; [rewrite toInt32_wrap |]; change (2 ^ 24) with 16777216;
        change (2 ^ 31) with 2147483648; change (2 ^ 32) with 4294967296; lia. }
  destruct Hk as [Hk Hkr]. rewrite Hk.
  assert (P24 : 2 ^ 24 = 16777216) by reflexivity.
  assert (P16 : 2 ^ 16 = 65536) by reflexivity.
  assert (P8 : 2 ^ 8 = 256) by reflexivity.
  assert (P31 : 2 ^ 31 = 2147483648) by reflexivity.
  assert (P32 : 2 ^ 32 = 4294967296) by reflexivity.
  rewrite !(toInt32_small (b2 * 2 ^ 16)), !(toInt32_small (b3 * 2 ^ 8)),
    !(toInt32_small (k * 2 ^ 24)) by lia.
  rewrite (lor_shifted k (b2 * 2 ^ 16) 24) by lia.
  rewrite !(toInt32_small (k * 2 ^ 24 + b2 * 2 ^ 16)) by lia.
  replace (k * 2 ^ 24 + b2 * 2 ^ 16) with ((k * 2 ^ 8 + b2) * 2 ^ 16) by lia.
  rewrite (lor_shifted _ (b3 * 2 ^ 8) 16) by lia.
  rewrite !(toInt32_small ((k * 2 ^ 8 + b2) * 2 ^ 16 + b3 * 2 ^ 8)) by lia.
  replace ((k * 2 ^ 8 + b2) * 2 ^ 16 + b3 * 2 ^ 8)
    with (((k * 2 ^ 8 + b2) * 2 ^ 8 + b3) * 2 ^ 8) by lia.
  rewrite (lor_shifted _ b4 8) by lia.
  subst k. destruct (Z.ltb_spec b1 128).
  - rewrite toInt32_small by lia. lia.
  - rewrite toInt32_wrap by lia. lia.
Qed.

(** [analyzeEM410X] on any five bytes: the version is byte 0, the decimal
    form pads every byte to three digits and joins them with commas, and
    the identifier is the big-endian value of bytes 1..4 wrapped to a
    signed 32-bit number: the unsigned value when byte 1 is below 0x80,
    that value minus 2^32 otherwise. *)
Lemma analyzeEM410X_fields (b0 b1 b2 b3 b4 : Z) (r : result) :
  byte_ok b1 -> byte_ok b2 -> byte_ok b3 -> byte_ok b4 ->
  let r' := analyzeEM410X [b0; b1; b2; b3; b4] r in
  let unsigned := b1 * 2 ^ 24 + b2 * 2 ^ 16 + b3 * 2 ^ 8 + b4 in
  details r' !! "version" = Some (Val (Num b0))
  /\ details r' !! "customerId"
     = Some (Val (Num (if b1 <? 0x80 then unsigned else unsigned - 2 ^ 32)))
  /\ details r' !! "idDecimal"
     = Some (Val (Str (join ","
          (map (fun b => padStart 3 "0"%char (toStringRadix 10 b))
               [b0; b1; b2; b3; b4]))))
  /\ details r' !! "idHex"
     = Some (Val (Str (toUpperCase (join "" (map hex2 [b0; b1; b2; b3; b4]))))).
Proof.
  intros H1 H2 H3 H4 r' unsigned. subst r'. unfold analyzeEM410X.
  change (negb (len [b0; b1; b2; b3; b4] =? 5)) with false. cbv iota zeta.
  change (at_ [b0; b1; b2; b3; b4] 0) with (Some b0).
  change (at_ [b0; b1; b2; b3; b4] 1) with (Some b1).
  change (at_ [b0; b1; b2; b3; b4] 2) with (Some b2).
  change (at_ [b0; b1; b2; b3; b4] 3) with (Some b3).
  change (at_ [b0; b1; b2; b3; b4] 4) with (Some b4).
  rewrite customerId_value by assumption. fold unsigned.
  assert (Hv : toInt32 unsigned
               = if b1 <? 0x80 then unsigned else unsigned - 2 ^ 32).
  { unfold byte_ok in *. subst unsigned.
    assert (P24 : 2 ^ 24 = 16777216) by reflexivity.
    assert (P16 : 2 ^ 16 = 65536) by reflexivity.
    assert (P8 : 2 ^ 8 = 256) by reflexivity.
    assert (P31 : 2 ^ 31 = 2147483648) by reflexivity.
    assert (P32 : 2 ^ 32 = 4294967296) by reflexivity.
    destruct (Z.ltb_spec b1 0x80).
    - apply toInt32_small. lia.
    - apply toInt32_wrap. lia. }
  rewrite Hv. unfold set_detail, with_details, hexJoin. cbn [details].
  repeat split.
  - rewrite !lookup_insert_ne by discriminate. apply lookup_insert_eq.
  - rewrite !lookup_insert_ne by discriminate. apply lookup_insert_eq.
  - rewrite !lookup_insert_ne by discriminate. apply lookup_insert_eq.
  - rewrite !lookup_insert_ne by discriminate. apply lookup_insert_eq.
Qed.

(** C10 at a buffer whose byte 1 is 0x80: the identifier comes out
    negative, and its hexadecimal form carries a minus sign. *)
Theorem em410x_customerId_is_signed :
  let data := [0x01; 0x80; 0x00; 0x00; 0x2A] in
  let r := analyzeEM410X data (blank data) in
  details r !! "version" = Some (Val (Num 1))
  /\ details r !! "customerId" = Some (Val (Num (-2147483606)))
  /\ details r !! "customerIdHex" = Some (Val (Str "-7FFFFFD6"))
  /\ details r !! "idHex" = Some (Val (Str "018000002A"))
  /\ details r !! "idDecimal" = Some (Val (Str "001,128,000,000,042"))
  /\ ~ (0 <= -2147483606 < 2 ^ 32).
Proof. vm_compute. repeat split. intros [H _]. now apply H. Qed.

Lemma ndef_of_set (o : gmap string value) (r : result) :
  details (set_detail "ndef" (Obj o) r) !! "ndef" = Some (Obj o).
Proof. unfold set_detail. cbn. apply lookup_insert_eq. Qed.

Lemma band_byte (header mask : Z) :
  byte_ok header -> byte_ok mask ->
  band (toInt32o (Some header)) mask = Z.land header mask.
Proof.
  unfold band, toInt32o, byte_ok. intros Hh Hm.
  now rewrite !(toInt32_small header), (toInt32_small mask) by lia.
Qed.

Ltac ndef_lookup :=
  repeat (rewrite lookup_insert_ne by discriminate);
  first [apply lookup_insert_eq | apply lookup_empty].

(** The record read from a TLV value cut after the first payload byte. *)
Lemma parseNDEF_cut (header : Z) (r : result) :
  byte_ok header -> Z.land header 7 = 1 ->
  exists ndef,
    details (parseNDEF [header; 1; 3; 84; 104] r) !! "ndef" = Some (Obj ndef)
    /\ ndef !! "typeNameFormat" = Some (Num 1)
    /\ ndef !! "type" = Some (Txt (text_of "T"))
    /\ ndef !! "payloadLength" = Some (Num 3)
    /\ ndef !! "payload" = None
    /\ ndef !! "payloadText" = None.
Proof.
  intros Hb Htnf. unfold parseNDEF.
  change (len [header; 1; 3; 84; 104] <? 3) with false. cbv iota zeta.
  change (at_ [header; 1; 3; 84; 104] 0) with (Some header).
  change (default 0 (at_ [header; 1; 3; 84; 104] 1)) with 1.
  change (default 0 (at_ [header; 1; 3; 84; 104] 2)) with 3.
  rewrite (band_byte header 7), Htnf by (assumption || (unfold byte_ok; lia)).
  change ((0 <? 1) && (3 + 1 <=? len [header; 1; 3; 84; 104])) with true.
  change ((0 <? 3) && (3 + 1 + 3 <=? len [header; 1; 3; 84; 104])) with false.
  cbv iota.
  change (slice [header; 1; 3; 84; 104] 3 (3 + 1)) with [84].
  eexists. split; [apply ndef_of_set |].
  repeat split; ndef_lookup.
Qed.

(** The record read from the whole TLV value. *)
Lemma parseNDEF_whole (header : Z) (r : result) :
  byte_ok header -> Z.land header 7 = 1 ->
  exists ndef,
    details (parseNDEF [header; 1; 3; 84; 104; 105; 33] r) !! "ndef"
    = Some (Obj ndef)
    /\ ndef !! "typeNameFormat" = Some (Num 1)
    /\ ndef !! "type" = Some (Txt (text_of "T"))
    /\ ndef !! "payloadLength" = Some (Num 3)
    /\ ndef !! "payload" = Some (Bytes [104; 105; 33])
    /\ ndef !! "payloadText" = Some (Txt (text_of "hi!")).
Proof.
  intros Hb Htnf. unfold parseNDEF.
  change (len [header; 1; 3; 84; 104; 105; 33] <? 3) with false.
  cbv iota zeta.
  change (at_ [header; 1; 3; 84; 104; 105; 33] 0) with (Some header).
  change (default 0 (at_ [header; 1; 3; 84; 104; 105; 33] 1)) with 1.
  change (default 0 (at_ [header; 1; 3; 84; 104; 105; 33] 2)) with 3.
  rewrite (band_byte header 7), Htnf by (assumption || (unfold byte_ok; lia)).
  change ((0 <? 1) && (3 + 1 <=? len [header; 1; 3; 84; 104; 105; 33]))
    with true.
  change ((0 <? 3) && (3 + 1 + 3 <=? len [header; 1; 3; 84; 104; 105; 33]))
    with true.
  cbv iota.
  change (slice [header; 1; 3; 84; 104; 105; 33] 3 (3 + 1)) with [84].
  change (slice [header; 1; 3; 84; 104; 105; 33] (3 + 1) (3 + 1 + 3))
    with [104; 105; 33].
  eexists. split; [apply ndef_of_set |].
  repeat split; ndef_lookup.
Qed.

Lemma range_from_cons (n : nat) (i stop stride : Z) :
  i < stop ->
  Exec.range_from (S n) i stop stride
  = i :: Exec.range_from n (i + stride) stop stride.
Proof. intros H. cbn. destruct (Z.ltb_spec i stop); [reflexivity | lia]. Qed.

(** Only HF signatures and the 64..1024 heuristic classify as HF. *)
Lemma detectTagType_HF_len (data : list Z) :
  frequency_ (detectTagType data (blank data)) = Some HF -> 64 <= len data.
Proof.
  unfold detectTagType. cbn [find tagSignatures sig_size].
  repeat match goal with
         | |- context [?a =? len data] =>
           destruct (Z.eqb_spec a (len data)) as [<- | ?];
             [cbn; intros; try discriminate; lia |]
         end.
  destruct (len data =? 5); [cbn; intros; discriminate |].
  destruct (Z.leb_spec 64 (len data)); cbn; [intros; lia |].
  destruct (Z.ltb_spec (len data) 64); cbn; intros; first [discriminate | lia].
Qed.

Lemma extractText_ndef (data : list Z) (r : result) :
  details (extractText data r) !! "ndef" = details r !! "ndef".
Proof.
  unfold extractText. cbv zeta. destruct (0 <? length _)%nat; [| reflexivity].
  unfold set_detail. cbn. now rewrite lookup_insert_ne.
Qed.

Lemma checkNDEF_finds_vector (before after : list Z) (L header : Z)
  (r : result) :
  length before = 20%nat -> Forall (fun b => b <> 0x03) (drop 16 before) ->
  64 <= len (before ++ vector L header ++ after) ->
  L = 5 \/ L = 7 ->
  checkNDEF (before ++ vector L header ++ after) r
  = parseNDEF (slice (vector L header) 2 (2 + L))
      (set_detail "ndefLength" (Val (Num L))
         (set_detail "ndefOffset" (Val (Num 20))
            (set_detail "hasNDEF" (Val (Bool true)) r))).
Proof.
  intros Hlen Hclean Hsize HL.
  do 20 (destruct before as [| ? before]; [discriminate Hlen |]).
  destruct before; [| discriminate Hlen]. clear Hlen.
  cbn [drop] in Hclean.
  repeat match goal with
         | H : Forall _ (_ :: _) |- _ => inversion H; clear H; subst
         end.
  unfold checkNDEF. cbv zeta.
  set (data := (_ ++ vector L header ++ after)%list) in *.
  assert (Hstop : 62 <= Z.min (len data - 2) 100) by lia.
  unfold Exec.range_by.
  replace (Z.to_nat (Z.min (len data - 2) 100 - 16))
    with (S (S (S (S (S (Z.to_nat (Z.min (len data - 2) 100 - 21)))))))
    by lia.
  rewrite range_from_cons by lia. change (16 + 1) with 17.
  rewrite range_from_cons by lia. change (17 + 1) with 18.
  rewrite range_from_cons by lia. change (18 + 1) with 19.
  rewrite range_from_cons by lia. change (19 + 1) with 20.
  rewrite range_from_cons by lia.
  cbn [find].
  change (at_ data 16) with (Some z15). change (at_ data 17) with (Some z16).
  change (at_ data 18) with (Some z17). change (at_ data 19) with (Some z18).
  change (at_ data 20) with (Some 3).
  rewrite !bool_decide_eq_false_2 by congruence.
  rewrite bool_decide_eq_true_2 by reflexivity.
  change (20 + 1) with 21. change (20 + 2) with 22.
  change (at_ data 21) with (Some L). change (default 0 (Some L)) with L.
  destruct (Z.leb_spec (22 + L) (len data)) as [_ | Hbad]; [| lia].
  f_equal. subst data. rewrite slice_app_r by (unfold len; cbn [length]; lia).
  destruct HL as [-> | ->]; reflexivity.
Qed.

(** C5, as the code has it. NDEF vector: in an HF-classified buffer with no
    0x03 among bytes 16..19 and, from offset 20 on, TLV type 0x03, a TLV
    length byte, a record header with TNF = 1, type length 1, payload length
    3, type "T" and payload "hi!", the decoder reads the record from exactly
    the TLV length bytes: with length 0x05 the record has typeNameFormat 1
    and type "T" but neither payload nor payloadText (the value ends after
    "h"); with length 0x07, the length of the whole record, payloadText is
    "hi!". *)
Theorem ndef_vector_decoding
  (readFile : option (string -> option (option (list Z))))
  (before after : list Z) (L header : Z) (r : result) :
  length before = 20%nat -> Forall (fun b => b <> 0x03) (drop 16 before) ->
  byte_ok header -> Z.land header 7 = 1 -> L = 5 \/ L = 7 ->
  analyze readFile (Buffer (before ++ vector L header ++ after)) = Report r ->
  frequency_ r = Some HF ->
  exists ndef,
    details r !! "ndef" = Some (Obj ndef)
    /\ ndef !! "typeNameFormat" = Some (Num 1)
    /\ ndef !! "type" = Some (Txt (text_of "T"))
    /\ (L = 5 -> ndef !! "payload" = None /\ ndef !! "payloadText" = None)
    /\ (L = 7 -> ndef !! "payloadText" = Some (Txt (text_of "hi!"))).
Proof.
  intros Hlen Hclean Hb Htnf HL Hrun Hfreq.
  unfold analyze in Hrun. cbv zeta in Hrun.
  set (data := (before ++ vector L header ++ after)%list) in *.
  destruct (len data =? 0); [discriminate |].
  destruct (frequency_ (detectTagType data (blank data))) as [[|] |] eqn:Hf.
  - injection Hrun as <-.
    pose proof (detectTagType_HF_len data Hf) as Hsize.
    unfold analyzeHF. cbv zeta. rewrite extractText_ndef. subst data.
    rewrite checkNDEF_finds_vector by assumption.
    destruct HL as [-> | ->].
    + change (slice (vector 5 header) 2 (2 + 5)) with [header; 1; 3; 84; 104].
      match goal with
      | |- context [parseNDEF _ ?r0] =>
        destruct (parseNDEF_cut header r0 Hb Htnf)
          as (ndef & Hn & Ht & Hty & _ & Hp & Hpt)
      end.
      exists ndef. repeat split; intros; first [assumption | discriminate].
    + change (slice (vector 7 header) 2 (2 + 7))
        with [header; 1; 3; 84; 104; 105; 33].
      match goal with
      | |- context [parseNDEF _ ?r0] =>
        destruct (parseNDEF_whole header r0 Hb Htnf)
          as (ndef & Hn & Ht & Hty & _ & Hp & Hpt)
      end.
      exists ndef. repeat split; intros; first [assumption | discriminate].
  - injection Hrun as <-.
    destruct (analyzeLF_class data (detectTagType data (blank data)))
      as (Hf' & _). congruence.
  - injection Hrun as <-. congruence.
Qed.

Lemma ndef_vector_decoding_witness :
  exists r ndef,
    analyze None (Buffer (replicate 20 0 ++ vector 7 0xD1 ++ replicate 35 0))
    = Report r
    /\ frequency_ r = Some HF
    /\ details r !! "ndef" = Some (Obj ndef)
    /\ ndef !! "typeNameFormat" = Some (Num 1)
    /\ ndef !! "type" = Some (Txt (text_of "T"))
    /\ (7 = 5 -> ndef !! "payload" = None /\ ndef !! "payloadText" = None)
    /\ (7 = 7 -> ndef !! "payloadText" = Some (Txt (text_of "hi!"))).
Proof.
  eexists.
  assert (Hrun : analyze None
                   (Buffer (replicate 20 0 ++ vector 7 0xD1 ++ replicate 35 0))
                 = Report _) by reflexivity.
  assert (Hfreq : frequency_
                    (analyzeHF
                       (replicate 20 0 ++ vector 7 0xD1 ++ replicate 35 0)
                       (detectTagType
                          (replicate 20 0 ++ vector 7 0xD1 ++ replicate 35 0)
                          (blank (replicate 20 0 ++ vector 7 0xD1
                                    ++ replicate 35 0))))
                  = Some HF) by reflexivity.
  destruct (ndef_vector_decoding None (replicate 20 0) (replicate 35 0) 7 0xD1 _
              eq_refl
              ltac:(repeat constructor; discriminate)
              ltac:(unfold byte_ok; lia)
              eq_refl (or_intror eq_refl) Hrun Hfreq) as (ndef & H).
  exists ndef. split; [exact Hrun |]. split; [exact Hfreq | exact H].
Defined.

(** C5, as stated, fails: with TLV length 0x05 the record of a 64-byte
    HF buffer carrying the vector has type "T" and no payloadText. *)
Lemma ndef_vector_counterexample :
  exists r ndef,
    analyze None (Buffer (replicate 20 0 ++ vector 5 0xD1 ++ replicate 35 0))
    = Report r
    /\ frequency_ r = Some HF
    /\ details r !! "ndef" = Some (Obj ndef)
    /\ ndef !! "typeNameFormat" = Some (Num 1)
    /\ ndef !! "type" = Some (Txt (text_of "T"))
    /\ ndef !! "payloadText" = None
    /\ ndef !! "payloadText" <> Some (Txt (text_of "hi!")).
Proof.
  eexists. eexists. split; [reflexivity |]. split; [reflexivity |].
  split; [vm_compute; reflexivity |].
  repeat split; try reflexivity. discriminate.
Qed.

End RFIDFacts.

(** ** Checksums and byte streams *)

Module StreamFacts.
Import JS Codec Channel JSFacts CodecFacts ChannelFacts Stream.

Lemma lrc_fold (l : list Z) (r : Z) :
  0 <= r < 256 ->
  fold_left (fun ret b => Z.land (ret + b) 0xFF) l r = (r + byteSum l) mod 256.
Proof.
  revert r. induction l as [| b l IH]; intros r Hr.
  - cbn. rewrite Z.add_0_r, Z.mod_small; lia.
  - cbn [fold_left]. rewrite IH by apply land_255_byte.
    rewrite land_255, Zplus_mod_idemp_l. f_equal.
    change (byteSum (b :: l)) with (b + byteSum l). lia.
Qed.

Lemma lrcCalc_sum (l : list Z) : lrcCalc l = (- byteSum l) mod 256.
Proof.
  unfold lrcCalc. rewrite lrc_fold by lia. rewrite land_255.
  change 0x100 with 256. rewrite Z.add_0_l.
  rewrite <- (Z.mod_add (- byteSum l) 1 256) by lia.
  rewrite Zminus_mod_idemp_r. f_equal. lia.
Qed.

Lemma byteSum_app (l1 l2 : list Z) :
  byteSum (l1 ++ l2) = byteSum l1 + byteSum l2.
Proof.
  unfold byteSum. induction l1 as [| a l1 IH]; cbn; [reflexivity | lia].
Qed.

(** X1. The checksum closes the block it covers: for
    every array of bytes (numbers from 0 to 255, what a [Uint8Array]
    holds), the bytes followed by their [lrcCalc] add up to 0 modulo 256,
    so the checksum of the block with its own checksum appended is 0. *)
Theorem lrc_closes_block (l : list Z) (Hbytes : Forall byte_ok l) :
  lrcCalc (l ++ [lrcCalc l]) = 0 /\ (byteSum l + lrcCalc l) mod 256 = 0.
Proof.
  assert (H : (byteSum l + lrcCalc l) mod 256 = 0).
  { rewrite lrcCalc_sum, Zplus_mod_idemp_r.
    replace (byteSum l + - byteSum l) with 0 by lia. reflexivity. }
  split; [| exact H].
  rewrite (lrcCalc_sum (l ++ _)), byteSum_app.
  change (byteSum [lrcCalc l]) with (lrcCalc l + 0). rewrite Z.add_0_r.
  rewrite <- Z.sub_0_l, Zminus_mod, H. reflexivity.
Qed.

Lemma lrc_closes_block_witness :
  Forall byte_ok [0x11; 0xEF; 0x03; 0xE9]
  /\ lrcCalc ([0x11; 0xEF; 0x03; 0xE9] ++ [lrcCalc [0x11; 0xEF; 0x03; 0xE9]])
     = 0
  /\ (byteSum [0x11; 0xEF; 0x03; 0xE9] + lrcCalc [0x11; 0xEF; 0x03; 0xE9])
     mod 256 = 0.
Proof.
  assert (H : Forall byte_ok [0x11; 0xEF; 0x03; 0xE9]).
  { repeat constructor; unfold byte_ok; lia. }
  split; [exact H |]. exact (lrc_closes_block _ H).
Defined.

(** X2. The checksum detects every single-byte
    error: changing one byte of the covered block to another byte value
    changes [lrcCalc]. *)
Theorem lrc_detects_one_byte (l1 l2 : list Z) (a b : Z) :
  byte_ok a -> byte_ok b -> a <> b ->
  lrcCalc (l1 ++ a :: l2) <> lrcCalc (l1 ++ b :: l2).
Proof.
  unfold byte_ok. intros Ha Hb Hne. rewrite !lrcCalc_sum, !byteSum_app.
  change (byteSum (a :: l2)) with (a + byteSum l2).
  change (byteSum (b :: l2)) with (b + byteSum l2).
  intros E.
  pose proof (Z.div_mod (- (byteSum l1 + (a + byteSum l2))) 256) as D1.
  pose proof (Z.div_mod (- (byteSum l1 + (b + byteSum l2))) 256) as D2.
  rewrite E in D1. lia.
Qed.

Lemma lrc_detects_one_byte_witness :
  lrcCalc ([0x11; 0xEF] ++ 0x04 :: [0x01])
  <> lrcCalc ([0x11; 0xEF] ++ 0x05 :: [0x01]).
Proof.
  apply (lrc_detects_one_byte [0x11; 0xEF] [0x01] 0x04 0x05);
    unfold byte_ok; lia.
Defined.

(** *** The decoder is incremental *)

Lemma at_app_l {A} (x b : list A) (i : Z) :
  i < len x -> at_ (x ++ b) i = at_ x i.
Proof.
  unfold at_, len. intros H.
  destruct (Z.ltb_spec i 0) as [Hn | Hp]; [reflexivity |].
  apply lookup_app_l. lia.
Qed.

Lemma slice_app_l {A} (x b : list A) (lo hi : Z) :
  0 <= lo -> hi <= len x -> slice (x ++ b) lo hi = slice x lo hi.
Proof.
  unfold slice, len. intros Hlo Hhi.
  destruct (Z.le_gt_cases hi lo) as [Hle | Hgt].
  - replace (Z.to_nat (hi - lo)) with 0%nat by lia. reflexivity.
  - rewrite drop_app_le by lia. apply take_app_le.
    rewrite length_drop. lia.
Qed.

Lemma slice_from_app_l {A} (x b : list A) (k : Z) :
  k <= len x -> slice_from (x ++ b) k = slice_from x k ++ b.
Proof. unfold slice_from, len. intros H. apply drop_app_le. lia. Qed.

(** A turn that continues depends only on the bytes it has: it is taken
    in the same way when more bytes follow. *)
Lemma parseStep_app (x b r : list Z) (e : event) :
  parseStep x = Continue e r -> parseStep (x ++ b) = Continue e (r ++ b).
Proof.
  unfold parseStep. pose proof (len_nonneg b) as Hb.
  destruct (Z.ltb_spec (len x) 9) as [| H9]; [discriminate |].
  assert ((len (x ++ b) <? 9) = false) as ->
    by (apply Z.ltb_ge; rewrite len_app; lia).
  rewrite (at_app_l x b 0), (at_app_l x b 1), (at_app_l x b 2),
    (at_app_l x b 3), (at_app_l x b 4), (at_app_l x b 5), (at_app_l x b 6),
    (at_app_l x b 7), (at_app_l x b 8) by lia.
  rewrite (slice_app_l x b 0 1), (slice_app_l x b 0 8) by lia.
  rewrite (slice_from_app_l x b 1) by lia.
  destruct (strict_neq (at_ x 0) SOF); [now intros [= <- <-] |].
  destruct (strict_neq (at_ x 1) _); [now intros [= <- <-] |].
  set (dataLen := bor (shl (toInt32o (at_ x 6)) 8) (toInt32o (at_ x 7))).
  destruct (Z.ltb_spec (len x) (9 + dataLen + 1)) as [| Hf]; [discriminate |].
  assert ((len (x ++ b) <? 9 + dataLen + 1) = false) as ->
    by (apply Z.ltb_ge; rewrite len_app; lia).
  destruct (strict_neq (at_ x 8) _); [now intros [= <- <-] |].
  rewrite (at_app_l x b (9 + dataLen)) by lia.
  rewrite (slice_app_l x b 0 (9 + dataLen)) by lia.
  rewrite (slice_app_l x b 9 (9 + dataLen)) by lia.
  destruct (strict_neq (at_ x (9 + dataLen)) _); [now intros [= <- <-] |].
  intros [= <- <-]. now rewrite slice_from_app_l by lia.
Qed.

(** Parsing [x] and then what is left together with [b] is parsing
    [x ++ b]. *)
Lemma parseLoop_app (n : nat) : forall (x b : list Z) (m m' : nat),
  (length x <= n)%nat -> (length (x ++ b) <= m)%nat ->
  (length ((parseLoop n x).2 ++ b) <= m')%nat ->
  parseLoop m (x ++ b)
  = ((parseLoop n x).1 ++ (parseLoop m' ((parseLoop n x).2 ++ b)).1,
     (parseLoop m' ((parseLoop n x).2 ++ b)).2).
Proof.
  induction n as [| n IH]; intros x b m m' Hn Hm Hm'.
  - destruct x; [| simpl in Hn; lia]. cbn [parseLoop fst snd app] in *.
    rewrite (parseLoop_enough m m' b) by assumption.
    now destruct (parseLoop m' b).
  - cbn [parseLoop] in *. destruct (Z.ltb_spec 0 (len x)) as [Hpos | Hz].
    + destruct (parseStep x) as [| e r] eqn:Hstep.
      * cbn [fst snd app] in *.
        rewrite (parseLoop_enough m m' (x ++ b)) by assumption.
        now destruct (parseLoop m' (x ++ b)).
      * cbn [fst snd] in *.
        pose proof (parseStep_shrinks _ _ _ Hstep) as Hlt.
        destruct m as [| m]; [rewrite length_app in Hm; lia |].
        cbn [parseLoop].
        assert ((0 <? len (x ++ b)) = true) as ->
          by (apply Z.ltb_lt; rewrite len_app; pose proof (len_nonneg b); lia).
        rewrite (parseStep_app _ b _ _ Hstep).
        rewrite (IH r b m m') by (rewrite ?length_app in *; lia).
        reflexivity.
    + destruct x; [| rewrite len_cons in Hz; pose proof (len_nonneg x); lia].
      cbn [fst snd app] in *.
      rewrite (parseLoop_enough m m' b) by assumption.
      now destruct (parseLoop m' b).
Qed.

Lemma parseFrames_app (a b : list Z) :
  parseFrames (a ++ b)
  = ((parseFrames a).1 ++ (parseFrames ((parseFrames a).2 ++ b)).1,
     (parseFrames ((parseFrames a).2 ++ b)).2).
Proof. unfold parseFrames. now apply parseLoop_app. Qed.

(** *** Frames that follow each other *)

Lemma wire_encoded (f : Frame) :
  fits f -> wire f = encoded (cmd f) (status f) (data f).
Proof. intros (Hc & Hs & Hd & Hn). now apply makeDataFrame_encoded. Qed.

Lemma parseLoop_wireAll (fs : list Frame) : forall n : nat,
  Forall fits fs -> (length (wireAll fs) <= n)%nat ->
  parseLoop n (wireAll fs) = (map ValidFrame fs, []).
Proof.
  induction fs as [| f fs IH]; intros n Hfs Hn.
  - apply parseLoop_nil.
  - apply Forall_cons in Hfs as [Hf Hfs].
    pose proof Hf as (Hc & Hs & Hd & Hl).
    unfold wireAll in *. cbn [flat_map] in *.
    rewrite wire_encoded in * by assumption.
    destruct (encoded_cons (cmd f) (status f) (data f)) as (t & Et & _).
    destruct n as [| n]; [rewrite Et in Hn; simpl in Hn; lia |].
    rewrite parseLoop_encoded by assumption.
    rewrite IH; [now destruct f | assumption |].
    rewrite length_app, Et in Hn. simpl in Hn. lia.
Qed.

(** X3. Frames that arrive back to back are all
    surfaced: the decoder run on the concatenation of the byte arrays
    [makeDataFrame] builds for a list of frames (16-bit command and status,
    at most 65535 payload bytes each) surfaces exactly these frames, in
    order, drops nothing and leaves the buffer empty. *)
Theorem back_to_back_frames (fs : list Frame) :
  Forall fits fs -> parseFrames (wireAll fs) = (map ValidFrame fs, []).
Proof. intros Hfs. unfold parseFrames. now apply parseLoop_wireAll. Qed.

Lemma fits_example (c s : Z) (p : list Z) :
  (0 <=? c) && (c <=? 65535) && (0 <=? s) && (s <=? 65535)
  && forallb is_byte p && (len p <=? 65535) = true ->
  fits (mkFrame c s p).
Proof.
  rewrite !andb_true_iff, !Z.leb_le, forallb_forall.
  intros [[[[[H1 H2] H3] H4] Hp] Hn]. unfold fits. cbn.
  repeat split; try assumption.
  apply Forall_forall. intros x Hx%list_elem_of_In%Hp.
  unfold is_byte in Hx. apply andb_true_iff in Hx as [Ha Hb].
  apply Z.leb_le in Ha. apply Z.ltb_lt in Hb. now split.
Qed.

Lemma back_to_back_frames_witness :
  parseFrames (wireAll [mkFrame 1018 0x68 [0];
                        mkFrame 1019 0x68 [0x04; 0x4D; 0; 0]])
  = (map ValidFrame [mkFrame 1018 0x68 [0];
                     mkFrame 1019 0x68 [0x04; 0x4D; 0; 0]], []).
Proof.
  apply (back_to_back_frames [mkFrame 1018 0x68 [0];
                              mkFrame 1019 0x68 [0x04; 0x4D; 0; 0]]).
  constructor; [now apply fits_example |].
  constructor; [now apply fits_example | constructor].
Defined.

(** *** A frame that has not arrived entirely *)

Lemma parseFrames_prefix (c s : Z) (p a b : list Z) :
  0 <= c <= 65535 -> 0 <= s <= 65535 -> len p <= 65535 ->
  encoded c s p = a ++ b -> b <> [] -> parseFrames a = ([], a).
Proof.
  intros Hc Hs Hn E Hb. unfold parseFrames.
  destruct a as [| a0 a]; [reflexivity |].
  cbn [length parseLoop]. rewrite len_pos_cons.
  assert (Hstep : parseStep (a0 :: a) = Break); [| now rewrite Hstep].
  destruct (encoded_well_formed c s p [] Hc Hs Hn) as ((H0 & H1 & _) & _ & _).
  rewrite app_nil_r, E in H0, H1. unfold lrc_ok in H1.
  assert (Hlen : len (encoded c s p) = 10 + len p).
  { unfold encoded. cbv zeta. rewrite !len_app, len_header8.
    change (len [_]) with 1. lia. }
  assert (Hlt : len (a0 :: a) < 10 + len p).
  { rewrite <- Hlen, E, len_app. destruct b as [| b0 b]; [easy |].
    rewrite (len_cons b0 b). pose proof (len_nonneg b). lia. }
  unfold parseStep.
  destruct (Z.ltb_spec (len (a0 :: a)) 9) as [| H9]; [reflexivity |].
  rewrite (at_app_l _ b 0) in H0 by lia.
  rewrite (at_app_l _ b 1), (slice_app_l _ b 0 1) in H1 by lia.
  apply strict_neq_false in H0, H1. rewrite H0, H1.
  assert (Hd : bor (shl (toInt32o (at_ (a0 :: a) 6)) 8)
                   (toInt32o (at_ (a0 :: a) 7)) = len p).
  { rewrite <- (at_app_l _ b 6), <- (at_app_l _ b 7), <- E by lia.
    unfold encoded, header8. cbn [app].
    change (at_ _ 6) with (Some (len p / 256)).
    change (at_ _ 7) with (Some (len p mod 256)).
    pose proof (len_nonneg p) as Hn0.
    destruct (hi_lo_bytes (len p) (conj Hn0 Hn)) as (B1 & B2 & En).
    now rewrite be16_bytes. }
  rewrite Hd.
  destruct (Z.ltb_spec (len (a0 :: a)) (9 + len p + 1)); [easy | lia].
Qed.

(** *** The serial decoder *)

Lemma copy_bytes (l : list Z) : Forall byte_ok l -> Serial.copy l = l.
Proof.
  intros H. unfold Serial.copy, set_at. change (Z.to_nat 0) with 0%nat.
  rewrite map_u8_bytes by assumption. cbn [take app Nat.add].
  rewrite drop_ge by (rewrite length_replicate; lia). apply app_nil_r.
Qed.

Lemma slice_from_bytes (l : list Z) (k : Z) :
  Forall byte_ok l -> Forall byte_ok (slice_from l k).
Proof. unfold slice_from. apply Forall_drop. Qed.

Lemma len_0_nil {A} (l : list A) : len l <= 0 -> l = [].
Proof.
  destruct l; [easy |]. rewrite len_cons. pose proof (len_nonneg l). lia.
Qed.

Lemma serial_parseLoop (n : nat) : forall buffer : list Z,
  Forall byte_ok buffer ->
  Serial.parseLoop n buffer buffer = parseLoop n buffer.
Proof.
  induction n as [| n IH]; intros buffer Hb; [reflexivity |].
  cbn [Serial.parseLoop parseLoop].
  destruct (0 <? len buffer); [| reflexivity].
  unfold Serial.parseStep, parseStep.
  pose proof (slice_from_bytes buffer 1 Hb) as H1.
  repeat match goal with
         | |- context [if strict_neq ?a ?b then _ else _] =>
           destruct (strict_neq a b);
           [rewrite copy_bytes by assumption; now rewrite IH |]
         | |- context [if len buffer <? ?k then _ else _] =>
           destruct (len buffer <? k); [reflexivity |]
         end.
  set (frameLen := 9 + _ + 1).
  pose proof (slice_from_bytes buffer frameLen Hb) as Hr.
  destruct (Z.ltb_spec 0 (len (slice_from buffer frameLen))) as [Hpos | Hz].
  - rewrite copy_bytes by assumption. now rewrite IH.
  - rewrite (len_0_nil _ Hz). now rewrite parseLoop_nil.
Qed.

(** X4. The two decoders of the device extension
    agree: on every buffer of bytes, [parseFrames] of the serial driver
    (which copies the remaining bytes into a fresh [transport.readBuffer]
    after every turn and leaves the loop when a frame ends the buffer)
    surfaces the same frames and skips as the one of the BLE driver and
    leaves the same bytes buffered. *)
Theorem serial_decoder_agrees (readBuffer : list Z) :
  Forall byte_ok readBuffer ->
  Serial.parseFrames readBuffer = Codec.parseFrames readBuffer.
Proof. intros Hb. unfold Serial.parseFrames. now apply serial_parseLoop. Qed.

Lemma serial_decoder_agrees_witness :
  Serial.parseFrames [0x00; 0x11; 0xEF; 0x03; 0xFA; 0x00; 0x68; 0x00; 0x01;
                      0x9A; 0x07; 0xF9; 0x11]
  = Codec.parseFrames [0x00; 0x11; 0xEF; 0x03; 0xFA; 0x00; 0x68; 0x00; 0x01;
                       0x9A; 0x07; 0xF9; 0x11].
Proof.
  apply (serial_decoder_agrees
           [0x00; 0x11; 0xEF; 0x03; 0xFA; 0x00; 0x68; 0x00; 0x01;
            0x9A; 0x07; 0xF9; 0x11]).
  repeat constructor; unfold byte_ok; lia.
Defined.

End StreamFacts.

(** ** Dispatching responses *)

Module DispatchFacts.
Import JS Codec Channel JSFacts CodecFacts ChannelFacts Stream StreamFacts.

Lemma onData_fold (chunk : list Z) (st : state) :
  onData chunk st
  = fold_left (fun s f => handleResponse f s)
      (frames (parseFrames (buffer st ++ chunk)).1)
      (with_buffer (parseFrames (buffer st ++ chunk)).2 st).
Proof. reflexivity. Qed.

Lemma handleResponse_with_buffer (f : Frame) (b : list Z) (st : state) :
  handleResponse f (with_buffer b st) = with_buffer b (handleResponse f st).
Proof.
  unfold handleResponse, with_buffer. cbn.
  now destruct (responseCallbacks st !! cmd f).
Qed.

Lemma frames_with_buffer (fs : list Frame) (b : list Z) (st : state) :
  fold_left (fun s f => handleResponse f s) fs (with_buffer b st)
  = with_buffer b (fold_left (fun s f => handleResponse f s) fs st).
Proof.
  revert st. induction fs as [| f fs IH]; intros st; [reflexivity |].
  cbn. now rewrite handleResponse_with_buffer, IH.
Qed.

Lemma with_buffer_twice (b b' : list Z) (st : state) :
  with_buffer b (with_buffer b' st) = with_buffer b st.
Proof. reflexivity. Qed.

Lemma buffer_with_buffer (b : list Z) (st : state) :
  buffer (with_buffer b st) = b.
Proof. reflexivity. Qed.

Lemma onData_buffer (chunk : list Z) (st : state) :
  buffer (onData chunk st) = (parseFrames (buffer st ++ chunk)).2.
Proof. rewrite onData_fold, frames_with_buffer. reflexivity. Qed.

Lemma onData_app (a b : list Z) (st : state) :
  onData b (onData a st) = onData (a ++ b) st.
Proof.
  set (r := parseFrames (buffer st ++ a)).
  assert (Ha : onData a st
               = with_buffer r.2
                   (fold_left (fun s f => handleResponse f s) (frames r.1) st))
    by (rewrite onData_fold, frames_with_buffer; reflexivity).
  assert (Hab : parseFrames ((buffer st ++ a) ++ b)
                = (r.1 ++ (parseFrames (r.2 ++ b)).1,
                   (parseFrames (r.2 ++ b)).2))
    by apply parseFrames_app.
  rewrite (onData_fold (a ++ b)), app_assoc, Hab. cbn [fst snd].
  rewrite (onData_fold b), Ha, buffer_with_buffer.
  rewrite !frames_with_buffer, with_buffer_twice, frames_app, fold_left_app.
  reflexivity.
Qed.

(** X5. How the byte stream is cut into
    notifications does not matter: handing the data callback a chunk [a] and
    then a chunk [b] leaves the channel (callback table, timers, promises,
    buffered bytes) in the state a single notification [a ++ b] leaves it
    in, from any state and for any bytes. *)
Theorem notifications_compose (a b : list Z) (st : state) :
  onData b (onData a st) = onData (a ++ b) st.
Proof. apply onData_app. Qed.

Lemma send_buffer (dr : driver) (c : Z) (d : option (list Z)) (s : Z)
  (st : state) : buffer (send dr c d s st).2 = buffer st.
Proof.
  destruct dr as [| silent]; cbn; [reflexivity |].
  unfold sendCmd. now destruct (connected st).
Qed.

Lemma parseFrames_wire (f : Frame) :
  fits f -> parseFrames (wire f) = ([ValidFrame f], []).
Proof.
  intros Hf. pose proof Hf as (Hc & Hs & Hd & Hn).
  rewrite wire_encoded by assumption. unfold parseFrames.
  rewrite parseLoop_one_encoded by assumption. now destruct f.
Qed.

(** X6. A response that arrives in two pieces
    resolves its command: after a send of command [c] on a connected device
    with an empty receive buffer, a first notification holding a proper
    prefix of the response frame surfaces nothing, drops nothing and leaves
    the promise pending; the notification with the rest resolves the
    promise with the frame, deletes the callback of [c], clears the timer
    and leaves the buffer empty, so that the timer firing later changes
    nothing. *)
Theorem split_response_resolves (dr : driver) (st : state) (c : Z)
  (d : option (list Z)) (s : Z) (response : Frame) (a b : list Z) :
  wf st -> connected st = true -> buffer st = [] ->
  fits response -> cmd response = c -> wire response = a ++ b -> b <> [] ->
  let p := (send dr c d s st).1 in
  let st1 := (send dr c d s st).2 in
  let st2 := onData a st1 in
  let st3 := onData b st2 in
  promises st2 !! p = Some Pending
  /\ buffer st2 = a
  /\ promises st3 !! p = Some (Resolved response)
  /\ responseCallbacks st3 !! c = None
  /\ timers st3 !! p = None
  /\ buffer st3 = []
  /\ fireTimeout p st3 = st3.
Proof.
  intros Hwf Hconn Hbuf Hfit Hcmd Hcut Hb p st1 st2 st3.
  destruct (send_waiting dr st c d s Hwf Hconn) as [Hw Hcb].
  fold p st1 in Hw, Hcb.
  assert (Hbuf1 : buffer st1 = []) by (subst st1; now rewrite send_buffer).
  pose proof Hfit as (Hc & Hs & Hd & Hn).
  assert (Hpre : parseFrames a = ([], a)).
  { apply (parseFrames_prefix (cmd response) (status response)
             (data response) a b); try assumption.
    now rewrite <- wire_encoded. }
  assert (E2 : st2 = with_buffer a st1).
  { subst st2. rewrite onData_fold, Hbuf1. cbn [app]. now rewrite Hpre. }
  assert (E3 : st3 = handleResponse response (with_buffer [] st1)).
  { subst st3 st2. rewrite onData_app, onData_fold, Hbuf1. cbn [app].
    now rewrite <- Hcut, parseFrames_wire. }
  destruct Hw as (_ & Hpend & _).
  assert (T3 : timers st3 !! p = None).
  { rewrite E3. unfold handleResponse. cbn. rewrite Hcmd, Hcb. cbn.
    apply lookup_delete_eq. }
  refine (conj _ (conj _ (conj _ (conj _ (conj T3 (conj _ _)))))).
  - now rewrite E2.
  - now rewrite E2.
  - rewrite E3. unfold handleResponse. cbn. rewrite Hcmd, Hcb. cbn.
    now apply settle_lookup_eq.
  - rewrite E3. unfold handleResponse. cbn. rewrite Hcmd, Hcb. cbn.
    apply lookup_delete_eq.
  - rewrite E3. unfold handleResponse. cbn. now rewrite Hcmd, Hcb.
  - unfold fireTimeout. now rewrite T3.
Qed.

(** X7. Two sends of the same command
    that overlap share one callback slot: when command [c] is sent again
    before the first send is answered, the time-out of the first send
    deletes the callback of the second; a response for [c] arriving after
    that is dropped, the second promise stays pending and is rejected when
    its own timer fires. *)
Theorem overlapping_sends_lose_response (dr dr' : driver) (st : state)
  (c : Z) (d d' : option (list Z)) (s s' : Z) (response : Frame) :
  wf st -> connected st = true -> cmd response = c ->
  let p1 := (send dr c d s st).1 in
  let st1 := (send dr c d s st).2 in
  let p2 := (send dr' c d' s' st1).1 in
  let st2 := (send dr' c d' s' st1).2 in
  let st3 := fireTimeout p1 st2 in
  p1 <> p2
  /\ promises st2 !! p1 = Some Pending
  /\ promises st2 !! p2 = Some Pending
  /\ promises st3 !! p1 = Some (Rejected timeout_message)
  /\ responseCallbacks st3 !! c = None
  /\ handleResponse response st3 = st3
  /\ promises st3 !! p2 = Some Pending
  /\ promises (fireTimeout p2 st3) !! p2 = Some (Rejected timeout_message).
Proof.
  intros Hwf Hconn Hcmd p1 st1 p2 st2 st3.
  destruct (send_waiting dr st c d s Hwf Hconn) as [Hw1 _].
  fold p1 st1 in Hw1.
  assert (Hwf1 : wf st1) by (now apply wf_send).
  assert (Hconn1 : connected st1 = true).
  { subst st1. now rewrite (proj2 (proj2 (send_nextId dr c d s st))). }
  destruct (send_waiting dr' st1 c d' s' Hwf1 Hconn1) as [Hw2 _].
  fold p2 st2 in Hw2.
  pose proof (waiting_send dr' st1 c c p1 d' s' Hw1) as Hw12.
  fold st2 in Hw12.
  assert (Hne : p1 <> p2).
  { destruct Hw1 as (_ & _ & Hlt & _).
    pose proof (proj1 (send_nextId dr' c d' s' st1)) as E. fold p2 in E. lia. }
  destruct Hw12 as ([b1 Ht1] & Hp1 & _).
  pose proof (waiting_fireTimeout st2 c p2 p1 Hw2 Hne) as Hw3.
  fold st3 in Hw3. destruct Hw3 as ([b2 Ht2] & Hp2 & _).
  assert (Hgone : responseCallbacks st3 !! c = None).
  { subst st3. unfold fireTimeout. rewrite Ht1. cbn. apply lookup_delete_eq. }
  refine (conj Hne (conj Hp1 (conj _ (conj _
            (conj Hgone (conj _ (conj Hp2 _))))))).
  - now destruct Hw2 as (_ & ? & _).
  - subst st3. unfold fireTimeout. rewrite Ht1. cbn. now apply settle_lookup_eq.
  - unfold handleResponse. now rewrite Hcmd, Hgone.
  - unfold fireTimeout. rewrite Ht2. cbn. now apply settle_lookup_eq.
Qed.

(** *** Timers and promises *)

Lemma armed_init : armed init.
Proof.
  refine (conj _ (conj _ _)).
  - intros c cb H. cbn in H. rewrite lookup_empty in H. discriminate.
  - intros id t H. cbn in H. rewrite lookup_empty in H. discriminate.
  - intros p H. cbn in H. rewrite lookup_empty in H. discriminate.
Qed.

Lemma armed_send (dr : driver) (c : Z) (d : option (list Z)) (s : Z)
  (st : state) : wf st -> armed st -> armed (send dr c d s st).2.
Proof.
  intros [Wcb Wtm] (I1 & I2 & I3).
  assert (Hreg : forall (b : bool) sil w,
    armed (mkState (<[c := mkCallback (nextId st) (nextId st)]>
                      (responseCallbacks st)) sil
                   (<[nextId st := mkTimer c (nextId st) b]> (timers st))
                   (<[nextId st := Pending]> (promises st))
                   (S (nextId st)) (buffer st) w (connected st))).
  { intros b sil w. refine (conj _ (conj _ _)); cbn.
    - intros k cb Hk. destruct (decide (c = k)) as [<- | Hk'].
      + rewrite lookup_insert_eq in Hk. injection Hk as <-. cbn.
        split; [reflexivity |]. exists b. apply lookup_insert_eq.
      + rewrite lookup_insert_ne in Hk by assumption.
        destruct (I1 _ _ Hk) as (E & b' & Hb'). split; [exact E |].
        exists b'. apply Wcb in Hk. rewrite lookup_insert_ne by lia. exact Hb'.
    - intros id t Hid. destruct (decide (nextId st = id)) as [<- | Hk'].
      + rewrite lookup_insert_eq in Hid. injection Hid as <-. cbn.
        split; [reflexivity | apply lookup_insert_eq].
      + rewrite lookup_insert_ne in Hid by assumption.
        rewrite lookup_insert_ne by assumption. now apply I2.
    - intros p Hp. destruct (decide (nextId st = p)) as [<- | Hk'].
      + rewrite lookup_insert_eq. eauto.
      + rewrite lookup_insert_ne in Hp by assumption.
        rewrite lookup_insert_ne by assumption. now apply I3. }
  destruct dr as [| silent]; cbn; [apply Hreg |].
  unfold sendCmd. destruct (connected st); cbn; [apply Hreg |].
  refine (conj I1 (conj _ _)); cbn.
  - intros id t Hid. destruct (I2 _ _ Hid) as [E Hp]. split; [exact E |].
    apply Wtm in Hid. rewrite lookup_insert_ne by lia. exact Hp.
  - intros p Hp. destruct (decide (nextId st = p)) as [<- | Hk'].
    + rewrite lookup_insert_eq in Hp. discriminate.
    + rewrite lookup_insert_ne in Hp by assumption. now apply I3.
Qed.

Lemma armed_fireTimeout (id : nat) (st : state) :
  armed st -> armed (fireTimeout id st).
Proof.
  intros (I1 & I2 & I3). unfold fireTimeout.
  destruct (timers st !! id) as [t |] eqn:Hid;
    [| exact (conj I1 (conj I2 I3))].
  destruct (I2 _ _ Hid) as [Et Hpend].
  refine (conj _ (conj _ _)); cbn.
  - intros k cb Hk. apply lookup_delete_Some in Hk as [Hne Hk].
    destruct (I1 _ _ Hk) as (E & b & Hb). split; [exact E |].
    exists b. rewrite lookup_delete_ne; [exact Hb |].
    intros Heq. rewrite <- Heq, Hid in Hb. injection Hb as ->. now cbn in Hne.
  - intros id' t' Hid'. apply lookup_delete_Some in Hid' as [Hne Hid'].
    destruct (I2 _ _ Hid') as [E Hp]. split; [exact E |].
    rewrite Et, settle_lookup_ne by assumption. exact Hp.
  - intros p Hp. rewrite Et in Hp.
    destruct (decide (id = p)) as [<- | Hne].
    + rewrite (settle_lookup_eq _ _ _ Hpend) in Hp. discriminate.
    + rewrite settle_lookup_ne in Hp by assumption.
      rewrite lookup_delete_ne by assumption. now apply I3.
Qed.

Lemma armed_handleResponse (f : Frame) (st : state) :
  armed st -> armed (handleResponse f st).
Proof.
  intros (I1 & I2 & I3). unfold handleResponse.
  destruct (responseCallbacks st !! cmd f) as [cb |] eqn:Hf;
    [| exact (conj I1 (conj I2 I3))].
  destruct (I1 _ _ Hf) as (Ecb & b & Hb).
  destruct (I2 _ _ Hb) as [_ Hpend].
  refine (conj _ (conj _ _)); cbn.
  - intros k cb' Hk. apply lookup_delete_Some in Hk as [Hne Hk].
    destruct (I1 _ _ Hk) as (E & b' & Hb'). split; [exact E |].
    exists b'. rewrite lookup_delete_ne; [exact Hb' |].
    intros Heq. apply Hne. rewrite <- Heq, Hb in Hb'. congruence.
  - intros id' t' Hid'. apply lookup_delete_Some in Hid' as [Hne Hid'].
    destruct (I2 _ _ Hid') as [E Hp]. split; [exact E |].
    rewrite Ecb, settle_lookup_ne by assumption. exact Hp.
  - intros p Hp. rewrite Ecb in Hp.
    destruct (decide (cb_timeoutId cb = p)) as [<- | Hne].
    + rewrite (settle_lookup_eq _ _ _ Hpend) in Hp. discriminate.
    + rewrite settle_lookup_ne in Hp by assumption.
      rewrite lookup_delete_ne by assumption. now apply I3.
Qed.

Lemma armed_frames (fs : list Frame) (st : state) :
  armed st -> armed (fold_left (fun s f => handleResponse f s) fs st).
Proof.
  revert st. induction fs as [| f fs IH]; intros st H; [exact H |].
  cbn. apply IH. now apply armed_handleResponse.
Qed.

Lemma armed_act (a : action) (st : state) :
  wf st -> armed st -> armed (act a st).
Proof.
  intros Hwf H. destruct a as [c' d s | c' d s silent | id | chunk]; cbn.
  - now apply (armed_send Extension).
  - now apply (armed_send (MainPage silent)).
  - now apply armed_fireTimeout.
  - unfold onData. apply armed_frames. exact H.
Qed.

Lemma armed_run (l : list action) (st : state) :
  wf st -> armed st -> armed (run l st).
Proof.
  revert st. induction l as [| a l IH]; intros st Hwf H; [exact H |].
  cbn. apply IH; [now apply wf_act | now apply armed_act].
Qed.

(** X8. No command waits for ever: in every state
    reached from the initial one by sends (of either driver), notifications
    and time-outs, a promise is pending exactly when its timer is still
    armed; every registered callback belongs to a pending promise whose
    timer is armed for the same command; and an armed timer that fires
    rejects its promise. *)
Theorem pending_iff_timer_armed (l : list action) :
  let st := run l init in
  (forall p, promises st !! p = Some Pending <-> is_Some (timers st !! p))
  /\ (forall c cb, responseCallbacks st !! c = Some cb ->
        promises st !! cb_promise cb = Some Pending
        /\ exists b,
             timers st !! cb_timeoutId cb = Some (mkTimer c (cb_promise cb) b))
  /\ (forall p, is_Some (timers st !! p) ->
        exists m, promises (fireTimeout p st) !! p = Some (Rejected m)).
Proof.
  intros st.
  destruct (armed_run l init wf_init armed_init) as (I1 & I2 & I3).
  fold st in I1, I2, I3.
  refine (conj _ (conj _ _)).
  - intros p. split; [apply I3 |]. intros [t Ht]. now apply (I2 _ _ Ht).
  - intros c cb Hcb. destruct (I1 _ _ Hcb) as (E & b & Hb).
    rewrite E. split; [now apply (I2 _ _ Hb) | eauto].
  - intros p [t Ht]. destruct (I2 _ _ Ht) as [E Hp].
    exists timeout_message. unfold fireTimeout. rewrite Ht. cbn.
    rewrite E. now apply settle_lookup_eq.
Qed.

Lemma split_response_resolves_witness :
  let response := mkFrame 1025 0x68 [1; 2; 3] in
  let a := [0x11; 0xEF; 0x04; 0x01; 0x00] in
  let b := [0x68; 0x00; 0x03; 0x90; 1; 2; 3; 0xFA] in
  let p := (send Extension 1025 None 0 init).1 in
  let st1 := (send Extension 1025 None 0 init).2 in
  let st2 := onData a st1 in
  let st3 := onData b st2 in
  promises st2 !! p = Some Pending
  /\ buffer st2 = a
  /\ promises st3 !! p = Some (Resolved response)
  /\ responseCallbacks st3 !! 1025 = None
  /\ timers st3 !! p = None
  /\ buffer st3 = []
  /\ fireTimeout p st3 = st3.
Proof.
  apply (split_response_resolves Extension init 1025 None 0
           (mkFrame 1025 0x68 [1; 2; 3])
           [0x11; 0xEF; 0x04; 0x01; 0x00]
           [0x68; 0x00; 0x03; 0x90; 1; 2; 3; 0xFA]).
  - exact wf_init.
  - reflexivity.
  - reflexivity.
  - now apply fits_example.
  - reflexivity.
  - vm_compute. reflexivity.
  - discriminate.
Defined.

Lemma overlapping_sends_lose_response_witness :
  let response := mkFrame 1018 0x68 [0] in
  let p1 := (send Extension 1018 None 0 init).1 in
  let st1 := (send Extension 1018 None 0 init).2 in
  let p2 := (send Extension 1018 None 0 st1).1 in
  let st2 := (send Extension 1018 None 0 st1).2 in
  let st3 := fireTimeout p1 st2 in
  p1 <> p2
  /\ promises st2 !! p1 = Some Pending
  /\ promises st2 !! p2 = Some Pending
  /\ promises st3 !! p1 = Some (Rejected timeout_message)
  /\ responseCallbacks st3 !! 1018 = None
  /\ handleResponse response st3 = st3
  /\ promises st3 !! p2 = Some Pending
  /\ promises (fireTimeout p2 st3) !! p2 = Some (Rejected timeout_message).
Proof.
  apply (overlapping_sends_lose_response Extension Extension init 1018
           None None 0 0 (mkFrame 1018 0x68 [0])).
  - exact wf_init.
  - reflexivity.
  - reflexivity.
Defined.

End DispatchFacts.

(** ** Runs of the slot commands *)

Module RunFacts.
Import JS Codec Exec Runs JSFacts CodecFacts ExecFacts SessionFacts.

Section Blocks.
Context {D L : Type}.
Variable device_cmd : device D.

Abbreviation M := (Exec.M D L).

Lemma writes_nothing_ret {A} (a : A) : writes_nothing (ret a : M A).
Proof. now intros w. Qed.

Lemma writes_nothing_return {A} : writes_nothing (return_ : M A).
Proof. now intros w. Qed.

Lemma writes_nothing_throw {A} (e : string) : writes_nothing (throw e : M A).
Proof. now intros w. Qed.

Lemma writes_nothing_log (isError : bool) (msg : L) :
  writes_nothing (log isError msg : M unit).
Proof. now intros w. Qed.

Lemma writes_nothing_cmd (c : Z) (payload : option (list Z)) :
  writes_nothing (cmd_ device_cmd c payload : M Frame).
Proof.
  intros w. unfold cmd_.
  now destruct (device_cmd (dev w) c payload) as [d' [r | e]].
Qed.

Lemma writes_nothing_bind {A B} (m : M A) (k : A -> M B) :
  writes_nothing m -> (forall a, writes_nothing (k a)) ->
  writes_nothing (bind m k).
Proof.
  intros Hm Hk w. unfold bind. specialize (Hm w).
  destruct (m w) as [w1 [a | | e]]; cbn [fst] in *; [| assumption ..].
  now rewrite Hk.
Qed.

Lemma writes_nothing_forEach {A} (body : Z -> A -> M A) (indices : list Z)
  (acc : A) :
  (forall i a, writes_nothing (body i a)) ->
  writes_nothing (forEach indices acc body).
Proof.
  intros Hbody. revert acc.
  induction indices as [| i indices IH]; intros acc; cbn [forEach].
  - apply writes_nothing_ret.
  - apply writes_nothing_bind; [apply Hbody | intros a; apply IH].
Qed.

Lemma writes_silent {A} (Q : list Z -> Prop) (m : M A) :
  writes_nothing m -> writes Q m.
Proof. intros H w. left. apply H. Qed.

(** What runs after a block that writes no file decides. *)
Lemma writes_bind {A B} (Q : list Z -> Prop) (P : A -> Prop) (m : M A)
  (k : A -> M B) :
  writes_nothing m -> yields P m -> (forall a, P a -> writes Q (k a)) ->
  writes Q (bind m k).
Proof.
  intros Hm Hy Hk w. unfold bind. specialize (Hm w). specialize (Hy w).
  destruct (m w) as [w1 [a | | e]]; cbn [fst snd] in *; [| now left ..].
  rewrite <- Hm. apply Hk. now apply Hy.
Qed.

Lemma yields_any {A} (m : M A) : yields (fun _ => True) m.
Proof. now intros w a _. Qed.

Lemma yields_bind {A B} (P : A -> Prop) (Q : B -> Prop) (m : M A)
  (k : A -> M B) :
  yields P m -> (forall a, P a -> yields Q (k a)) -> yields Q (bind m k).
Proof.
  intros Hm Hk w b. unfold bind. specialize (Hm w).
  destruct (m w) as [w1 [a | | e]]; cbn [fst snd] in *; try discriminate.
  apply Hk. now apply Hm.
Qed.

Lemma yields_forEach {A} (P : A -> Prop) (body : Z -> A -> M A)
  (Pi : Z -> Prop) (indices : list Z) (acc : A) :
  Forall Pi indices -> P acc ->
  (forall i a, Pi i -> P a -> yields P (body i a)) ->
  yields P (forEach indices acc body).
Proof.
  intros Hi Hacc Hbody. revert acc Hacc.
  induction Hi as [| i indices Hi _ IH]; intros acc Hacc; cbn [forEach].
  - intros w a [= <-]. exact Hacc.
  - apply (yields_bind P); [now apply Hbody | intros a Ha; now apply IH].
Qed.

Lemma only_silent {A} (P : request -> Prop) (m : M A) :
  (forall w, trace (m w).1 = trace w) -> only P m.
Proof.
  intros H w. exists []. rewrite app_nil_r. split; [apply H | constructor].
Qed.

Lemma only_cmd (P : request -> Prop) (c : Z) (payload : option (list Z)) :
  P (mkRequest c payload) -> only P (cmd_ device_cmd c payload : M Frame).
Proof.
  intros HP w. unfold cmd_.
  destruct (device_cmd (dev w) c payload) as [d' o].
  exists [(mkRequest c payload, o)].
  destruct o; cbn; (split; [reflexivity | now repeat constructor]).
Qed.

Lemma only_bind {A B} (P : request -> Prop) (m : M A) (k : A -> M B) :
  only P m -> (forall a, only P (k a)) -> only P (bind m k).
Proof.
  intros Hm Hk w. unfold bind. destruct (Hm w) as (new1 & Ht1 & Hp1).
  destruct (m w) as [w1 [a | | e]]; cbn [fst snd] in *; [| now exists new1 ..].
  destruct (Hk a w1) as (new2 & Ht2 & Hp2).
  exists (new1 ++ new2). split; [now rewrite Ht2, Ht1, app_assoc |].
  apply Forall_app. now split.
Qed.

Lemma only_forEach {A} (P : request -> Prop) (body : Z -> A -> M A)
  (indices : list Z) (acc : A) :
  (forall i a, only P (body i a)) -> only P (forEach indices acc body).
Proof.
  intros Hbody. revert acc.
  induction indices as [| i indices IH]; intros acc; cbn [forEach].
  - now apply only_silent.
  - apply only_bind; [apply Hbody | intros a; apply IH].
Qed.

Lemma only_try_catch_finally (P : request -> Prop) (body : M unit)
  (handler : string -> M unit) (fin : M unit) :
  only P body -> (forall e, only P (handler e)) -> only P fin ->
  only P (try_catch_finally body handler fin).
Proof.
  intros Hb Hh Hf w. unfold try_catch_finally.
  destruct (Hb w) as (n1 & T1 & P1).
  destruct (body w) as [w1 [[] | | e]]; cbn [fst snd] in *.
  - destruct (Hf w1) as (n2 & T2 & P2). exists (n1 ++ n2).
    split; [now rewrite T2, T1, app_assoc | apply Forall_app; now split].
  - destruct (Hf w1) as (n2 & T2 & P2). exists (n1 ++ n2).
    split; [| apply Forall_app; now split].
    destruct (fin w1) as [w2 [[] | | e2]]; cbn [fst] in *;
      now rewrite T2, T1, app_assoc.
  - destruct (Hh e w1) as (n2 & T2 & P2).
    destruct (handler e w1) as [w2 [[] | | e2]]; cbn [fst snd] in *.
    + destruct (Hf w2) as (n3 & T3 & P3). exists (n1 ++ n2 ++ n3).
      split; [now rewrite T3, T2, T1, <- !app_assoc |].
      repeat (apply Forall_app; split); assumption.
    + destruct (Hf w2) as (n3 & T3 & P3). exists (n1 ++ n2 ++ n3).
      split; [| repeat (apply Forall_app; split); assumption].
      destruct (fin w2) as [w3 [[] | | e3]]; cbn [fst] in *;
        now rewrite T3, T2, T1, <- !app_assoc.
    + destruct (Hf w2) as (n3 & T3 & P3). exists (n1 ++ n2 ++ n3).
      split; [| repeat (apply Forall_app; split); assumption].
      destruct (fin w2) as [w3 [[] | | e3]]; cbn [fst] in *;
        now rewrite T3, T2, T1, <- !app_assoc.
Qed.

Lemma writes_try_catch_finally (Q : list Z -> Prop) (body : M unit)
  (handler : string -> M unit) (fin : M unit) :
  writes Q body -> (forall e, writes_nothing (handler e)) ->
  writes_nothing fin -> writes Q (try_catch_finally body handler fin).
Proof.
  intros Hb Hh Hf w. unfold try_catch_finally.
  assert (Hfin : forall w1, files (fin w1).1 = files w1 /\
            files (match fin w1 with
                   | (w2, Normal tt) => (w2, @Returned unit)
                   | r => r
                   end).1 = files w1).
  { intros w1. specialize (Hf w1).
    now destruct (fin w1) as [w2 [[] | | e2]]. }
  assert (Hfin' : forall w1 e', 
            files (match fin w1 with
                   | (w2, Normal tt) => (w2, @Thrown unit e')
                   | r => r
                   end).1 = files w1).
  { intros w1 e'. specialize (Hf w1).
    now destruct (fin w1) as [w2 [[] | | e2]]. }
  assert (Hgoal : forall x : world D L * completion unit,
            files x.1 = files (body w).1 ->
            files x.1 = files w
            \/ exists path content,
                 files x.1 = files w ++ [(path, content)] /\ Q content).
  { intros x Hx. rewrite Hx. apply Hb. }
  apply Hgoal.
  destruct (body w) as [w1 [[] | | e]]; cbn [fst].
  - apply Hfin.
  - apply Hfin.
  - specialize (Hh e w1).
    destruct (handler e w1) as [w2 [[] | | e2]]; cbn [fst] in Hh;
      rewrite <- Hh; [apply Hfin | apply Hfin | apply Hfin'].
Qed.

End Blocks.

Ltac only_step :=
  match goal with
  | |- only _ (Exec.bind _ _) => apply only_bind; [| intros ?]
  | |- only _ (Exec.ret _) => now apply only_silent
  | |- only _ Exec.return_ => now apply only_silent
  | |- only _ (Exec.throw _) => now apply only_silent
  | |- only _ (Exec.log _ _) => now apply only_silent
  | |- only _ (Exec.cmd_ _ _ _) => apply only_cmd; cbn; tauto
  | |- only _ (if ?b then _ else _) => destruct b
  | |- only _ (match ?x with _ => _ end) => destruct x
  end.

Ltac quiet_step :=
  match goal with
  | |- writes_nothing (Exec.bind _ _) =>
    apply writes_nothing_bind; [| intros ?]
  | |- writes_nothing (Exec.ret _) => apply writes_nothing_ret
  | |- writes_nothing Exec.return_ => apply writes_nothing_return
  | |- writes_nothing (Exec.throw _) => apply writes_nothing_throw
  | |- writes_nothing (Exec.log _ _) => apply writes_nothing_log
  | |- writes_nothing (Exec.cmd_ _ _ _) => apply writes_nothing_cmd
  | |- writes_nothing (if ?b then _ else _) => destruct b
  | |- writes_nothing (match ?x with _ => _ end) => destruct x
  end.

(** *** [slot save] *)

Section Save.
Import Session.
Context {D : Type}.
Variable device_cmd : device D.
Variable fs_write : string -> list Z -> option bool.
Variable makeFilePath : string -> frequency -> Z -> string.

Lemma only_readTagData (freq : frequency) (tagType : Z) :
  only reads_only (readTagData device_cmd freq tagType).
Proof.
  unfold readTagData, readLoop, readChunk. cbv zeta.
  destruct freq.
  - destruct ((1100 <=? tagType) && (tagType <=? 1108)).
    + apply only_bind; [| intros ?; now apply only_silent].
      apply only_forEach. intros i a. repeat only_step.
    + destruct ((1000 <=? tagType) && (tagType <=? 1003)).
      * apply only_bind; [| intros ?; now apply only_silent].
        apply only_forEach. intros i a. repeat only_step.
      * repeat only_step.
  - destruct ((tagType =? 100) || (100 <=? tagType) && (tagType <=? 103));
      repeat only_step.
  - now apply only_silent.
Qed.

Lemma quiet_readTagData (freq : frequency) (tagType : Z) :
  writes_nothing (readTagData device_cmd freq tagType).
Proof.
  unfold readTagData, readLoop, readChunk. cbv zeta.
  destruct freq.
  - destruct ((1100 <=? tagType) && (tagType <=? 1108)).
    + apply writes_nothing_bind; [| intros ?; apply writes_nothing_ret].
      apply writes_nothing_forEach. intros i a. repeat quiet_step.
    + destruct ((1000 <=? tagType) && (tagType <=? 1003)).
      * apply writes_nothing_bind; [| intros ?; apply writes_nothing_ret].
        apply writes_nothing_forEach. intros i a. repeat quiet_step.
      * repeat quiet_step.
  - destruct ((tagType =? 100) || (100 <=? tagType) && (tagType <=? 103));
      repeat quiet_step.
  - apply writes_nothing_ret.
Qed.

Lemma only_writeFile {L} (P : request -> Prop) (path : string)
  (content : list Z) :
  only P (writeFile_ fs_write path content : Exec.M D L bool).
Proof.
  apply only_silent. intros w. unfold writeFile_.
  now destruct (fs_write path content).
Qed.

Lemma only_slotSaveBody (slotArg : option Z) (freq : frequency)
  (userPath : string) :
  only reads_only
    (slotSaveBody device_cmd fs_write makeFilePath slotArg freq userPath).
Proof.
  unfold slotSaveBody, currentSlotOr, switchToSlot. cbv zeta.
  apply only_bind; [repeat only_step | intros slotNum].
  apply only_bind; [repeat only_step | intros slotInfo].
  destruct (negb (status slotInfo =? SUCCESS)); [repeat only_step |].
  match goal with |- only _ (if ?b then _ else _) => destruct b end;
    [repeat only_step |].
  apply only_bind; [now apply only_silent | intros _].
  apply only_bind; [repeat only_step | intros _].
  apply only_bind; [apply only_readTagData | intros fileData].
  apply only_bind; [apply only_writeFile | intros ok].
  repeat only_step.
Qed.

Lemma writes_slotSaveBody (slotArg : option Z) (freq : frequency)
  (userPath : string) :
  writes (fun _ => True)
    (slotSaveBody device_cmd fs_write makeFilePath slotArg freq userPath).
Proof.
  unfold slotSaveBody, currentSlotOr, switchToSlot. cbv zeta.
  apply (writes_bind _ (fun _ => True));
    [repeat quiet_step | apply yields_any | intros slotNum _].
  apply (writes_bind _ (fun _ => True));
    [repeat quiet_step | apply yields_any | intros slotInfo _].
  destruct (negb (status slotInfo =? SUCCESS));
    [apply writes_silent; repeat quiet_step |].
  match goal with |- writes _ (if ?b then _ else _) => destruct b end;
    [apply writes_silent; repeat quiet_step |].
  apply (writes_bind _ (fun _ => True));
    [repeat quiet_step | apply yields_any | intros _ _].
  apply (writes_bind _ (fun _ => True));
    [repeat quiet_step | apply yields_any | intros _ _].
  apply (writes_bind _ (fun _ => True));
    [apply quiet_readTagData | apply yields_any | intros fileData _].
  intros w. right. eexists _, _. unfold bind, writeFile_, log.
  destruct (fs_write _ _) as [[|] |]; cbn; (split; [reflexivity | exact I]).
Qed.

Lemma completes_try_catch_log {L} (body : Exec.M D L unit)
  (caught : string -> L) (w : world D L) (m : string) :
  (try_catch body (fun err => log true (caught err)) w).2 <> Thrown m.
Proof.
  unfold try_catch, try_catch_finally, ret, log.
  now destruct (body w) as [w1 [[] | | e]].
Qed.

Lemma only_try_catch_log {L} (P : request -> Prop) (body : Exec.M D L unit)
  (caught : string -> L) :
  only P body -> only P (try_catch body (fun err => log true (caught err))).
Proof.
  intros H. apply only_try_catch_finally; [exact H | |];
    intros; now apply only_silent.
Qed.

Lemma writes_try_catch_log {L} (Q : list Z -> Prop)
  (body : Exec.M D L unit) (caught : string -> L) :
  writes Q body -> writes Q (try_catch body (fun err => log true (caught err))).
Proof.
  intros H w. specialize (H w).
  unfold try_catch, try_catch_finally, ret, log.
  now destruct (body w) as [w1 [[] | | e]].
Qed.

(** X9. [slot save] only reads: whatever the device
    answers, every command the operation issues is one of
    CMD_GET_ACTIVE_SLOT, CMD_GET_SLOT_INFO, CMD_SET_ACTIVE_SLOT, the two
    emulator read commands and CMD_EM410X_GET_EMU_ID (it never writes tag
    data, sets a tag type or saves the slot configuration); it writes at
    most one file; and it never ends by a throw, since the [catch] clause
    logs whatever the [try] block throws. *)
Theorem slot_save_only_reads (slotArg : option Z) (freq : frequency)
  (userPath : string) (w : world D message) :
  let r := slotSave device_cmd fs_write makeFilePath slotArg freq userPath w in
  (exists new,
     trace r.1 = trace w ++ new /\ Forall (fun e => reads_only e.1) new)
  /\ (forall m, r.2 <> Thrown m)
  /\ (files r.1 = files w
      \/ exists path content, files r.1 = files w ++ [(path, content)]).
Proof.
  cbv zeta. unfold slotSave.
  pose proof (only_slotSaveBody slotArg freq userPath) as Ho.
  pose proof (writes_slotSaveBody slotArg freq userPath) as Hw.
  assert (Hfiles : forall m : Exec.M D message unit,
            writes (fun _ => True) m ->
            files (m w).1 = files w
            \/ exists path content,
                 files (m w).1 = files w ++ [(path, content)]).
  { intros m Hm. destruct (Hm w) as [E | (p & c & E & _)]; eauto. }
  destruct freq.
  - split; [apply only_try_catch_log, Ho |].
    split; [intros m; apply completes_try_catch_log |].
    apply Hfiles. now apply writes_try_catch_log.
  - split; [apply only_try_catch_log, Ho |].
    split; [intros m; apply completes_try_catch_log |].
    apply Hfiles. now apply writes_try_catch_log.
  - split; [exists []; now rewrite app_nil_r |].
    split; [discriminate | now left].
Qed.

End Save.

(** *** The size of a chunked read *)

Lemma sumZ_chunks (total : Z) (n : nat) : forall i : Z,
  (Z.to_nat (total - i) <= n)%nat ->
  sumZ (map (chunkSize total) (range_from n i total 32)) = Z.max 0 (total - i).
Proof.
  induction n as [| n IH]; intros i Hn; cbn [range_from].
  - cbn. lia.
  - destruct (Z.ltb_spec i total) as [Hlt | Hge]; [| cbn; lia].
    cbn [map sumZ fold_right]. fold (sumZ (map (chunkSize total)
      (range_from n (i + 32) total 32))).
    rewrite IH by lia. unfold chunkSize. lia.
Qed.

Lemma range_from_below (n : nat) (stop stride : Z) : forall i : Z,
  Forall (fun x => i <= x < stop) (range_from n i stop stride) \/ stride < 0.
Proof.
  destruct (Z.ltb_spec stride 0) as [Hneg | Hpos]; [now right |].
  intros i. left. revert i. induction n as [| n IH]; intros i; cbn.
  - constructor.
  - destruct (Z.ltb_spec i stop) as [Hlt | Hge]; [| constructor].
    constructor; [lia |].
    eapply Forall_impl; [apply IH |]. cbn. intros x Hx. lia.
Qed.

Lemma len_concat_chunks (total unit : Z) (indices : list Z)
  (rs : list Frame) :
  Forall (fun i => 0 <= i < total) indices ->
  Forall2 (fun i r => len (data r) = u8 (Z.min 32 (total - i)) * unit
                      /\ Forall byte_ok (data r)) indices rs ->
  len (concat (map data rs)) = sumZ (map (chunkSize total) indices) * unit
  /\ Forall byte_ok (concat (map data rs)).
Proof.
  intros Hi H. induction H as [| i r indices rs [Hl Hb] _ IH].
  - split; [reflexivity | constructor].
  - apply Forall_cons in Hi as [Hi0 Hi]. destruct (IH Hi) as [IHl IHb].
    cbn [map concat sumZ fold_right].
    fold (sumZ (map (chunkSize total) indices)).
    split; [| apply Forall_app; now split].
    rewrite len_app, IHl, Hl. unfold chunkSize.
    rewrite u8_byte by (unfold byte_ok; lia). lia.
Qed.

Section Read.
Import Session.
Context {D : Type}.
Variable device_cmd : device D.

(** A read loop served by the device returns [total] units of bytes. *)
Lemma readLoop_total (command total unit : Z)
  (failure : Z -> Z -> Z -> message) (w : world D message) :
  answers_reads device_cmd command unit -> 0 <= total ->
  exists w' allData,
    readLoop device_cmd command total failure w = (w', Normal allData)
    /\ len allData = total * unit /\ Forall byte_ok allData
    /\ console w' = console w /\ files w' = files w.
Proof.
  intros Hdev Htotal. unfold readLoop.
  destruct (forEach_readChunk_ok device_cmd command total unit failure Hdev
              (range_by 0 total 32) [] w)
    as (rs & w' & Hrun & _ & Hc & Hf & Hall).
  assert (Hi : Forall (fun i => 0 <= i < total) (range_by 0 total 32)).
  { unfold range_by. destruct (range_from_below
      (Z.to_nat (total - 0)) total 32 0) as [H | H]; [exact H | lia]. }
  destruct (len_concat_chunks total unit _ rs Hi Hall) as [Hl Hb].
  exists w', (concat (map data rs)). rewrite Hrun. cbn [app].
  split; [reflexivity |]. split; [| now repeat split].
  rewrite Hl. unfold range_by. rewrite sumZ_chunks by lia.
  now replace (Z.max 0 (total - 0)) with total by lia.
Qed.

End Read.

End RunFacts.

(** ** Saved images and the analyzer *)

Module ImageFacts.
Import JS Codec Exec Runs JSFacts CodecFacts ExecFacts SessionFacts RunFacts.
Import Text RFID RFIDFacts.
Local Open Scope string_scope.
Local Open Scope Z_scope.

(** *** The analyzers only ever touch [details] *)

Lemma parseNDEF_class (ndefData : list Z) (r : result) :
  same_class r (parseNDEF ndefData r).
Proof.
  unfold parseNDEF. destruct (len ndefData <? 3); [apply same_class_refl |].
  cbv zeta. apply same_class_set_detail.
Qed.

Lemma checkNDEF_class (data : list Z) (r : result) :
  same_class r (checkNDEF data r).
Proof.
  unfold checkNDEF. cbv zeta. destruct (find _ _) as [ndefOffset |].
  - destruct (_ <=? _); [| now repeat split].
    eapply same_class_trans; [| apply parseNDEF_class]. now repeat split.
  - apply same_class_set_detail.
Qed.

Lemma extractText_class (data : list Z) (r : result) :
  same_class r (extractText data r).
Proof.
  unfold extractText. cbv zeta.
  destruct (0 <? length _)%nat;
    [apply same_class_set_detail | apply same_class_refl].
Qed.

Lemma analyzeNTAG_class (data : list Z) (r : result) :
  same_class r (analyzeNTAG data r).
Proof.
  unfold analyzeNTAG. cbv zeta.
  destruct (16 <=? len data); destruct (12 <=? len data); now repeat split.
Qed.

Lemma analyzeMifareClassic_class (data : list Z) (r : result) :
  same_class r (analyzeMifareClassic data r).
Proof.
  unfold analyzeMifareClassic. cbv zeta.
  destruct (16 <=? len data); now repeat split.
Qed.

Lemma analyzeHF_class (data : list Z) (r : result) :
  same_class r (analyzeHF data r).
Proof.
  unfold analyzeHF. cbv zeta.
  eapply same_class_trans; [| apply extractText_class].
  eapply same_class_trans; [| apply checkNDEF_class].
  match goal with
  | |- same_class _ (match tagType ?r0 with _ => _ end) =>
    assert (Hr0 : same_class r r0) by (now repeat split);
    destruct (tagType r0) as [t |]; [| exact Hr0];
    destruct (String.prefix "NTAG" t);
      [eapply same_class_trans; [exact Hr0 | apply analyzeNTAG_class] |];
    destruct (includes "Mifare Classic" t);
      [eapply same_class_trans; [exact Hr0 | apply analyzeMifareClassic_class]
      | exact Hr0]
  end.
Qed.

(** A buffer whose size is in the table of an HF tag. *)
Lemma analyze_exact_size
  (readFile : option (string -> option (option (list Z)))) (data : list Z)
  (sig : signature) :
  find (fun sig => sig_size sig =? len data) tagSignatures = Some sig ->
  String.prefix "ntag" (sig_key sig) || String.prefix "mifare" (sig_key sig)
  = true ->
  0 < len data ->
  exists r, analyze readFile (Buffer data) = Report r
            /\ tagType r = Some (sig_name sig) /\ frequency_ r = Some HF
            /\ confidence r = 90.
Proof.
  intros Hfind Hkey Hpos. unfold analyze.
  destruct (Z.eqb_spec (len data) 0) as [E | _]; [lia |]. cbv zeta.
  assert (Hd : detectTagType data (blank data)
               = mkResult (len data) (len data * 8) (Some HF)
                          (Some (sig_name sig)) 90 ∅ data).
  { unfold detectTagType. cbv zeta. rewrite Hfind, Hkey. reflexivity. }
  rewrite Hd. cbn [frequency_]. eexists. split; [reflexivity |].
  match goal with
  | |- context [analyzeHF data ?r0] =>
    destruct (analyzeHF_class data r0) as (Hf & Ht & Hc)
  end.
  rewrite Hf, Ht, Hc. now repeat split.
Qed.

(** X10. Saving and analyzing agree on the image
    sizes: for each of the nine HF tag types with an entry in the page or
    block count tables of [slot save] (NTAG 210/212/213/215/216, Mifare
    Mini/1K/2K/4K) and a device that serves the chunked reads, the image
    read for the file has the size the analyzer lists for that tag, so
    [analyze] reports it as that very tag type, HF, with confidence 90. *)
Theorem saved_image_is_recognised {D} (device_cmd : device D)
  (readFile : option (string -> option (option (list Z))))
  (slotType : Z) (name : string) (w : world D Session.message) :
  serves_reads device_cmd -> imageName slotType = Some name ->
  exists w' fileData r,
    Session.readTagData device_cmd Session.hf slotType w
    = (w', Normal fileData)
    /\ analyze readFile (Buffer fileData) = Report r
    /\ tagType r = Some name /\ frequency_ r = Some HF /\ confidence r = 90.
Proof.
  intros [Hpages Hblocks] Hname. unfold imageName in Hname.
  repeat match type of Hname with
         | (if ?a =? ?b then _ else _) = _ =>
           destruct (Z.eqb_spec a b) as [-> | _]
         end; try discriminate; injection Hname as <-.
  all: unfold Session.readTagData; cbn [andb Z.leb Z.compare Pos.compare
         Pos.compare_cont Session.pageCounts Session.blockCounts Z.eqb
         Pos.eqb].
  all: cbv zeta.
  all: match goal with
       | |- context [Session.readLoop _ ?c ?total ?f] =>
         first
           [ destruct (readLoop_total device_cmd c total 4 f w Hpages
                         ltac:(lia)) as (w' & allData & Hrun & Hl & Hb & _)
           | destruct (readLoop_total device_cmd c total 16 f w Hblocks
                         ltac:(lia)) as (w' & allData & Hrun & Hl & Hb & _) ]
       end.
  all: unfold bind; rewrite Hrun; unfold ret.
  all: rewrite map_u8_bytes by assumption.
  all: edestruct (analyze_exact_size readFile allData)
         as (r & Hr & Ht & Hf & Hc);
         [rewrite Hl; reflexivity | reflexivity | rewrite Hl; lia |].
  all: exists w', allData, r; repeat split; assumption.
Qed.

Lemma zero_tag_serves : serves_reads zero_tag.
Proof.
  split; intros d i n Hi Hn; eexists d, _; (split; [reflexivity |]);
    cbn [Codec.status Codec.data];
    (split; [reflexivity |]); unfold byte_ok in Hn;
    (split; [unfold len; rewrite length_replicate; cbn; lia
            | apply Forall_replicate; unfold byte_ok; lia]).
Qed.

Lemma saved_image_is_recognised_witness :
  exists w' fileData r,
    Session.readTagData zero_tag Session.hf 1003 (Session.fresh_world tt)
    = (w', Normal fileData)
    /\ analyze None (Buffer fileData) = Report r
    /\ tagType r = Some "Mifare Classic 4K" /\ frequency_ r = Some HF
    /\ confidence r = 90.
Proof.
  apply (saved_image_is_recognised zero_tag None 1003 "Mifare Classic 4K"
           (Session.fresh_world tt)).
  - exact zero_tag_serves.
  - reflexivity.
Defined.

End ImageFacts.

(** ** Runs of the scan-and-save script *)

Module ScanFacts.
Import JS Codec Exec Scanner Runs JSFacts CodecFacts ExecFacts RunFacts.

Lemma length_set_at (target src : list Z) (offset : Z) :
  0 <= offset -> offset + len src <= len target ->
  len (set_at target src offset) = len target.
Proof.
  unfold set_at, len. intros H0 H.
  rewrite !length_app, length_take, length_map, length_drop. lia.
Qed.

Lemma len_slice_le {A} (l : list A) (lo hi : Z) :
  len (slice l lo hi) <= Z.max 0 (hi - lo).
Proof. unfold slice, len. rewrite length_take. lia. Qed.

Section Script.
Context {D : Type}.
Variable device_cmd : device D.
Variable fs_write : string -> list Z -> option bool.
Variable makeFileName : list Z -> string.

Lemma quiet_scanLoop (attempts : list Z) (scanResponse : option Frame) :
  writes_nothing (scanLoop device_cmd attempts scanResponse).
Proof.
  revert scanResponse.
  induction attempts as [| attempt rest IH]; intros scanResponse;
    cbn [scanLoop].
  - apply writes_nothing_ret.
  - apply writes_nothing_bind; [apply writes_nothing_cmd | intros r].
    destruct (0 <? len (data r)); [repeat quiet_step |].
    apply writes_nothing_bind; [| intros _; apply IH].
    unfold sleep. repeat quiet_step.
Qed.

(** One turn of the scan loop. *)
Lemma scanLoop_cons (attempt : Z) (rest : list Z)
  (scanResponse : option Frame) (w : world D message) :
  scanLoop device_cmd (attempt :: rest) scanResponse w
  = match device_cmd (dev w) CMD_HF14A_SCAN None with
    | (d', Response f) =>
      let t := trace w ++ [(scanRequest, Response f)] in
      if 0 <? len (data f) then
        (mkWorld d' t (console w ++ [(false, TagDetectedOnAttempt attempt)])
                 (files w), Normal (Some f))
      else
        scanLoop device_cmd rest (Some f)
          (mkWorld d' t
             (if attempt <? maxRetries
              then console w ++ [(false, NoTagRetrying attempt)]
              else console w)
             (files w))
    | (d', Throws e) =>
      (mkWorld d' (trace w ++ [(scanRequest, Throws e)]) (console w)
               (files w), Thrown e)
    end.
Proof.
  cbn [scanLoop]. unfold bind at 1, cmd_ at 1.
  change (mkRequest CMD_HF14A_SCAN None) with scanRequest.
  destruct (device_cmd (dev w) CMD_HF14A_SCAN None) as [d' [f | e]];
    [| reflexivity].
  cbv zeta. destruct (0 <? len (data f)); [reflexivity |].
  now destruct (attempt <? maxRetries).
Qed.

(** The scan loop scans until an answer carries data, at most once per
    attempt. *)
Lemma scanLoop_trace (attempts : list Z) : forall (w : world D message)
  (scanResponse : option Frame),
  attempts <> [] ->
  exists (empties : list Frame) (last : outcome),
    trace (scanLoop device_cmd attempts scanResponse w).1
    = trace w ++ map (fun f => (scanRequest, Response f)) empties
              ++ [(scanRequest, last)]
    /\ Forall (fun f => len (data f) = 0) empties
    /\ (length empties < length attempts)%nat
    /\ match last with
       | Throws e =>
         (scanLoop device_cmd attempts scanResponse w).2 = Thrown e
       | Response f =>
         (scanLoop device_cmd attempts scanResponse w).2 = Normal (Some f)
         /\ (len (data f) = 0 -> S (length empties) = length attempts)
       end.
Proof.
  induction attempts as [| attempt rest IH]; intros w scanResponse Hne;
    [easy |].
  rewrite scanLoop_cons.
  destruct (device_cmd (dev w) CMD_HF14A_SCAN None) as [d' [f | e]].
  - cbv zeta. pose proof (len_nonneg (data f)) as Hl0.
    destruct (Z.ltb_spec 0 (len (data f))) as [Hpos | Hz].
    + exists [], (Response f). cbn [fst snd trace map app length].
      split; [reflexivity |]. split; [constructor |].
      split; [lia |]. split; [reflexivity | lia].
    + destruct rest as [| attempt' rest].
      * exists [], (Response f).
        cbn [scanLoop ret fst snd trace map app length].
        split; [reflexivity |]. split; [constructor |].
        split; [lia |]. split; [reflexivity | reflexivity].
      * match goal with
        | |- context [scanLoop device_cmd ?l ?sr ?w2] =>
          destruct (IH w2 sr ltac:(discriminate))
            as (empties & last & Ht & He & Hl & Hlast)
        end.
        exists (f :: empties), last. rewrite Ht.
        cbn [trace map app length]. rewrite <- !app_assoc. cbn [app].
        split; [reflexivity |].
        split; [constructor; [lia | exact He] |].
        split; [cbn [length] in Hl; lia |].
        destruct last as [g | e]; [| exact Hlast].
        destruct Hlast as [Hc Hfull]. split; [exact Hc |].
        intros Hg. cbn [length] in *. now rewrite Hfull.
  - exists [], (Throws e). cbn [fst snd trace map app length].
    split; [reflexivity |]. split; [constructor |]. split; [lia | reflexivity].
Qed.

(** X11. The tag scan is retried at most five
    times and stops at the first answer that carries data: whatever the
    device does, the scan loop of the script issues between one and five
    CMD_HF14A_SCAN commands; every answer but the last has empty data; the
    loop ends with the last answer as the scan response, or with the error
    of a rejected scan; and a last answer with empty data is the fifth. *)
Theorem scan_retries_at_most_five (w : world D message) :
  let r := scanLoop device_cmd (range_by 1 (maxRetries + 1) 1) None w in
  exists (empties : list Frame) (last : outcome),
    trace r.1
    = trace w ++ map (fun f => (scanRequest, Response f)) empties
              ++ [(scanRequest, last)]
    /\ Forall (fun f => len (data f) = 0) empties
    /\ (length empties <= 4)%nat
    /\ match last with
       | Throws e => r.2 = Thrown e
       | Response f =>
         r.2 = Normal (Some f)
         /\ (len (data f) = 0 -> length empties = 4%nat)
       end.
Proof.
  cbv zeta.
  change (range_by 1 (maxRetries + 1) 1) with [1; 2; 3; 4; 5].
  destruct (scanLoop_trace [1; 2; 3; 4; 5] w None ltac:(discriminate))
    as (empties & last & Ht & He & Hl & Hlast).
  exists empties, last. cbn [length] in *.
  split; [exact Ht |]. split; [exact He |]. split; [lia |].
  destruct last as [f | e]; [| exact Hlast].
  destruct Hlast as [Hc Hfull]. split; [exact Hc |].
  intros Hf. specialize (Hfull Hf). lia.
Qed.

Lemma quiet_readAllPages : writes_nothing (readAllPages device_cmd).
Proof.
  unfold readAllPages. apply writes_nothing_forEach. intros page allData.
  cbv zeta. repeat quiet_step.
Qed.

(** The image keeps its 540 bytes whatever the tag answers. *)
Lemma yields_readAllPages :
  yields (fun allData => len allData = 540) (readAllPages device_cmd).
Proof.
  unfold readAllPages.
  apply (yields_forEach _ _ (fun page => 0 <= page < totalPages)).
  - unfold range_by. destruct (range_from_below
      (Z.to_nat (totalPages - 0)) totalPages 4 0) as [H | H]; [exact H | lia].
  - unfold len. now rewrite length_replicate.
  - intros page allData Hpage Hlen. cbv zeta.
    apply (yields_bind (fun _ => True)); [apply yields_any | intros r _].
    destruct (negb (status r =? 0)).
    + intros w a. unfold bind, log, return_. discriminate.
    + apply (yields_bind (fun _ => True)); [apply yields_any | intros _ _].
      intros w a [= <-]. rewrite length_set_at; [exact Hlen | |].
      * unfold pageSize. lia.
      * rewrite Hlen.
        pose proof (len_slice_le (slice (data r) 0 16) 0
                      (Z.min 16 ((totalPages - page) * pageSize))) as Hs.
        unfold totalPages, pageSize in *. lia.
Qed.

Lemma writes_scanBody :
  writes (fun content => len content = 540)
    (scanBody device_cmd fs_write makeFileName).
Proof.
  unfold scanBody. cbv zeta.
  apply (writes_bind _ (fun _ => True));
    [repeat quiet_step | apply yields_any | intros _ _].
  apply (writes_bind _ (fun _ => True));
    [repeat quiet_step | apply yields_any | intros modeResponse _].
  destruct (negb (status modeResponse =? 104));
    [apply writes_silent; repeat quiet_step |].
  apply (writes_bind _ (fun _ => True));
    [repeat quiet_step | apply yields_any | intros _ _].
  apply (writes_bind _ (fun _ => True));
    [unfold sleep; repeat quiet_step | apply yields_any | intros _ _].
  apply (writes_bind _ (fun _ => True));
    [repeat quiet_step | apply yields_any | intros _ _].
  apply (writes_bind _ (fun _ => True));
    [apply quiet_scanLoop | apply yields_any | intros scanResponse _].
  destruct scanResponse as [scanResponse |];
    [| apply writes_silent; repeat quiet_step].
  destruct (len (data scanResponse) =? 0);
    [apply writes_silent; repeat quiet_step |].
  destruct (at_ (data scanResponse) _) as [sak |];
    [| apply writes_silent; repeat quiet_step].
  apply (writes_bind _ (fun _ => True));
    [repeat quiet_step | apply yields_any | intros _ _].
  apply (writes_bind _ (fun _ => True));
    [repeat quiet_step | apply yields_any | intros _ _].
  apply (writes_bind _ (fun _ => True));
    [repeat quiet_step | apply yields_any | intros _ _].
  apply (writes_bind _ (fun allData => len allData = 540));
    [apply quiet_readAllPages | apply yields_readAllPages
    | intros allData Hlen].
  apply (writes_bind _ (fun _ => True));
    [repeat quiet_step | apply yields_any | intros _ _].
  apply (writes_bind _ (fun _ => True));
    [repeat quiet_step | apply yields_any | intros _ _].
  intros w. right. exists (makeFileName
    (slice (data scanResponse) 1
       (1 + default 0 (at_ (data scanResponse) 0)))), allData.
  split; [| exact Hlen].
  unfold bind, writeFile_, log.
  now destruct (fs_write _ _) as [ok |].
Qed.

Lemma quiet_restoreEmulatorMode :
  writes_nothing (restoreEmulatorMode device_cmd).
Proof.
  intros w. unfold restoreEmulatorMode, try_catch, try_catch_finally, bind,
    log, cmd_, ret. cbn.
  now destruct (device_cmd (dev w) CMD_SET_ACTIVE_MODE (Some [u8 0]))
    as [d' [r | e]].
Qed.

(** X12. The image the scan-and-save script writes is
    always 540 bytes long: whatever the device answers (short or long page
    data, errors, time-outs), a run of the script writes no file or exactly
    one, and the content of that file has the 540 bytes of an NTAG 215. *)
Theorem scan_writes_540_bytes (connected : bool) (w : world D message) :
  let r := scanAndSave device_cmd fs_write makeFileName connected w in
  files r.1 = files w
  \/ exists path content,
       files r.1 = files w ++ [(path, content)] /\ len content = 540.
Proof.
  cbv zeta.
  assert (H : writes (fun content => len content = 540)
                (scanAndSave device_cmd fs_write makeFileName connected));
    [| exact (H w)].
  unfold scanAndSave. destruct connected; cbn [negb];
    [| apply writes_silent; repeat quiet_step].
  apply (writes_bind _ (fun _ => True));
    [repeat quiet_step | apply yields_any | intros _ _].
  apply writes_try_catch_finally.
  - apply writes_scanBody.
  - intros e. apply writes_nothing_log.
  - apply quiet_restoreEmulatorMode.
Qed.

End Script.

End ScanFacts.

(** ** The write loops of [slot loadram/loadflash] *)

Module UploadFacts.
Import JS Codec Exec Session Upload JSFacts CodecFacts ExecFacts.

Lemma slice_min {A} (l : list A) (p u : Z) :
  0 <= p -> slice l p (p + Z.min u (len l - p)) = slice l p (p + u).
Proof.
  unfold slice, len. intros Hp.
  destruct (Z.le_gt_cases u (Z.of_nat (length l) - p)) as [Hle | Hgt].
  - now rewrite Z.min_l by lia.
  - rewrite Z.min_r by lia.
    rewrite !take_ge; [reflexivity | |]; rewrite length_drop; lia.
Qed.

Lemma length_slice_le {A} (l : list A) (lo hi : Z) :
  (length (slice l lo hi) <= Z.to_nat (hi - lo))%nat.
Proof. unfold slice. rewrite length_take. lia. Qed.

Lemma slice_bytes (l : list Z) (lo hi : Z) :
  Forall byte_ok l -> Forall byte_ok (slice l lo hi).
Proof. intros H. unfold slice. now apply Forall_take, Forall_drop. Qed.

Section Fill.
Variable fileData : list Z.
Variables unitSize header index : Z.
Hypothesis Hbytes : Forall byte_ok fileData.
Hypothesis Hunit : 0 < unitSize.
Hypothesis Hindex : 0 <= index.

Let step (cmdData : list Z) (i : Z) : list Z :=
  let srcOffset := (index + i) * unitSize in
  let destOffset := header + i * unitSize in
  let bytesToCopy := Z.min unitSize (len fileData - srcOffset) in
  set_at cmdData (slice fileData srcOffset (srcOffset + bytesToCopy))
         destOffset.

(** One turn of the inner loop fills the next unit of the request. *)
Lemma fill_step (hd done : list Z) (j rest : Z) :
  0 <= j -> 0 <= rest -> len hd = header -> len done = j * unitSize ->
  step (hd ++ done ++ replicate (Z.to_nat ((rest + 1) * unitSize)) 0) j
  = hd ++ (done ++ unitAt unitSize fileData (index + j))
       ++ replicate (Z.to_nat (rest * unitSize)) 0.
Proof.
  intros Hj Hrest Hhd Hdone. unfold step, unitAt. cbv zeta.
  rewrite slice_min by nia.
  set (s := slice fileData ((index + j) * unitSize)
                  ((index + j) * unitSize + unitSize)).
  pose proof (length_slice_le fileData ((index + j) * unitSize)
                ((index + j) * unitSize + unitSize)) as Hs. fold s in Hs.
  unfold set_at. rewrite map_u8_bytes by (now apply slice_bytes).
  unfold len in Hhd, Hdone.
  assert (E : Z.to_nat (header + j * unitSize)
              = (length hd + length done)%nat) by lia.
  rewrite E, (app_assoc hd done), <- (length_app hd done).
  rewrite take_app_length, <- drop_drop, drop_app_length.
  rewrite <- !app_assoc. do 3 f_equal.
  rewrite drop_replicate, <- replicate_add. f_equal. nia.
Qed.

Lemma fill_loop (n : nat) : forall (hd done : list Z) (j count : Z),
  0 <= j -> j <= count -> (Z.to_nat (count - j) <= n)%nat ->
  len hd = header -> len done = j * unitSize ->
  fold_left step (range_from n j count 1)
    (hd ++ done ++ replicate (Z.to_nat ((count - j) * unitSize)) 0)
  = hd ++ done
       ++ flat_map (fun i => unitAt unitSize fileData (index + i))
                   (range_from n j count 1).
Proof.
  induction n as [| n IH]; intros hd done j count Hj Hjc Hn Hhd Hdone.
  - cbn. replace (Z.to_nat ((count - j) * unitSize)) with 0%nat by nia.
    reflexivity.
  - cbn [range_from]. destruct (Z.ltb_spec j count) as [Hlt | Hge].
    + cbn [fold_left flat_map].
      replace ((count - j) * unitSize)
        with ((count - (j + 1) + 1) * unitSize) by lia.
      rewrite fill_step by (assumption || lia).
      rewrite IH; try (assumption || lia).
      * now rewrite <- !app_assoc.
      * rewrite len_app, Hdone. unfold unitAt, len. cbv zeta.
        rewrite length_app, length_replicate.
        pose proof (length_slice_le fileData ((index + j) * unitSize)
                      ((index + j) * unitSize + unitSize)). lia.
    + cbn.
      replace (Z.to_nat ((count - j) * unitSize)) with 0%nat by nia.
      reflexivity.
Qed.

(** The inner loop of the write loops fills the request with the units
    of the batch. *)
Lemma fillBatch_units (hd : list Z) (count : Z) :
  0 <= count -> len hd = header ->
  fillBatch fileData unitSize header index count
    (hd ++ replicate (Z.to_nat (count * unitSize)) 0)
  = hd ++ unitsFrom unitSize fileData index count.
Proof.
  intros Hc Hhd. unfold fillBatch, unitsFrom, range_by.
  pose proof (fill_loop (Z.to_nat (count - 0)) hd [] 0 count) as H.
  cbn [app] in H. rewrite Z.sub_0_r in *. apply H; try lia.
  reflexivity.
Qed.

End Fill.

Section Loops.
Context {D : Type}.
Variable device_cmd : device D.
Variable fileData : list Z.
Hypothesis Hbytes : Forall byte_ok fileData.

(** The request of one batch of the page write loop. *)
Lemma writePageBatch_request (totalPages pageIndex : Z) (u : unit) :
  0 <= pageIndex < totalPages ->
  let count := Z.min 32 (totalPages - pageIndex) in
  let rq := mkRequest CMD_MF0_NTAG_WRITE_EMU_PAGE_DATA
              (Some (u8 pageIndex :: u8 count
                     :: unitsFrom 4 fileData pageIndex count)) in
  writePageBatch device_cmd fileData totalPages pageIndex u
  = bind (cmd_ device_cmd (rq_cmd rq) (rq_data rq))
      (fun writeResult =>
         if negb (status writeResult =? SUCCESS) then
           bind (log true (ErrorWritingPages pageIndex
                             (pageIndex + count - 1) (status writeResult)))
                (fun _ => return_)
         else ret tt).
Proof.
  intros Hp count rq. unfold writePageBatch. cbv zeta. fold count.
  assert (Hc : 1 <= count) by (subst count; lia).
  assert (E : Z.to_nat (2 + count * 4) = S (S (Z.to_nat (count * 4)))) by lia.
  rewrite E. cbn [replicate]. rewrite insert_cons_0, insert_cons_S,
    insert_cons_0.
  pose proof (fillBatch_units fileData 4 2 pageIndex Hbytes ltac:(lia)
                ltac:(lia) [u8 pageIndex; u8 count] count ltac:(lia) eq_refl)
    as Hfill.
  cbn [app] in Hfill. rewrite Hfill. reflexivity.
Qed.

Lemma writeBlockBatch_request (totalBlocks blockIndex : Z) (u : unit) :
  0 <= blockIndex < totalBlocks ->
  let count := Z.min 32 (totalBlocks - blockIndex) in
  let rq := mkRequest CMD_MF1_WRITE_EMU_BLOCK_DATA
              (Some (u8 blockIndex
                     :: unitsFrom 16 fileData blockIndex count)) in
  writeBlockBatch device_cmd fileData totalBlocks blockIndex u
  = bind (cmd_ device_cmd (rq_cmd rq) (rq_data rq))
      (fun writeResult =>
         if negb (status writeResult =? SUCCESS) then
           bind (log true (ErrorWritingBlocks blockIndex
                             (blockIndex + count - 1) (status writeResult)))
                (fun _ => return_)
         else ret tt).
Proof.
  intros Hp count rq. unfold writeBlockBatch. cbv zeta. fold count.
  assert (Hc : 1 <= count) by (subst count; lia).
  assert (E : Z.to_nat (1 + count * 16) = S (Z.to_nat (count * 16))) by lia.
  rewrite E. cbn [replicate]. rewrite insert_cons_0.
  pose proof (fillBatch_units fileData 16 1 blockIndex Hbytes ltac:(lia)
                ltac:(lia) [u8 blockIndex] count ltac:(lia) eq_refl)
    as Hfill.
  cbn [app] in Hfill. rewrite Hfill. reflexivity.
Qed.

(** A loop of requests that the device accepts one after the other. *)
Lemma forEach_accepted (command : Z) (payload : Z -> option (list Z))
  (failure : Z -> Z -> message)
  (body : Z -> unit -> Exec.M D message unit) (indices : list Z) :
  accepts device_cmd command ->
  (forall i u, In i indices ->
     body i u
     = bind (cmd_ device_cmd command (payload i))
         (fun writeResult =>
            if negb (status writeResult =? SUCCESS) then
              bind (log true (failure i (status writeResult)))
                   (fun _ => return_)
            else ret tt)) ->
  forall w, exists w' rs,
    forEach indices tt body w = (w', Normal tt)
    /\ length rs = length indices
    /\ trace w'
       = trace w ++ zip_with (fun i r => (mkRequest command (payload i),
                                          Response r)) indices rs
    /\ console w' = console w /\ files w' = files w.
Proof.
  intros Hdev. induction indices as [| i indices IH]; intros Hbody w.
  - exists w, []. cbn. now rewrite app_nil_r.
  - destruct (Hdev (dev w) (payload i)) as (d' & r & Hr & Hs).
    set (w1 := mkWorld d'
                 (trace w ++ [(mkRequest command (payload i), Response r)])
                 (console w) (files w)).
    destruct (IH (fun j u Hj => Hbody j u (or_intror Hj)) w1)
      as (w' & rs & Hrun & Hlen & Ht & Hc & Hf).
    exists w', (r :: rs). cbn [forEach].
    rewrite (Hbody i tt (or_introl eq_refl)).
    unfold bind at 1, bind at 1, cmd_ at 1. rewrite Hr. fold w1.
    rewrite Hs, Z.eqb_refl. cbn [negb]. unfold ret at 1. rewrite Hrun.
    split; [reflexivity |]. split; [cbn; now rewrite Hlen |].
    split; [| now rewrite Hc, Hf].
    rewrite Ht. cbn [zip_with]. subst w1. cbn [trace].
    now rewrite <- app_assoc.
Qed.

End Loops.

Lemma range_by_In (start stop stride x : Z) :
  0 <= stride -> In x (range_by start stop stride) -> start <= x < stop.
Proof.
  intros Hs. unfold range_by.
  generalize (Z.to_nat (stop - start)). intros n. revert start.
  induction n as [| n IH]; intros start; cbn; [easy |].
  destruct (Z.ltb_spec start stop) as [Hlt | Hge]; [| easy].
  intros [<- | Hin]; [lia |]. apply IH in Hin. lia.
Qed.

(** X13. The write loops of [slot loadram/loadflash]
    send the whole file: with a device that accepts the writes, the page
    loop issues one request per batch of at most 32 pages, the request for
    the batch at page [i] carrying the page index (as a byte), the page
    count and then, page after page, the 4 bytes of the file at [4 * page],
    the last page filled with zeroes where the file ends; the block loop
    does the same with 16-byte blocks and no count byte.  The loop then
    logs the number of pages or blocks written. *)
Theorem load_sends_every_unit {D} (device_cmd : device D)
  (fileData : list Z) (w : world D message) :
  Forall byte_ok fileData ->
  (accepts device_cmd CMD_MF0_NTAG_WRITE_EMU_PAGE_DATA ->
   let totalPages := (len fileData + 4 - 1) / 4 in
   let count := fun i => Z.min 32 (totalPages - i) in
   exists w' rs,
     writePages device_cmd fileData w = (w', Normal tt)
     /\ length rs = length (range_by 0 totalPages 32)
     /\ trace w'
        = trace w ++
          zip_with
            (fun i r =>
               (mkRequest CMD_MF0_NTAG_WRITE_EMU_PAGE_DATA
                  (Some (u8 i :: u8 (count i)
                         :: unitsFrom 4 fileData i (count i))),
                Response r))
            (range_by 0 totalPages 32) rs
     /\ console w' = console w ++ [(false, WrotePages totalPages)])
  /\ (accepts device_cmd CMD_MF1_WRITE_EMU_BLOCK_DATA ->
      let totalBlocks := (len fileData + 16 - 1) / 16 in
      let count := fun i => Z.min 32 (totalBlocks - i) in
      exists w' rs,
        writeBlocks device_cmd fileData w = (w', Normal tt)
        /\ length rs = length (range_by 0 totalBlocks 32)
        /\ trace w'
           = trace w ++
             zip_with
               (fun i r =>
                  (mkRequest CMD_MF1_WRITE_EMU_BLOCK_DATA
                     (Some (u8 i :: unitsFrom 16 fileData i (count i))),
                   Response r))
               (range_by 0 totalBlocks 32) rs
        /\ console w' = console w ++ [(false, WroteBlocks totalBlocks)]).
Proof.
  intros Hbytes. split; intros Hdev total count.
  - destruct (forEach_accepted device_cmd CMD_MF0_NTAG_WRITE_EMU_PAGE_DATA
                (fun i => Some (u8 i :: u8 (count i)
                                :: unitsFrom 4 fileData i (count i)))
                (fun i s => ErrorWritingPages i (i + count i - 1) s)
                (writePageBatch device_cmd fileData total)
                (range_by 0 total 32) Hdev) with (w := w)
      as (w' & rs & Hrun & Hlen & Ht & Hc & Hf).
    { intros i u Hi%range_by_In; [| lia].
      now apply writePageBatch_request. }
    exists (mkWorld (dev w') (trace w')
                    (console w' ++ [(false, WrotePages total)]) (files w')), rs.
    unfold writePages. cbv zeta. fold total.
    unfold bind, log. rewrite Hrun. cbn [trace console].
    now rewrite Hc.
  - destruct (forEach_accepted device_cmd CMD_MF1_WRITE_EMU_BLOCK_DATA
                (fun i => Some (u8 i :: unitsFrom 16 fileData i (count i)))
                (fun i s => ErrorWritingBlocks i (i + count i - 1) s)
                (writeBlockBatch device_cmd fileData total)
                (range_by 0 total 32) Hdev) with (w := w)
      as (w' & rs & Hrun & Hlen & Ht & Hc & Hf).
    { intros i u Hi%range_by_In; [| lia].
      now apply writeBlockBatch_request. }
    exists (mkWorld (dev w') (trace w')
                    (console w' ++ [(false, WroteBlocks total)])
                    (files w')), rs.
    unfold writeBlocks. cbv zeta. fold total.
    unfold bind, log. rewrite Hrun. cbn [trace console].
    now rewrite Hc.
Qed.

Lemma agreeable_accepts (command : Z) : accepts agreeable command.
Proof. intros d payload. now eexists d, _. Qed.

Lemma load_sends_every_unit_witness :
  let fileData := [1; 2; 3; 4; 5; 6; 7; 8; 9; 10] in
  let w : world unit message := fresh_world tt in
  (exists w' rs,
     writePages agreeable fileData w = (w', Normal tt)
     /\ length rs = 1%nat
     /\ trace w'
        = trace w ++
          zip_with
            (fun i r =>
               (mkRequest CMD_MF0_NTAG_WRITE_EMU_PAGE_DATA
                  (Some (u8 i :: u8 (Z.min 32 (3 - i))
                         :: unitsFrom 4 fileData i (Z.min 32 (3 - i)))),
                Response r))
            [0] rs
     /\ console w' = console w ++ [(false, WrotePages 3)])
  /\ (exists w' rs,
        writeBlocks agreeable fileData w = (w', Normal tt)
        /\ length rs = 1%nat
        /\ trace w'
           = trace w ++
             zip_with
               (fun i r =>
                  (mkRequest CMD_MF1_WRITE_EMU_BLOCK_DATA
                     (Some (u8 i
                            :: unitsFrom 16 fileData i (Z.min 32 (1 - i)))),
                   Response r))
               [0] rs
        /\ console w' = console w ++ [(false, WroteBlocks 1)]).
Proof.
  intros fileData w.
  destruct (load_sends_every_unit agreeable fileData w) as [Hp Hb].
  - repeat constructor; unfold byte_ok; lia.
  - split.
    + exact (Hp (agreeable_accepts _)).
    + exact (Hb (agreeable_accepts _)).
Defined.

End UploadFacts.

(** ** Dump reports: text runs, trailers, blocks and the NDEF search *)

Module DumpFacts.
Import JS Text RFID Dump JSFacts CodecFacts ExecFacts RFIDFacts ImageFacts.
Local Open Scope string_scope.
Local Open Scope Z_scope.

Lemma chars_app (a b : list Z) : chars (a ++ b) = chars a ++ chars b.
Proof.
  unfold chars. induction a as [|x a IH]; [reflexivity |].
  cbn [map app string_of_list_ascii]. rewrite IH. reflexivity.
Qed.

Lemma length_chars (a : list Z) : String.length (chars a) = length a.
Proof.
  unfold chars. induction a as [|x a IH]; [reflexivity |].
  cbn [map string_of_list_ascii String.length length]. now rewrite IH.
Qed.

Lemma textRuns_acc (data : list Z) (cur : string) (texts : list string) :
  textRuns data cur texts = (texts ++ textRuns data cur [])%list.
Proof.
  revert cur texts. induction data as [|b rest IH]; intros cur texts.
  - cbn [textRuns]. destruct (4 <=? String.length cur)%nat;
      [reflexivity | now rewrite app_nil_r].
  - cbn [textRuns]. destruct ((32 <=? b) && (b <=? 126)).
    + apply IH.
    + destruct (4 <=? String.length cur)%nat.
      * rewrite IH, (IH "" ([] ++ [cur])%list). cbn [app].
        now rewrite <- app_assoc.
      * apply IH.
Qed.

Lemma printable_test (b : Z) :
  (32 <=? b) && (b <=? 126) = true <-> printable b.
Proof. unfold printable. rewrite andb_true_iff, !Z.leb_le. lia. Qed.

(** The loop of [extractText], started with a pending run [cur]. *)
Lemma textRuns_cut (data cur : list Z) :
  Forall printable cur ->
  exists first more,
    cut_at_unprintable data first more
    /\ textRuns data (chars cur) []
       = long_texts ((cur ++ first)%list :: map snd more).
Proof.
  revert cur. induction data as [|b rest IH]; intros cur Hcur.
  - exists [], []. split; [now repeat split |].
    rewrite app_nil_r. cbn [textRuns map]. rewrite length_chars.
    unfold long_texts. destruct (Nat.leb_spec 4 (length cur)).
    + now rewrite filter_cons_True, filter_nil by assumption.
    + now rewrite filter_cons_False, filter_nil by lia.
  - cbn [textRuns].
    destruct ((32 <=? b) && (b <=? 126)) eqn:Eb.
    + apply printable_test in Eb.
      change (String (ascii_of_nat (Z.to_nat b)) "") with (chars [b]).
      rewrite <- chars_app.
      destruct (IH (cur ++ [b])%list)
        as (first & more & (Hdata & Hfirst & Hmore) & Hrun).
      { apply Forall_app. split; [assumption | now constructor]. }
      exists (b :: first), more. split.
      * split; [| split; [now constructor | exact Hmore]].
        rewrite Hdata. reflexivity.
      * rewrite Hrun, <- app_assoc. reflexivity.
    + assert (Hb : ~ printable b).
      { intros H. apply printable_test in H. congruence. }
      rewrite textRuns_acc, length_chars. change "" with (chars []).
      destruct (IH [] (Forall_nil_2 _))
        as (first & more & (Hdata & Hfirst & Hmore) & Hrun).
      cbn [app] in Hrun.
      exists [], ((b, first) :: more). split.
      * split; [| split; [constructor |]].
        -- rewrite Hdata. reflexivity.
        -- constructor; [now split | exact Hmore].
      * rewrite Hrun, app_nil_r. cbn [map snd]. unfold long_texts.
        destruct (Nat.leb_spec 4 (length cur)).
        -- now rewrite (filter_cons_True _ cur) by assumption.
        -- now rewrite (filter_cons_False _ cur) by lia.
Qed.

Lemma woven_nil (first : list Z) (more : list (Z * list Z)) :
  woven first more = [] -> first = [] /\ more = [].
Proof.
  unfold woven. intros H. apply app_eq_nil in H as [-> H].
  split; [reflexivity |]. now destruct more as [|[s r] more].
Qed.

(** A cut of [b :: rest] starts as the first byte tells. *)
Lemma cut_cons (b : Z) (rest first : list Z) (more : list (Z * list Z)) :
  cut_at_unprintable (b :: rest) first more ->
  (printable b /\ exists first', first = b :: first'
                                 /\ cut_at_unprintable rest first' more)
  \/ (~ printable b /\ first = []
      /\ exists run more', more = (b, run) :: more'
                           /\ cut_at_unprintable rest run more').
Proof.
  intros (Hdata & Hfirst & Hmore). unfold woven in Hdata.
  destruct first as [|x first].
  - destruct more as [|[s run] more]; [discriminate |].
    cbn in Hdata. injection Hdata as <- ->.
    apply Forall_cons in Hmore as [[Hs Hrun] Hmore]. right.
    split; [exact Hs |]. split; [reflexivity |].
    exists run, more. now repeat split.
  - cbn in Hdata. injection Hdata as <- ->.
    apply Forall_cons in Hfirst as [Hx Hfirst]. left.
    split; [exact Hx |]. exists first. now repeat split.
Qed.

(** There is one way only to cut the data. *)
Lemma cut_unique (data first1 first2 : list Z)
  (more1 more2 : list (Z * list Z)) :
  cut_at_unprintable data first1 more1 ->
  cut_at_unprintable data first2 more2 ->
  first1 = first2 /\ more1 = more2.
Proof.
  revert first1 first2 more1 more2.
  induction data as [|b rest IH]; intros first1 first2 more1 more2 H1 H2.
  - destruct H1 as (H1 & _). destruct H2 as (H2 & _).
    symmetry in H1, H2. apply woven_nil in H1 as [-> ->].
    now apply woven_nil in H2 as [-> ->].
  - apply cut_cons in H1, H2.
    destruct H1 as [(Hb & f1 & -> & H1) | (Hb & -> & r1 & m1 & -> & H1)];
      destruct H2 as [(Hb' & f2 & -> & H2) | (Hb' & -> & r2 & m2 & -> & H2)];
      try contradiction.
    + destruct (IH _ _ _ _ H1 H2) as [-> ->]. now split.
    + destruct (IH _ _ _ _ H1 H2) as [-> ->]. now split.
Qed.

(** X14. [extractText] cuts the data at
    every byte outside 0x20..0x7E, which can be done in one way only, and
    stores as [extractedText] the pieces of at least four bytes, as
    strings, in the order they come and each once.  When no piece is that
    long the result is left exactly as it was: the field is not set. *)
Theorem extracted_text_is_the_long_runs (data : list Z) (r : result) :
  (exists first more, cut_at_unprintable data first more)
  /\ forall first more,
       cut_at_unprintable data first more ->
       extractText data r
       = match long_texts (first :: map snd more) with
         | [] => r
         | texts => set_detail "extractedText" (Val (Strs texts)) r
         end.
Proof.
  destruct (textRuns_cut data [] (Forall_nil_2 _))
    as (first0 & more0 & Hcut0 & Hrun).
  cbn [app] in Hrun. change (chars []) with "" in Hrun.
  split; [now exists first0, more0 |].
  intros first more Hcut.
  destruct (cut_unique _ _ _ _ _ Hcut Hcut0) as [-> ->].
  unfold extractText. rewrite Hrun.
  now destruct (long_texts (first0 :: map snd more0)).
Qed.

(** *** Sector trailers and blocks *)

Lemma range_from_seq (n : nat) (i : Z) :
  Exec.range_from n i (i + Z.of_nat n) 1
  = map (fun k => i + Z.of_nat k) (seq 0 n).
Proof.
  revert i. induction n as [|n IH]; intros i; [reflexivity |].
  rewrite range_from_cons by lia. cbn [seq map]. f_equal; [lia |].
  replace (i + Z.of_nat (S n)) with (i + 1 + Z.of_nat n) by lia.
  rewrite IH, <- seq_shift, map_map. apply map_ext. intros k. lia.
Qed.

(** [for (let i = 0; i < n; i++)] runs over 0, ..., n - 1. *)
Lemma range_by_seq (n : Z) :
  Exec.range_by 0 n 1 = map Z.of_nat (seq 0 (Z.to_nat n)).
Proof.
  unfold Exec.range_by. rewrite Z.sub_0_r.
  destruct (Z.le_gt_cases 0 n) as [Hn | Hn].
  - pose proof (range_from_seq (Z.to_nat n) 0) as H.
    rewrite Z2Nat.id, Z.add_0_l in H by lia. rewrite H.
    apply map_ext. intros k. lia.
  - replace (Z.to_nat n) with 0%nat by lia. reflexivity.
Qed.

Lemma slice_slice {A} (l : list A) (o a b w : Z) :
  0 <= o -> 0 <= a -> b <= w ->
  slice (slice l o (o + w)) a b = slice l (o + a) (o + b).
Proof.
  intros Ho Ha Hb. unfold slice.
  rewrite skipn_firstn_comm, take_take, drop_drop.
  f_equal; [lia | f_equal; lia].
Qed.

Lemma fold_trailers (data : list Z) (sectors : list Z)
  (acc : list (gmap string value)) :
  Forall (fun sector => 0 <= sector /\ 64 * sector + 64 <= len data) sectors ->
  fold_left
    (fun accessBits sector =>
       let trailerBlock := sector * 4 + 3 in
       let trailerOffset := trailerBlock * 16 in
       if trailerOffset + 16 <=? len data then
         let trailer := slice data trailerOffset (trailerOffset + 16) in
         (accessBits ++
          [ <["keyB" := Str (hexJoin "" (slice trailer 10 16))]>
            (<["accessBits" := Str (hexJoin "" (slice trailer 6 10))]>
            (<["keyA" := Str (hexJoin "" (slice trailer 0 6))]>
            (<["sector" := Num sector]> ∅))) ])%list
       else accessBits)
    sectors acc
  = (acc ++ map (trailerEntry data) sectors)%list.
Proof.
  revert acc. induction sectors as [|s rest IH]; intros acc Hall.
  - cbn [fold_left map]. now rewrite app_nil_r.
  - apply Forall_cons in Hall as [[Hs Hfit] Hall].
    cbn [fold_left map]. cbv zeta.
    destruct (Z.leb_spec ((s * 4 + 3) * 16 + 16) (len data)); [| lia].
    rewrite IH by assumption. rewrite <- app_assoc. cbn [app].
    do 2 f_equal. unfold trailerEntry. cbv zeta.
    replace ((s * 4 + 3) * 16) with (64 * s + 48) by lia.
    rewrite !(slice_slice data (64 * s + 48)) by lia.
    now rewrite Z.add_0_r.
Qed.

(** X15. [analyzeMifareClassic] lists one
    sector trailer for each complete 64-byte sector of the dump, in order:
    the entry of sector [k] holds [k] and, in upper-case hex, bytes
    [64k+48 .. 64k+53] as key A, [64k+54 .. 64k+57] as access bits and
    [64k+58 .. 64k+63] as key B.  The bounds check of the loop never
    fails, and a trailing partial sector is not listed. *)
Theorem mifare_trailer_per_full_sector (data : list Z) (r : result) :
  exists trailers,
    details (analyzeMifareClassic data r) !! "sectorTrailers"
      = Some (Objs trailers)
    /\ len trailers = len data / 64
    /\ forall k, 0 <= k < len data / 64 ->
                 at_ trailers k = Some (trailerEntry data k).
Proof.
  unfold analyzeMifareClassic. cbv zeta.
  rewrite fold_trailers.
  - cbn [app]. eexists. split.
    { unfold set_detail at 1. cbn [details with_details].
      apply lookup_insert_eq. }
    rewrite Z.div_div by lia. change (16 * 4) with 64.
    pose proof (len_nonneg data) as Hlen.
    assert (Hq : 0 <= len data / 64) by (apply Z.div_pos; lia).
    rewrite range_by_seq. split.
    + unfold len. rewrite !length_map, length_seq. fold (len data). lia.
    + intros k Hk. unfold at_.
      destruct (Z.ltb_spec k 0); [lia |].
      rewrite !list_lookup_fmap, lookup_seq_lt by lia.
      cbn. now rewrite Z2Nat.id by lia.
  - rewrite Z.div_div by lia. change (16 * 4) with 64.
    apply Forall_forall. intros s Hs. apply list_elem_of_In in Hs.
    unfold Exec.range_by in Hs.
    apply range_from_spec in Hs as (k & Hk & -> & Hlt); [| lia ..].
    pose proof (Z.mul_div_le (len data) 64). lia.
Qed.

(** Only the exact size 264 classifies a buffer as T5577. *)
Lemma detectTagType_T5577 (data : list Z) (r : result) :
  tagType (detectTagType data r) = Some "T5577" -> len data = 264.
Proof.
  unfold detectTagType. cbn [find tagSignatures sig_size].
  repeat match goal with
         | |- context [?a =? len data] =>
           destruct (Z.eqb_spec a (len data)) as [<- | ?];
             [cbn; intros; first [discriminate | reflexivity] |]
         end.
  destruct (len data =? 5); [cbn; intros; discriminate |].
  destruct ((64 <=? len data) && (len data <=? 1024));
    [cbn; intros; discriminate |].
  destruct (len data <? 64); cbn; intros; discriminate.
Qed.

(** X16. A report of [analyze] that names the
    tag T5577 is always for a buffer of 264 bytes and lists eight blocks
    of 33 bytes each, block [i] holding bytes [33i .. 33i+32]: the loop
    guard and the [Math.min] of [analyzeT5577] never cut a block short. *)
Theorem t5577_report_has_eight_blocks
  (readFile : option (string -> option (option (list Z)))) (data : list Z)
  (r : result)
  (Hreport : analyze readFile (Buffer data) = Report r)
  (Htag : tagType r = Some "T5577") :
  len data = 264
  /\ frequency_ r = Some LF
  /\ details r !! "blocks"
     = Some (Objs (map (blockEntry data) [0; 1; 2; 3; 4; 5; 6; 7])).
Proof.
  unfold analyze in Hreport.
  destruct (len data =? 0); [discriminate |]. cbv zeta in Hreport.
  injection Hreport as <-.
  set (r0 := detectTagType data (blank data)) in *.
  assert (Hclass : tagType r0 = Some "T5577").
  { destruct (frequency_ r0) as [[|] |]; [| | exact Htag].
    - destruct (analyzeHF_class data r0) as (_ & <- & _). exact Htag.
    - destruct (analyzeLF_class data r0) as (_ & <- & _). exact Htag. }
  pose proof (detectTagType_T5577 data (blank data) Hclass) as Hlen.
  split; [exact Hlen |].
  assert (Hr0 : r0 = mkResult 264 (264 * 8) (Some LF) (Some "T5577") 90
                              ∅ data).
  { unfold r0, detectTagType, blank. cbv zeta. rewrite Hlen. reflexivity. }
  rewrite Hr0. cbn [frequency_].
  unfold analyzeLF. cbn [tagType]. rewrite Hlen.
  rewrite (bool_decide_eq_false_2 (Some "T5577" = Some "EM410X"))
    by discriminate.
  rewrite (bool_decide_eq_true_2 (Some "T5577" = Some "T5577"))
    by reflexivity.
  change (false || (264 =? 5)) with false. cbv iota.
  unfold analyzeT5577. cbv zeta.
  change (Exec.range_by 0 8 1) with [0; 1; 2; 3; 4; 5; 6; 7].
  cbn [fold_left]. rewrite Hlen.
  split; [reflexivity |].
  unfold set_detail at 1. cbn [details with_details].
  rewrite lookup_insert_eq. do 2 f_equal.
  assert (Hsz : forall lo hi, 0 <= lo -> hi <= 264 -> lo <= hi ->
                              len (slice data lo hi) = hi - lo).
  { intros lo hi Hlo Hhi Hle. unfold len, slice.
    rewrite length_take, length_drop. unfold len in Hlen. lia. }
  cbn [Z.mul Z.add Z.ltb Z.compare Pos.compare Pos.compare_cont Z.min
       Pos.mul Pos.add Pos.succ app map].
  rewrite !Hsz by lia. reflexivity.
Qed.

Lemma t5577_report_has_eight_blocks_witness :
  let data := replicate 264 0 in
  exists r,
    analyze None (Buffer data) = Report r
    /\ tagType r = Some "T5577"
    /\ len data = 264
    /\ frequency_ r = Some LF
    /\ details r !! "blocks"
       = Some (Objs (map (blockEntry data) [0; 1; 2; 3; 4; 5; 6; 7])).
Proof.
  intros data.
  assert (Hlen : len data = 264) by reflexivity.
  assert (Hr : exists r, analyze None (Buffer data) = Report r
                         /\ tagType r = Some "T5577").
  { unfold analyze. rewrite Hlen. cbv zeta.
    change (264 =? 0) with false. cbv iota.
    assert (Hr0 : detectTagType data (blank data)
                  = mkResult 264 (264 * 8) (Some LF) (Some "T5577") 90
                             ∅ data).
    { unfold detectTagType, blank. cbv zeta. rewrite Hlen. reflexivity. }
    rewrite Hr0. cbn [frequency_]. eexists. split; [reflexivity |].
    match goal with
    | |- tagType (analyzeLF data ?r0) = _ =>
      destruct (analyzeLF_class data r0) as (_ & -> & _)
    end.
    reflexivity. }
  destruct Hr as (r & Hr & Ht). exists r.
  split; [exact Hr |]. split; [exact Ht |].
  exact (t5577_report_has_eight_blocks None data r Hr Ht).
Defined.

(** *** The NDEF search *)

Lemma find_range_first (p : Z -> bool) (n : nat) (i stop x : Z) :
  find p (Exec.range_from n i stop 1) = Some x ->
  i <= x < stop /\ p x = true /\ forall j, i <= j < x -> p j = false.
Proof.
  revert i. induction n as [|n IH]; intros i; [discriminate |].
  cbn [Exec.range_from]. destruct (Z.ltb_spec i stop); [| discriminate].
  cbn [find]. destruct (p i) eqn:Ei.
  - intros [= <-]. repeat split; [lia | lia | assumption | intros; lia].
  - intros Hf. apply IH in Hf as (Hx & Hp & Hfirst).
    repeat split; [lia | lia | assumption |].
    intros j Hj. destruct (Z.eq_dec j i) as [-> | ?]; [assumption |].
    apply Hfirst. lia.
Qed.

Lemma find_range_none (p : Z -> bool) (n : nat) (i stop : Z) :
  (Z.to_nat (stop - i) <= n)%nat ->
  find p (Exec.range_from n i stop 1) = None ->
  forall j, i <= j < stop -> p j = false.
Proof.
  intros Hn Hfind j Hj.
  apply (find_none _ _ Hfind j).
  apply range_from_spec; [lia | assumption |]. exists (j - i). lia.
Qed.

Lemma parseNDEF_keeps (ndefData : list Z) (r : result) (k : string) :
  k <> "ndef" -> details (parseNDEF ndefData r) !! k = details r !! k.
Proof.
  intros Hk. unfold parseNDEF. destruct (len ndefData <? 3); [reflexivity |].
  cbv zeta. unfold set_detail at 1. cbn [details with_details].
  now rewrite lookup_insert_ne.
Qed.

(** X17. [checkNDEF] always records [hasNDEF].  It is
    [true] exactly when some byte at an index from 16 up to (not
    including) the smaller of [data.length - 2] and 100 equals 0x03; then
    [ndefOffset] is the first such index and [ndefLength] the byte that
    follows it.  A 0x03 before byte 16, in the last two bytes or from
    byte 100 on is not seen. *)
Theorem ndef_search_window (data : list Z) (r : result) :
  exists found,
    details (checkNDEF data r) !! "hasNDEF" = Some (Val (Bool found))
    /\ if found then
         exists i,
           searched data i /\ at_ data i = Some 3
           /\ (forall j, 16 <= j < i -> at_ data j <> Some 3)
           /\ details (checkNDEF data r) !! "ndefOffset"
              = Some (Val (Num i))
           /\ details (checkNDEF data r) !! "ndefLength"
              = Some (Val (Num (default 0 (at_ data (i + 1)))))
       else forall i, searched data i -> at_ data i <> Some 3.
Proof.
  unfold checkNDEF, searched. cbv zeta. unfold Exec.range_by.
  set (p := fun i => bool_decide (at_ data i = Some 3)).
  set (stop := Z.min (len data - 2) 100).
  destruct (find p (Exec.range_from (Z.to_nat (stop - 16)) 16 stop 1))
    as [i |] eqn:Efind.
  - exists true.
    apply find_range_first in Efind as (Hi & Hp & Hfirst).
    assert (Hkeys : forall k v r0,
      k <> "ndef" ->
      details r0 !! k = Some v ->
      details
        (if i + 2 + default 0 (at_ data (i + 1)) <=? len data
         then parseNDEF
                (slice data (i + 2) (i + 2 + default 0 (at_ data (i + 1))))
                r0
         else r0) !! k = Some v).
    { intros k v r0 Hk Hv. destruct (_ <=? _); [| exact Hv].
      now rewrite parseNDEF_keeps. }
    split; [| exists i; repeat split].
    + apply Hkeys; [discriminate |].
      unfold set_detail, with_details. cbn [details].
      now rewrite !lookup_insert_ne, lookup_insert_eq by discriminate.
    + lia.
    + lia.
    + unfold p in Hp. now apply bool_decide_eq_true_1 in Hp.
    + intros j Hj. specialize (Hfirst j Hj). unfold p in Hfirst.
      now apply bool_decide_eq_false_1 in Hfirst.
    + apply Hkeys; [discriminate |].
      unfold set_detail, with_details. cbn [details].
      now rewrite lookup_insert_ne, lookup_insert_eq by discriminate.
    + apply Hkeys; [discriminate |].
      unfold set_detail, with_details. cbn [details].
      now rewrite lookup_insert_eq.
  - exists false. split.
    + unfold set_detail, with_details. cbn [details].
      now rewrite lookup_insert_eq.
    + intros j Hj.
      pose proof (find_range_none p _ 16 stop (Nat.le_refl _) Efind j Hj)
        as Hp.
      unfold p in Hp. now apply bool_decide_eq_false_1 in Hp.
Qed.

(** *** Classification *)

Lemma detectTagType_by_len (a b : list Z) (ra rb : result) :
  len a = len b -> frequency_ ra = frequency_ rb ->
  same_class (detectTagType a ra) (detectTagType b rb).
Proof.
  intros Hlen Hf. unfold detectTagType. cbv zeta. rewrite Hlen.
  destruct (find _ tagSignatures) as [sig |].
  - unfold same_class. cbn [frequency_ tagType confidence].
    rewrite Hf. now repeat split.
  - unfold same_class.
    destruct (len b =? 5); [now repeat split |].
    destruct ((64 <=? len b) && (len b <=? 1024)); [now repeat split |].
    destruct (len b <? 64); [now repeat split |].
    cbn [frequency_ tagType confidence]. rewrite Hf. now repeat split.
Qed.

(** X18. [analyze] classifies by size alone:
    two buffers of the same length get the same verdict (the same error,
    or the same frequency, tag type and confidence), whatever they
    hold. *)
Theorem verdict_depends_on_size_only
  (readFile : option (string -> option (option (list Z))))
  (a b : list Z) (Hlen : len a = len b) :
  verdict (analyze readFile (Buffer a))
  = verdict (analyze readFile (Buffer b)).
Proof.
  unfold analyze. rewrite Hlen.
  destruct (len b =? 0); [reflexivity |]. cbv zeta.
  destruct (detectTagType_by_len a b (blank a) (blank b) Hlen eq_refl)
    as (Hf & Ht & Hc).
  set (ra := detectTagType a (blank a)) in *.
  set (rb := detectTagType b (blank b)) in *.
  assert (Ha : forall r data,
    same_class r match frequency_ r with
                 | Some HF => analyzeHF data r
                 | Some LF => analyzeLF data r
                 | None => r
                 end).
  { intros r data. destruct (frequency_ r) as [[|] |].
    - apply analyzeHF_class.
    - apply analyzeLF_class.
    - apply same_class_refl. }
  destruct (Ha ra a) as (Hfa & Hta & Hca).
  destruct (Ha rb b) as (Hfb & Htb & Hcb).
  cbn [verdict]. rewrite Hfa, Hta, Hca, Hfb, Htb, Hcb.
  now rewrite Hf, Ht, Hc.
Qed.

Lemma verdict_depends_on_size_only_witness :
  len (replicate 540 0) = len (replicate 540 255)
  /\ verdict (analyze None (Buffer (replicate 540 0)))
     = verdict (analyze None (Buffer (replicate 540 255))).
Proof.
  split; [reflexivity |].
  apply (verdict_depends_on_size_only None). reflexivity.
Defined.

End DumpFacts.

(** ** The virtual file system: round trips, errors and the tree *)

Module FSFacts.
Import JS FS JSFacts.
Local Open Scope string_scope.
Local Open Scope Z_scope.

(** One run of [writeFile], step by step. *)
Lemma writeFile_run (now : nat -> Z) (path : string) (c : content)
  (ty : option mime) (m : manager) :
  db m = true ->
  let p := _normalizePath path in
  let t := if no_type ty then _detectMimeType p else default (Mime "") ty in
  let dir := (_parsePath p).1 in
  exists m1,
    db m1 = true /\ files m1 = files m
    /\ (forall q d, directories m !! q = Some d ->
                    directories m1 !! q = Some d)
    /\ (forall q, q <> dir -> directories m1 !! q = directories m !! q)
    /\ (dir <> "/" -> is_Some (directories m1 !! dir))
    /\ writeFile now path c ty m
       = if is_function t then
           (mkManager true (files m) (directories m1) (S (S (ticks m1))),
            Rejected DataCloneError)
         else
           (mkManager true
              (<[p := mkFile dir (_parsePath p).2
                        match c with Bytes b => Items b | _ => c end
                        match t with ObjectPrototype => EmptyObject
                                   | _ => t end
                        (content_length c) (now (ticks m1))
                        (now (S (ticks m1)))]> (files m))
              (directories m1) (S (S (ticks m1))),
            Resolved p).
Proof.
  intros Hdb p t dir. unfold writeFile.
  unfold await at 1. unfold initialized. rewrite Hdb.
  fold p. fold t. subst dir.
  destruct (_parsePath p) as [dir nm] eqn:Eparse.
  cbn [fst snd].
  set (ensure := if negb (bool_decide (dir = "/"))
                 then _ensureDirectory now dir else resolve tt).
  assert (He : exists m1,
    ensure m = (m1, Resolved tt) /\ db m1 = true /\ files m1 = files m
    /\ (forall q d, directories m !! q = Some d ->
                    directories m1 !! q = Some d)
    /\ (forall q, q <> dir -> directories m1 !! q = directories m !! q)
    /\ (dir <> "/" -> is_Some (directories m1 !! dir))).
  { unfold ensure. destruct (bool_decide_reflect (dir = "/")) as [E | E].
    - exists m. cbn. repeat split; auto; intros; contradiction.
    - cbn [negb]. unfold _ensureDirectory.
      destruct (directories m !! dir) as [d0 |] eqn:Ed.
      + exists m. repeat split; auto; intros _; now rewrite Ed.
      + eexists. split; [reflexivity |]. cbn.
        repeat split; auto.
        * intros q d Hq. rewrite lookup_insert_ne; [assumption |].
          intros <-. congruence.
        * intros q Hq. now rewrite lookup_insert_ne.
        * intros _. rewrite lookup_insert_eq. eauto. }
  destruct He as (m1 & Hens & Hdb1 & Hfiles1 & Hkeep & Hother & Hdir).
  exists m1. do 5 (split; [assumption |]).
  unfold await at 1. rewrite Hens.
  unfold await, Date_now, put_file, resolve. cbn [type].
  rewrite Hdb1, Hfiles1.
  destruct t; reflexivity.
Qed.

(** What [writeFile] stores for content [c]. *)
Lemma writeFile_effect (now : nat -> Z) (path : string) (c : content)
  (ty : option mime) (m : manager) :
  db m = true ->
  let p := _normalizePath path in
  let t := if no_type ty then _detectMimeType p else default (Mime "") ty in
  let r := writeFile now path c ty m in
  db r.1 = true
  /\ (forall q d, directories m !! q = Some d ->
                  directories r.1 !! q = Some d)
  /\ (forall q, q <> (_parsePath p).1 ->
                directories r.1 !! q = directories m !! q)
  /\ ((_parsePath p).1 <> "/" ->
      is_Some (directories r.1 !! (_parsePath p).1))
  /\ if is_function t
     then r.2 = Rejected DataCloneError /\ files r.1 = files m
     else r.2 = Resolved p
          /\ exists e,
               files r.1 = <[p := e]> (files m)
               /\ stored e = match c with Bytes b => Items b | _ => c end
               /\ directory e = (_parsePath p).1
               /\ name e = (_parsePath p).2
               /\ size e = content_length c
               /\ type e = match t with ObjectPrototype => EmptyObject
                                      | _ => t end.
Proof.
  intros Hdb p t r.
  destruct (writeFile_run now path c ty m Hdb)
    as (m1 & Hdb1 & Hfiles1 & Hkeep & Hother & Hdir & Hrun).
  fold p t in Hkeep, Hother, Hdir, Hrun. subst r. rewrite Hrun.
  destruct (is_function t); cbn [fst snd db directories files].
  - repeat split; auto.
  - repeat split; auto. eexists. split; [reflexivity |].
    cbn. repeat split.
Qed.

Lemma readFile_found (path encoding : string) (m : manager) (e : fileEntry) :
  db m = true -> files m !! _normalizePath path = Some e ->
  readFile path encoding m
  = (m, Resolved (if bool_decide (encoding = "binary")
                  then match stored e with
                       | Items l => Bytes (map u8 l)
                       | c => c
                       end
                  else stored e)).
Proof.
  intros Hdb He. unfold readFile, await, initialized. rewrite Hdb, He.
  destruct (bool_decide (encoding = "binary")); [| reflexivity].
  destruct (stored e); reflexivity.
Qed.

Lemma readFile_missing (path encoding : string) (m : manager) :
  db m = true -> files m !! _normalizePath path = None ->
  readFile path encoding m
  = (m, Rejected (Error ("File not found: " ++ _normalizePath path))).
Proof.
  intros Hdb He. unfold readFile, await, initialized. now rewrite Hdb, He.
Qed.

(** X19. A file written is read back under every spelling of
    its path.  On an opened file system [writeFile(path, content, type)]
    resolves with the normalized path, and from then on [readFile] of any
    path with the same normalization resolves with the content: a string
    as it was, bytes as a plain array (as a [Uint8Array] when the
    encoding is ['binary']); reads of every other file answer as before.
    The one exception is a type that is a function (the extension
    [constructor] finds one in the MIME table): the write is then
    rejected by the store and no file changes. *)
Theorem write_then_read (now : nat -> Z) (path : string) (c : content)
  (ty : option mime) (m : manager) (Hdb : db m = true) :
  let p := _normalizePath path in
  let t := if no_type ty then _detectMimeType p else default (Mime "") ty in
  let r := writeFile now path c ty m in
  if is_function t then
    r.2 = Rejected DataCloneError /\ files r.1 = files m
  else
    r.2 = Resolved p
    /\ (forall q encoding,
           _normalizePath q = p ->
           readFile q encoding r.1 = (r.1, Resolved (read_back encoding c)))
    /\ (forall q encoding,
           _normalizePath q <> p ->
           (readFile q encoding r.1).2 = (readFile q encoding m).2).
Proof.
  intros p t r.
  destruct (writeFile_effect now path c ty m Hdb)
    as (Hdb' & _ & _ & _ & H).
  fold p t r in Hdb', H.
  destruct (is_function t); [exact H |].
  destruct H as (Hr & e & Hfiles & Hstored & _).
  split; [exact Hr |]. split.
  - intros q encoding Hq.
    rewrite (readFile_found q encoding r.1 e Hdb').
    + rewrite Hstored. unfold read_back.
      destruct c, (bool_decide (encoding = "binary")); reflexivity.
    + rewrite Hq, Hfiles. apply lookup_insert_eq.
  - intros q encoding Hq.
    unfold readFile, await, initialized. rewrite Hdb, Hdb', Hfiles.
    rewrite lookup_insert_ne by congruence.
    destruct (files m !! _normalizePath q) as [e' |]; [| reflexivity].
    destruct (bool_decide (encoding = "binary")); [| reflexivity].
    destruct (stored e'); reflexivity.
Qed.

Lemma write_then_read_witness :
  let m := fresh in
  let r := writeFile Z.of_nat "dumps/tag.bin/" (Bytes [4; 8; 255]) None m in
  db m = true
  /\ r.2 = Resolved "/dumps/tag.bin"
  /\ readFile "/dumps/tag.bin" "binary" r.1
     = (r.1, Resolved (Bytes [4; 8; 255])).
Proof.
  intros m r. split; [reflexivity |].
  pose proof (write_then_read Z.of_nat "dumps/tag.bin/" (Bytes [4; 8; 255])
                None m eq_refl) as H.
  cbv zeta in H.
  change (is_function _) with false in H. cbv iota in H.
  destruct H as (Hr & Hread & _).
  split; [exact Hr |].
  exact (Hread "/dumps/tag.bin" "binary" eq_refl).
Defined.

Lemma readFile_db (path encoding : string) (m : manager) :
  db m = false ->
  readFile path encoding m
  = (m, Rejected (Error "FileSystemManager not initialized")).
Proof. intros H. unfold readFile, await, initialized. now rewrite H. Qed.

(** X20. After a [moveFile] that resolves, no
    file is left under the old path.  When the new path names another
    file, that file now holds the content the old one had and all other
    files are untouched; when both paths name the same file, the move
    deletes it. *)
Theorem moved_file_leaves_old_path (now : nat -> Z) (oldPath newPath : string)
  (m m' : manager) (r : string)
  (Hmove : moveFile now oldPath newPath m = (m', Resolved r)) :
  r = _normalizePath newPath
  /\ files m' !! twice oldPath = None
  /\ (twice newPath <> twice oldPath ->
      exists e0 e,
        files m !! twice oldPath = Some e0
        /\ files m' !! twice newPath = Some e
        /\ stored e = match stored e0 with Bytes b => Items b | c => c end
        /\ size e = content_length (stored e0))
  /\ (forall q, q <> twice oldPath -> q <> twice newPath ->
                files m' !! q = files m !! q).
Proof.
  unfold moveFile in Hmove. unfold await at 1 in Hmove.
  unfold initialized in Hmove.
  destruct (db m) eqn:Hdb; [| discriminate].
  unfold await at 1 in Hmove. fold (twice oldPath).
  destruct (files m !! twice oldPath) as [e0 |] eqn:E0.
  2:{ rewrite (readFile_missing _ "text" m Hdb E0) in Hmove. discriminate. }
  rewrite (readFile_found _ "text" m e0 Hdb E0) in Hmove.
  change (bool_decide ("text" = "binary")) with false in Hmove.
  cbv iota in Hmove.
  unfold await at 1 in Hmove. unfold get_file in Hmove.
  destruct (files m !! _normalizePath oldPath) as [oldFile |];
    [| discriminate].
  unfold await at 1 in Hmove.
  destruct (writeFile_run now (_normalizePath newPath) (stored e0)
              (Some (type oldFile)) m Hdb)
    as (m1 & Hdb1 & Hfiles1 & _ & _ & _ & Hrun).
  fold (twice newPath) in Hrun. rewrite Hrun in Hmove. clear Hrun.
  destruct (is_function _); [discriminate |].
  unfold await at 1 in Hmove. unfold deleteFile, await, initialized in Hmove.
  cbn [db files directories ticks] in Hmove.
  fold (twice oldPath) in Hmove. unfold resolve in Hmove.
  injection Hmove as <- <-. cbn [files].
  split; [reflexivity |]. split; [apply lookup_delete_eq |]. split.
  - intros Hne. eexists e0, _. split; [reflexivity |].
    rewrite lookup_delete_ne by congruence.
    rewrite lookup_insert_eq. split; [reflexivity |].
    cbn [stored size]. split; [| reflexivity].
    destruct (stored e0); reflexivity.
  - intros q Ho Hn.
    now rewrite lookup_delete_ne, lookup_insert_ne by congruence.
Qed.

Lemma moved_file_leaves_old_path_witness :
  let m := (writeFile Z.of_nat "/a.txt" (Text "hi") None fresh).1 in
  let r := moveFile Z.of_nat "a.txt" "/a.txt/" m in
  is_Some (files m !! "/a.txt")
  /\ r.2 = Resolved "/a.txt"
  /\ files r.1 !! "/a.txt" = None.
Proof.
  intros m r.
  assert (Hmove : moveFile Z.of_nat "a.txt" "/a.txt/" m
                  = (r.1, Resolved "/a.txt")) by (vm_compute; reflexivity).
  split; [vm_compute; eauto |]. split; [vm_compute; reflexivity |].
  exact (proj1 (proj2 (moved_file_leaves_old_path Z.of_nat "a.txt" "/a.txt/"
                         m r.1 "/a.txt" Hmove))).
Defined.

(** X21. On an opened file system, reading a path
    that names no file is rejected with [File not found: <normalized
    path>] and changes nothing; so are [moveFile] and [copyFile] from
    such a path (which they normalize twice).  [deleteFile] of such a
    path resolves and leaves the files as they are, and [exists] answers
    whether a directory has that path. *)
Theorem missing_file_is_reported (now : nat -> Z) (path other : string)
  (encoding : string) (m : manager) (Hdb : db m = true) :
  (files m !! _normalizePath path = None ->
   readFile path encoding m
   = (m, Rejected (Error ("File not found: " ++ _normalizePath path)))
   /\ (deleteFile path m).2 = Resolved tt
   /\ files (deleteFile path m).1 = files m
   /\ exists_ path m
      = (m, Resolved
              (bool_decide
                 (is_Some (directories m !! _normalizePath path)))))
  /\ (files m !! twice path = None ->
      moveFile now path other m
      = (m, Rejected (Error ("File not found: " ++ twice path)))
      /\ copyFile now path other m
         = (m, Rejected (Error ("File not found: " ++ twice path)))).
Proof.
  split.
  - intros Hnone. split; [now apply readFile_missing |].
    unfold deleteFile, exists_, await, initialized. rewrite Hdb, Hnone.
    cbn [fst snd files]. repeat split.
    now apply delete_id.
  - intros Hnone. split.
    + unfold moveFile. unfold await at 1. unfold initialized. rewrite Hdb.
      unfold await at 1.
      now rewrite (readFile_missing _ "text" m Hdb Hnone).
    + unfold copyFile. unfold await at 1. unfold initialized. rewrite Hdb.
      unfold await at 1.
      now rewrite (readFile_missing _ "text" m Hdb Hnone).
Qed.

Lemma missing_file_is_reported_witness :
  db fresh = true
  /\ readFile "dump.bin" "binary" fresh
     = (fresh, Rejected (Error "File not found: /dump.bin")).
Proof.
  split; [reflexivity |].
  exact (proj1 (proj1 (missing_file_is_reported Z.of_nat "dump.bin" ""
                         "binary" fresh eq_refl) eq_refl)).
Defined.

(** *** Directories *)

Lemma mkdirLoop_spec (now : nat -> Z) (parts : list string) (cur : string)
  (m : manager) :
  let step := fun currentPath part => currentPath ++ "/" ++ part in
  let r := mkdirLoop now parts cur m in
  r.2 = Resolved tt
  /\ db r.1 = db m /\ files r.1 = files m
  /\ (forall q d, directories m !! q = Some d ->
                  directories r.1 !! q = Some d)
  /\ forall k, (0 < k <= length parts)%nat ->
               is_Some (directories r.1 !! fold_left step (take k parts) cur).
Proof.
  intros step. revert cur m.
  induction parts as [|part rest IH]; intros cur m r.
  - subst r. cbn. repeat split; auto. intros k Hk. lia.
  - subst r.
    assert (He : exists m1,
      _ensureDirectory now (step cur part) m = (m1, Resolved tt)
      /\ db m1 = db m /\ files m1 = files m
      /\ (forall q d, directories m !! q = Some d ->
                      directories m1 !! q = Some d)
      /\ is_Some (directories m1 !! step cur part)).
    { unfold _ensureDirectory.
      destruct (directories m !! step cur part) as [d0 |] eqn:Ed.
      - exists m. repeat split; auto; rewrite Ed; eauto.
      - eexists. split; [reflexivity |]. cbn. repeat split; auto.
        + intros q d Hq. rewrite lookup_insert_ne; [assumption |].
          intros <-. congruence.
        + rewrite lookup_insert_eq. eauto. }
    destruct He as (m1 & Hens & Hdb1 & Hfiles1 & Hkeep1 & Hdir1).
    assert (Hrun : mkdirLoop now (part :: rest) cur m
                   = mkdirLoop now rest (step cur part) m1).
    { cbn [mkdirLoop]. unfold await. fold (step cur part).
      now rewrite Hens. }
    rewrite Hrun.
    destruct (IH (step cur part) m1) as (Hr & Hdb2 & Hfiles2 & Hkeep2 & Hall).
    split; [exact Hr |]. split; [congruence |]. split; [congruence |].
    split; [intros q d Hq; apply Hkeep2, Hkeep1, Hq |].
    intros k Hk. destruct k as [|k]; [lia |].
    change (fold_left step (take (S k) (part :: rest)) cur)
      with (fold_left step (take k rest) (step cur part)).
    destruct k as [|k].
    + change (fold_left step (take 0 rest) (step cur part))
        with (step cur part).
      destruct Hdir1 as [d Hd]. rewrite (Hkeep2 _ _ Hd). eauto.
    + apply Hall. cbn [length] in Hk. lia.
Qed.

(** X22. On an opened file system [mkdir]
    resolves with the normalized path and leaves a directory entry for
    every ancestor: with the non-empty parts [p1, ..., pn] of the path
    there are entries for [/p1], [/p1/p2], up to [/p1/.../pn].  Entries
    that were there are kept as they are, and no file changes. *)
Theorem mkdir_creates_every_ancestor (now : nat -> Z) (path : string)
  (m : manager) (Hdb : db m = true) :
  let r := mkdir now path m in
  r.2 = Resolved (_normalizePath path)
  /\ files r.1 = files m
  /\ (forall q d, directories m !! q = Some d ->
                  directories r.1 !! q = Some d)
  /\ forall k, (0 < k <= length (partsOf path))%nat ->
               is_Some (directories r.1 !! joined (take k (partsOf path))).
Proof.
  intros r.
  destruct (mkdirLoop_spec now (partsOf path) "" m)
    as (Hr & _ & Hfiles & Hkeep & Hall).
  cbv zeta in Hr, Hfiles, Hkeep, Hall.
  assert (Hrun : r = ((mkdirLoop now (partsOf path) "" m).1,
                      Resolved (_normalizePath path))).
  { subst r. unfold mkdir, await, initialized. rewrite Hdb.
    fold (partsOf path).
    destruct (mkdirLoop now (partsOf path) "" m) as [m1 s1].
    cbn [snd] in Hr. now subst s1. }
  rewrite Hrun. cbn [fst snd]. repeat split; assumption.
Qed.

Lemma mkdir_creates_every_ancestor_witness :
  let r := mkdir Z.of_nat "dumps//tags/ntag/" fresh in
  db fresh = true
  /\ is_Some (directories r.1 !! "/dumps")
  /\ is_Some (directories r.1 !! "/dumps/tags")
  /\ is_Some (directories r.1 !! "/dumps/tags/ntag").
Proof.
  intros r. split; [reflexivity |].
  destruct (mkdir_creates_every_ancestor Z.of_nat "dumps//tags/ntag/" fresh
              eq_refl) as (_ & _ & _ & Hall).
  split; [exact (Hall 1%nat ltac:(vm_compute; lia)) |].
  split; [exact (Hall 2%nat ltac:(vm_compute; lia)) |].
  exact (Hall 3%nat ltac:(vm_compute; lia)).
Defined.

Lemma lastIndexOf_lt (s : string) (c : ascii) :
  -1 <= lastIndexOf s c < strlen s.
Proof.
  unfold strlen. induction s as [|x r IH]; [cbn; lia |].
  cbn [lastIndexOf String.length]. cbv zeta.
  destruct (Z.leb_spec 0 (lastIndexOf r c)); [lia |].
  destruct (Ascii.eqb x c); lia.
Qed.

Lemma length_std_substring (s : string) (n k : nat) :
  (String.length (String.substring n k s) <= k)%nat.
Proof.
  revert n k. induction s as [|x r IH]; intros n k.
  - destruct n, k; cbn; lia.
  - destruct n as [|n]; cbn [String.substring].
    + destruct k as [|k]; cbn [String.length]; [lia |].
      specialize (IH 0%nat k). lia.
    + apply IH.
Qed.

(** The parent of a path is the root or a shorter path. *)
Lemma parentOf_shorter (path : string) :
  parentOf path <> "/" -> strlen (parentOf path) < strlen path.
Proof.
  unfold parentOf, or_else.
  destruct (bool_decide_reflect (substring path 0 (lastIndexOf path "/") = ""))
    as [E | E]; [congruence |]. intros _.
  pose proof (lastIndexOf_lt path "/") as Hk.
  assert (Hpos : 0 < strlen (substring path 0 (lastIndexOf path "/"))).
  { unfold strlen.
    destruct (substring path 0 (lastIndexOf path "/")); [congruence |].
    cbn [String.length]. lia. }
  revert Hpos. unfold substring, strlen in *.
  match goal with
  | |- context [String.substring ?n ?k path] =>
    pose proof (length_std_substring path n k)
  end.
  lia.
Qed.

(** The loop over the directories stops at a directory whose parent is
    neither the root nor a directory of the list. *)
Lemma addDirs_orphan (known : string -> Prop)
  (dirs : list (string * dirEntry)) (heap : list node)
  (dirMap : gmap string nat) :
  (forall k, is_Some (dirMap !! k) -> k = "/" \/ known k) ->
  (forall path d, In (path, d) dirs -> known path) ->
  (exists path d, In (path, d) dirs
                  /\ parentOf path <> "/" /\ ~ known (parentOf path)) ->
  addDirs dirs heap dirMap = None.
Proof.
  revert heap dirMap.
  induction dirs as [|[path d] rest IH]; intros heap dirMap Hmap Hdirs Horphan.
  - destruct Horphan as (? & ? & [] & _).
  - cbn [addDirs]. fold (parentOf path).
    destruct (dirMap !! parentOf path) as [parent |] eqn:Ep; [| reflexivity].
    apply IH.
    + intros k [v Hk].
      destruct (decide (k = path)) as [-> | Hne].
      * right. apply (Hdirs path d). now left.
      * rewrite lookup_insert_ne in Hk by congruence. apply Hmap. eauto.
    + intros p' d' Hin. apply (Hdirs p' d'). now right.
    + destruct Horphan as (p' & d' & [[= <- <-] | Hin] & Hroot & Hknown).
      * exfalso. destruct (Hmap (parentOf path)) as [? | ?]; eauto.
      * exists p', d'. auto.
Qed.

(** X23. [writeFile] registers the directory of
    the file but none of its ancestors.  So after a write into a
    directory whose parent is not the root and has no entry yet,
    [getTree] is rejected with a [TypeError] (the parent node is
    [undefined]), however the directories are sorted. *)
Theorem nested_write_breaks_tree (now : nat -> Z)
  (sort : list (string * dirEntry) -> list (string * dirEntry))
  (Hsort : forall l, Permutation (sort l) l)
  (path : string) (c : content) (ty : option mime) (m : manager)
  (Hdb : db m = true) :
  let dir := (_parsePath (_normalizePath path)).1 in
  dir <> "/" -> parentOf dir <> "/" ->
  directories m !! parentOf dir = None ->
  let m' := (writeFile now path c ty m).1 in
  getTree sort m' = (m', Rejected TypeError).
Proof.
  intros dir Hdir Hparent Hnone m'.
  destruct (writeFile_effect now path c ty m Hdb)
    as (Hdb' & _ & Hother & Hthere & _).
  fold dir m' in Hdb', Hother, Hthere.
  unfold getTree. rewrite Hdb'. cbn [negb].
  rewrite (addDirs_orphan (fun k => is_Some (directories m' !! k)));
    [reflexivity | | |].
  - intros k [v Hk].
    destruct (decide (k = "/")) as [-> | Hne]; [now left |].
    rewrite lookup_singleton_ne in Hk by congruence. discriminate.
  - intros p d Hin.
    apply (Permutation_in _ (Hsort _)) in Hin.
    apply list_elem_of_In, elem_of_map_to_list in Hin. eauto.
  - destruct (Hthere Hdir) as [d Hd].
    exists dir, d. split; [| split; [exact Hparent |]].
    + apply (Permutation_in _ (Permutation_sym (Hsort _))).
      apply list_elem_of_In, elem_of_map_to_list. exact Hd.
    + rewrite Hother, Hnone; [intros [? ?]; discriminate |].
      intros E. pose proof (parentOf_shorter dir Hparent) as Hlt.
      rewrite E in Hlt. lia.
Qed.

Lemma nested_write_breaks_tree_witness :
  let m' := (writeFile Z.of_nat "dumps/tags/ntag215.bin" (Bytes [4; 8])
                       None fresh).1 in
  db fresh = true
  /\ (forall l : list (string * dirEntry), Permutation l l)
  /\ getTree (fun l => l) m' = (m', Rejected TypeError).
Proof.
  intros m'. split; [reflexivity |].
  split; [intros l; apply Permutation_refl |].
  apply (nested_write_breaks_tree Z.of_nat (fun l => l)
           (fun l => Permutation_refl l)
           "dumps/tags/ntag215.bin" (Bytes [4; 8]) None fresh eq_refl).
  - vm_compute. discriminate.
  - vm_compute. discriminate.
  - reflexivity.
Defined.

(** *** Stored paths *)

Lemma prefix_empty (s : string) : String.prefix "" s = true.
Proof. now destruct s. Qed.

Lemma startsWith_substring (p : string) (k : Z) :
  startsWith p "/" = true -> 1 <= k ->
  startsWith (substring p 0 k) "/" = true.
Proof.
  unfold startsWith, substring, strlen. intros Hp Hk.
  destruct p as [|c r]; [discriminate |].
  cbn [String.length].
  set (w := Z.of_nat (S (String.length r))).
  replace (Z.to_nat (Z.min (Z.max 0 (Z.min 0 w)) (Z.max 0 (Z.min k w))))
    with 0%nat by lia.
  destruct (Z.to_nat _) as [|n] eqn:En; [lia |].
  cbn [String.substring]. cbn [String.prefix] in *.
  destruct (ascii_dec "/" c); [| discriminate].
  now destruct (String.substring 0 n r).
Qed.

Lemma substring_nonpositive (p : string) (k : Z) :
  k <= 0 -> substring p 0 k = "".
Proof.
  intros Hk. unfold substring.
  replace (Z.to_nat (Z.max _ _ - Z.min _ _)) with 0%nat by lia.
  replace (Z.to_nat (Z.min _ _)) with 0%nat by lia.
  now destruct p.
Qed.

Lemma normalizePath_rooted (path : string) :
  startsWith (_normalizePath path) "/" = true.
Proof.
  unfold _normalizePath.
  set (p := if negb (startsWith path "/") then "/" ++ path else path).
  assert (Hp : startsWith p "/" = true).
  { unfold p. destruct (startsWith path "/") eqn:E; [exact E |].
    unfold startsWith. cbn. now destruct path. }
  clearbody p.
  destruct (bool_decide_reflect (p = "/")) as [-> | Hne]; [reflexivity |].
  cbn [negb andb]. destruct (endsWith p "/"); [| exact Hp].
  apply startsWith_substring; [exact Hp |].
  unfold startsWith in Hp.
  destruct p as [|c [|c' r]]; cbn [String.prefix] in Hp; [discriminate | |].
  - destruct (ascii_dec "/" c) as [<- |]; [congruence | discriminate].
  - unfold strlen. cbn [String.length]. lia.
Qed.

Lemma parsePath_rooted (p : string) :
  startsWith p "/" = true -> startsWith (_parsePath p).1 "/" = true.
Proof.
  intros Hp. unfold _parsePath, or_else. cbn [fst].
  destruct (bool_decide_reflect (substring p 0 (lastIndexOf p "/") = ""))
    as [E | E]; [reflexivity |].
  apply startsWith_substring; [exact Hp |].
  destruct (Z_le_gt_dec (lastIndexOf p "/") 0) as [Hle | Hgt]; [| lia].
  now rewrite substring_nonpositive in E.
Qed.

Lemma startsWith_app (cur rest : string) :
  startsWith cur "/" = true -> startsWith (cur ++ rest) "/" = true.
Proof.
  unfold startsWith. destruct cur as [|c r]; [discriminate |].
  change (String c r ++ rest) with (String c (r ++ rest)).
  cbn [String.prefix].
  destruct (ascii_dec "/" c); [| discriminate].
  intros _. apply prefix_empty.
Qed.

Lemma rooted_mkdirLoop (now : nat -> Z) (parts : list string) (cur : string)
  (m : manager) :
  cur = "" \/ startsWith cur "/" = true ->
  rooted m -> rooted (mkdirLoop now parts cur m).1.
Proof.
  revert cur m. induction parts as [|part rest IH]; intros cur m Hcur Hm;
    [exact Hm |].
  cbn [mkdirLoop]. unfold await.
  assert (Hstep : startsWith (cur ++ "/" ++ part) "/" = true).
  { destruct Hcur as [-> | Hcur]; [| now apply startsWith_app].
    unfold startsWith. cbn. now destruct part. }
  unfold _ensureDirectory.
  destruct (directories m !! (cur ++ "/" ++ part)) as [d0 |] eqn:Ed.
  - apply IH; [now right | exact Hm].
  - unfold await, Date_now, put_directory. apply IH; [now right |].
    destruct Hm as [Hd Hf]. split; cbn [directories files]; [| exact Hf].
    intros q d Hq.
    destruct (decide (q = cur ++ "/" ++ part)) as [-> | Hne];
      [exact Hstep |].
    rewrite lookup_insert_ne in Hq by congruence. eauto.
Qed.

Lemma rooted_writeFile (now : nat -> Z) (path : string) (c : content)
  (ty : option mime) (m : manager) :
  rooted m -> rooted (writeFile now path c ty m).1.
Proof.
  intros Hm. destruct (db m) eqn:Hdb.
  2:{ unfold writeFile, await, initialized. now rewrite Hdb. }
  pose proof (normalizePath_rooted path) as Hp.
  pose proof (parsePath_rooted _ Hp) as Hdir.
  destruct (writeFile_effect now path c ty m Hdb)
    as (_ & _ & Hother & _ & H).
  destruct Hm as [Hd Hf]. split.
  - intros q d Hq.
    destruct (decide (q = (_parsePath (_normalizePath path)).1))
      as [-> | Hne]; [exact Hdir |].
    rewrite Hother in Hq by exact Hne. eauto.
  - intros q f Hq. destruct (is_function _).
    + destruct H as [_ Hfiles]. rewrite Hfiles in Hq. eauto.
    + destruct H as (_ & e & Hfiles & _ & Hedir & _).
      rewrite Hfiles in Hq.
      destruct (decide (q = _normalizePath path)) as [-> | Hne].
      * rewrite lookup_insert_eq in Hq. injection Hq as <-.
        rewrite Hedir. auto.
      * rewrite lookup_insert_ne in Hq by congruence. eauto.
Qed.

Lemma rooted_deleteFile (path : string) (m : manager) :
  rooted m -> rooted (deleteFile path m).1.
Proof.
  intros [Hd Hf]. unfold deleteFile, await, initialized.
  destruct (db m); [| now split]. split; cbn [fst directories files].
  - exact Hd.
  - intros q f Hq. apply lookup_delete_Some in Hq as [_ Hq]. eauto.
Qed.

Lemma readFile_state (path encoding : string) (m : manager) :
  (readFile path encoding m).1 = m.
Proof.
  unfold readFile, await, initialized. destruct (db m); [| reflexivity].
  destruct (files m !! _normalizePath path) as [e |]; [| reflexivity].
  destruct (bool_decide _); [| reflexivity]. now destruct (stored e).
Qed.

Lemma rooted_moveFile (now : nat -> Z) (oldPath newPath : string)
  (m : manager) :
  rooted m -> rooted (moveFile now oldPath newPath m).1.
Proof.
  intros Hm. unfold moveFile. unfold await at 1. unfold initialized.
  destruct (db m); [| exact Hm].
  unfold await at 1.
  pose proof (readFile_state (_normalizePath oldPath) "text" m) as Hst.
  destruct (readFile (_normalizePath oldPath) "text" m) as [m0 [c | e]];
    cbn [fst] in Hst; subst m0; [| exact Hm].
  unfold await at 1. unfold get_file.
  destruct (files m !! _normalizePath oldPath) as [oldFile |]; [| exact Hm].
  unfold await at 1.
  pose proof (rooted_writeFile now (_normalizePath newPath) c
                (Some (type oldFile)) m Hm) as Hw.
  destruct (writeFile now (_normalizePath newPath) c (Some (type oldFile)) m)
    as [m1 [v | e]]; cbn [fst] in Hw; [| exact Hw].
  unfold await at 1.
  pose proof (rooted_deleteFile (_normalizePath oldPath) m1 Hw) as Hdel.
  now destruct (deleteFile (_normalizePath oldPath) m1) as [m2 [[] | e]].
Qed.

Lemma rooted_copyFile (now : nat -> Z) (srcPath destPath : string)
  (m : manager) :
  rooted m -> rooted (copyFile now srcPath destPath m).1.
Proof.
  intros Hm. unfold copyFile. unfold await at 1. unfold initialized.
  destruct (db m); [| exact Hm].
  unfold await at 1.
  pose proof (readFile_state (_normalizePath srcPath) "text" m) as Hst.
  destruct (readFile (_normalizePath srcPath) "text" m) as [m0 [c | e]];
    cbn [fst] in Hst; subst m0; [| exact Hm].
  unfold await at 1. unfold get_file.
  destruct (files m !! _normalizePath srcPath) as [srcFile |]; [| exact Hm].
  unfold await at 1.
  pose proof (rooted_writeFile now (_normalizePath destPath) c
                (Some (type srcFile)) m Hm) as Hw.
  now destruct (writeFile now (_normalizePath destPath) c
                          (Some (type srcFile)) m) as [m1 [v | e]].
Qed.

Lemma rooted_mkdir (now : nat -> Z) (path : string) (m : manager) :
  rooted m -> rooted (mkdir now path m).1.
Proof.
  intros Hm. unfold mkdir. unfold await at 1. unfold initialized.
  destruct (db m); [| exact Hm].
  unfold await.
  pose proof (rooted_mkdirLoop now
    (filter (fun p => negb (bool_decide (p = "")))
            (split (_normalizePath path) "/")) "" m (or_introl eq_refl) Hm)
    as Hl.
  now destruct (mkdirLoop now _ "" m) as [m1 [[] | e]].
Qed.

(** X24. Whatever sequence of [writeFile],
    [deleteFile], [moveFile], [copyFile] and [mkdir] calls is made on a
    fresh file system, with whatever paths, every key of the two stores
    and the directory recorded for every file starts with a slash; and
    the path a [writeFile] resolves with starts with a slash, so it is
    never the empty string. *)
Theorem stored_paths_are_rooted (now : nat -> Z) (calls : list call) :
  rooted (fold_left (perform now) calls fresh)
  /\ forall path c ty v,
       (writeFile now path c ty (fold_left (perform now) calls fresh)).2
       = Resolved v ->
       startsWith v "/" = true.
Proof.
  split.
  - assert (H : forall m, rooted m -> rooted (fold_left (perform now) calls m)).
    { induction calls as [|c rest IH]; intros m Hm; [exact Hm |].
      cbn [fold_left]. apply IH.
      destruct c; cbn [perform];
        auto using rooted_writeFile, rooted_deleteFile, rooted_moveFile,
                   rooted_copyFile, rooted_mkdir. }
    apply H. split; intros q x Hq; cbn in Hq;
      rewrite lookup_empty in Hq; discriminate.
  - intros path c ty v Hv.
    set (m := fold_left (perform now) calls fresh) in *.
    destruct (db m) eqn:Hdb.
    + destruct (writeFile_effect now path c ty m Hdb) as (_ & _ & _ & _ & H).
      destruct (is_function _).
      * destruct H as [H _]. congruence.
      * destruct H as [H _]. rewrite H in Hv. injection Hv as <-.
        apply normalizePath_rooted.
    + unfold writeFile, await, initialized in Hv. rewrite Hdb in Hv.
      discriminate.
Qed.

End FSFacts.

(** ** The command line: arguments, history and helpers *)

Module ShellFacts.
Import JS Codec Exec Text Shell JSFacts ExecFacts DumpFacts.
Local Open Scope string_scope.
Local Open Scope Z_scope.

(** *** The tokenizer *)

(** What [tokenize] returns from the state the loop ends in. *)
Lemma tokenize_fold (cmdStr : string) :
  tokenize cmdStr
  = let st := fold_left lexStep (list_ascii_of_string cmdStr)
                        (mkLexer [] "" false "") in
    if negb (bool_decide (current st = ""))
    then (argv st ++ [current st])%list else argv st.
Proof. reflexivity. Qed.

Lemma lexStep_argv_nonempty (st : lexer) (char : ascii) :
  Forall (fun a => a <> "") (argv st) ->
  Forall (fun a => a <> "") (argv (lexStep st char)).
Proof.
  intros H. unfold lexStep.
  destruct ((Ascii.eqb char dquote || Ascii.eqb char squote)
            && negb (inQuotes st)); [exact H |].
  destruct (bool_decide (String char "" = quoteChar st) && inQuotes st);
    [exact H |].
  destruct (Ascii.eqb char " " && negb (inQuotes st)); [| exact H].
  destruct (bool_decide_reflect (current st = "")) as [E | E]; [exact H |].
  cbn [negb argv]. apply Forall_app. split; [exact H |].
  constructor; [exact E | constructor].
Qed.

(** X25. No argument [parseCommand] hands to a
    command is the empty string, whatever the command line: an empty pair
    of quotes gives no argument at all. *)
Theorem tokens_are_never_empty (cmdStr : string) :
  Forall (fun a => a <> "") (tokenize cmdStr).
Proof.
  rewrite tokenize_fold. cbv zeta.
  assert (H : forall chars st,
             Forall (fun a => a <> "") (argv st) ->
             Forall (fun a => a <> "") (argv (fold_left lexStep chars st))).
  { induction chars as [|c rest IH]; intros st Hst; [exact Hst |].
    cbn [fold_left]. apply IH. now apply lexStep_argv_nonempty. }
  specialize (H (list_ascii_of_string cmdStr) (mkLexer [] "" false "")
                (Forall_nil_2 _)).
  destruct (bool_decide_reflect
              (current (fold_left lexStep (list_ascii_of_string cmdStr)
                                  (mkLexer [] "" false "")) = ""))
    as [E | E]; [exact H |].
  cbn [negb]. apply Forall_app. split; [exact H |].
  constructor; [exact E | constructor].
Qed.

Lemma chars_of_app (a b : string) :
  list_ascii_of_string (a ++ b)
  = (list_ascii_of_string a ++ list_ascii_of_string b)%list.
Proof.
  induction a as [|c a IH]; [reflexivity |].
  change (list_ascii_of_string (String c a ++ b))
    with (c :: list_ascii_of_string (a ++ b)).
  now rewrite IH.
Qed.

Lemma append_nil_r (a : string) : a ++ "" = a.
Proof.
  induction a as [|c a IH]; [reflexivity |].
  change (String c a ++ "") with (String c (a ++ "")). now rewrite IH.
Qed.

Lemma append_assoc (a b c : string) : (a ++ b) ++ c = a ++ (b ++ c).
Proof.
  induction a as [|x a IH]; [reflexivity |].
  change ((String x a ++ b) ++ c) with (String x ((a ++ b) ++ c)).
  now rewrite IH.
Qed.

(** Inside double quotes every other character is kept. *)
Lemma lex_inside (a : string) (st : lexer) :
  inQuotes st = true -> quoteChar st = String dquote "" ->
  free_of dquote a ->
  fold_left lexStep (list_ascii_of_string a) st
  = mkLexer (argv st) (current st ++ a) true (String dquote "").
Proof.
  revert st. induction a as [|c a IH]; intros st Hin Hq Hfree.
  - cbn. rewrite append_nil_r. destruct st; cbn in *. now subst.
  - cbn [list_ascii_of_string fold_left].
    assert (Hc : c <> dquote).
    { intros ->. apply Hfree. now left. }
    assert (Hstep : lexStep st c
                    = mkLexer (argv st) (current st ++ String c "") true
                              (String dquote "")).
    { unfold lexStep. rewrite Hin, Hq. cbn [negb].
      rewrite !andb_false_r.
      rewrite (bool_decide_eq_false_2 (String c "" = String dquote ""))
        by congruence.
      reflexivity. }
    rewrite Hstep, IH; cbn [argv current inQuotes quoteChar]; auto.
    + now rewrite append_assoc.
    + intros H. apply Hfree. now right.
Qed.

Lemma lex_quoted (a : string) (argv0 : list string) (cur : string) :
  free_of dquote a ->
  fold_left lexStep (list_ascii_of_string (quoted a))
            (mkLexer argv0 cur false "")
  = mkLexer argv0 (cur ++ a) false "".
Proof.
  intros Hfree. unfold quoted.
  cbn [list_ascii_of_string fold_left]. rewrite chars_of_app, fold_left_app.
  assert (Hopen : lexStep (mkLexer argv0 cur false "") dquote
                  = mkLexer argv0 cur true (String dquote "")).
  { reflexivity. }
  rewrite Hopen. rewrite (lex_inside a) by (auto; reflexivity).
  cbn [argv current list_ascii_of_string fold_left].
  unfold lexStep. cbn [inQuotes quoteChar negb argv current].
  rewrite andb_false_r.
  now rewrite (bool_decide_eq_true_2 (String dquote "" = String dquote "")).
Qed.

Lemma lex_arguments (args argv0 : list string) :
  Forall (fun a => a <> "" /\ free_of dquote a) args ->
  let st := fold_left lexStep
              (list_ascii_of_string (join " " (map quoted args)))
              (mkLexer argv0 "" false "") in
  (if negb (bool_decide (current st = ""))
   then (argv st ++ [current st])%list else argv st)
  = (argv0 ++ args)%list.
Proof.
  revert argv0. induction args as [|a rest IH]; intros argv0 Hall st.
  - subst st. cbn. now rewrite app_nil_r.
  - apply Forall_cons in Hall as [[Hne Hfree] Hall].
    destruct rest as [|b rest].
    + subst st. unfold join. cbn [map String.concat].
      rewrite lex_quoted by assumption. change ("" ++ a) with a.
      cbn [current argv].
      now rewrite (bool_decide_eq_false_2 (a = "")) by assumption.
    + subst st. unfold join.
      change (String.concat " " (map quoted (a :: b :: rest)))
        with (quoted a ++ " " ++ String.concat " " (map quoted (b :: rest))).
      rewrite chars_of_app, fold_left_app, lex_quoted by assumption.
      change ("" ++ a) with a.
      change (list_ascii_of_string
                (" " ++ String.concat " " (map quoted (b :: rest))))
        with (" "%char
              :: list_ascii_of_string
                   (String.concat " " (map quoted (b :: rest)))).
      cbn [fold_left].
      assert (Hspace : lexStep (mkLexer argv0 a false "") " "
                       = mkLexer (argv0 ++ [a]) "" false "").
      { unfold lexStep. cbn [inQuotes quoteChar current argv negb].
        change (Ascii.eqb " " dquote || Ascii.eqb " " squote) with false.
        rewrite (bool_decide_eq_false_2 (" " = "")) by discriminate.
        cbn [andb]. change (Ascii.eqb " " " ") with true. cbn [andb].
        now rewrite (bool_decide_eq_false_2 (a = "")) by assumption. }
      rewrite Hspace.
      specialize (IH (argv0 ++ [a])%list Hall). cbv zeta in IH.
      unfold join in IH. rewrite IH, <- app_assoc. reflexivity.
Qed.

(** X26. Quoting protects arguments: for any
    list of non-empty arguments without a double quote in them (spaces and
    single quotes are fine), the command line made of the arguments, each
    between double quotes, separated by single spaces, is split by
    [parseCommand] into exactly these arguments. *)
Theorem quoted_arguments_round_trip (args : list string)
  (Hargs : Forall (fun a => a <> "" /\ free_of dquote a) args) :
  tokenize (join " " (map quoted args)) = args.
Proof.
  rewrite tokenize_fold. apply (lex_arguments args [] Hargs).
Qed.

Lemma quoted_arguments_round_trip_witness :
  let args := ["slot"; "save"; "my tag's dump.bin"] in
  Forall (fun a => a <> "" /\ free_of dquote a) args
  /\ tokenize (join " " (map quoted args)) = args.
Proof.
  intros args.
  assert (Hargs : Forall (fun a => a <> "" /\ free_of dquote a) args).
  { repeat constructor; try discriminate;
      (intros H; cbn in H; repeat destruct H as [H | H]; discriminate H
       || contradiction). }
  split; [exact Hargs |].
  exact (quoted_arguments_round_trip args Hargs).
Defined.

(** *** The history *)

Lemma no_repeat_tail (a : string) (l : list string) :
  no_repeat (a :: l) -> no_repeat l.
Proof. destruct l as [|b l]; [easy |]. now intros [_ H]. Qed.

Lemma no_repeat_push (l : list string) (c : string) :
  no_repeat l ->
  (len l =? 0) || negb (bool_decide (at_ l (len l - 1) = Some c)) = true ->
  no_repeat (l ++ [c]).
Proof.
  induction l as [|a l IH]; intros Hl Hlast; [exact I |].
  destruct l as [|b l].
  - cbn [app no_repeat]. split; [| exact I].
    change (len [a] =? 0) with false in Hlast.
    change (at_ [a] (len [a] - 1)) with (Some a) in Hlast.
    cbn [orb] in Hlast. apply negb_true_iff in Hlast.
    apply bool_decide_eq_false_1 in Hlast. congruence.
  - change ((a :: b :: l) ++ [c])%list with (a :: b :: (l ++ [c]))%list.
    destruct Hl as [Hab Hl]. split; [exact Hab |].
    apply IH; [exact Hl |].
    rewrite orb_true_iff in Hlast. destruct Hlast as [Hlast | Hlast].
    + rewrite (len_cons a) in Hlast. pose proof (len_nonneg (b :: l)).
      apply Z.eqb_eq in Hlast. lia.
    + rewrite orb_true_iff. right.
      rewrite (len_cons a) in Hlast.
      replace (1 + len (b :: l) - 1) with (1 + (len (b :: l) - 1))
        in Hlast by lia.
      unfold at_ in Hlast |- *.
      rewrite (len_cons b) in Hlast |- *. pose proof (len_nonneg l).
      destruct (Z.ltb_spec (1 + (1 + len l - 1)) 0); [lia |].
      destruct (Z.ltb_spec (1 + len l - 1) 0); [lia |].
      replace (Z.to_nat (1 + (1 + len l - 1)))
        with (S (Z.to_nat (1 + len l - 1))) in Hlast by lia.
      exact Hlast.
Qed.

Lemma tidy_keydown (h : history) (k : key) : tidy h -> tidy (keydown h k).
Proof.
  intros (Hlen & Hidx & Hne & Hrep). pose proof (len_nonneg (commandHistory h)).
  destruct k; cbn [keydown].
  - destruct (Z.eqb_spec (len (commandHistory h)) 0); [now repeat split |].
    repeat split; cbn [commandHistory historyIndex]; auto.
    destruct (Z.eqb_spec (historyIndex h) (-1)); [lia |].
    destruct (Z.ltb_spec 0 (historyIndex h)); lia.
  - destruct (Z.eqb_spec (historyIndex h) (-1)); [now repeat split |].
    destruct (Z.ltb_spec (historyIndex h) (len (commandHistory h) - 1));
      repeat split; cbn [commandHistory historyIndex]; auto; lia.
  - cbv zeta.
    destruct (bool_decide_reflect (trim (value h) = "")) as [E | E];
      [now repeat split |].
    destruct ((len (commandHistory h) =? 0)
              || negb (bool_decide
                         (at_ (commandHistory h) (len (commandHistory h) - 1)
                          = Some (trim (value h))))) eqn:Epush.
    + assert (Hne' : Forall (fun c => c <> "")
                            (commandHistory h ++ [trim (value h)])).
      { apply Forall_app. split; [exact Hne |]. now repeat constructor. }
      pose proof (no_repeat_push _ _ Hrep Epush) as Hrep'.
      rewrite len_app. change (len [trim (value h)]) with 1.
      destruct (Z.ltb_spec 100 (len (commandHistory h) + 1)).
      * destruct (commandHistory h ++ [trim (value h)])%list as [|a l] eqn:El.
        { destruct (commandHistory h); discriminate. }
        assert (Hl : len (a :: l) = len (commandHistory h) + 1).
        { rewrite <- El, len_app. reflexivity. }
        rewrite len_cons in Hl.
        change (slice_from (a :: l) 1) with l.
        repeat split; cbn [commandHistory historyIndex].
        -- lia.
        -- now left.
        -- now apply Forall_cons in Hne' as [_ ?].
        -- now apply no_repeat_tail in Hrep'.
      * repeat split; cbn [commandHistory historyIndex]; auto.
        rewrite len_app. change (len [trim (value h)]) with 1. lia.
    + repeat split; cbn [commandHistory historyIndex]; auto.
  - now repeat split.
Qed.

(** X27. Whatever is typed and whichever of the arrow
    and Enter keys are pressed, the command history never holds more than
    100 commands, never holds an empty command or the same command twice
    in a row, and the history index is -1 or points at an entry, so that
    recalling never shows [undefined]. *)
Theorem history_stays_tidy (keys : list key) :
  let h := fold_left keydown keys (mkHistory [] (-1) "") in
  len (commandHistory h) <= 100
  /\ (historyIndex h = -1
      \/ exists c, at_ (commandHistory h) (historyIndex h) = Some c)
  /\ Forall (fun c => c <> "") (commandHistory h)
  /\ no_repeat (commandHistory h).
Proof.
  intros h.
  assert (H : forall h0, tidy h0 -> tidy (fold_left keydown keys h0)).
  { induction keys as [|k rest IH]; intros h0 Hh0; [exact Hh0 |].
    cbn [fold_left]. apply IH. now apply tidy_keydown. }
  destruct (H (mkHistory [] (-1) "")) as (Hlen & Hidx & Hne & Hrep).
  { unfold tidy. cbn [commandHistory historyIndex].
    split; [change (len (@nil string)) with 0; lia |]. split; [now left |].
    split; [constructor | exact I]. }
  fold h in Hlen, Hidx, Hne, Hrep.
  repeat split; auto.
  destruct Hidx as [Hidx | Hidx]; [now left | right].
  unfold at_. destruct (Z.ltb_spec (historyIndex h) 0); [lia |].
  apply lookup_lt_is_Some. unfold len in Hidx. lia.
Qed.

(** *** Slot change *)

(** X28. [slot change <arg>] with a non-empty
    argument: when [parseInt] reads a number from 1 to 8 the command
    asks the device for that slot (the number minus one); when it reads a
    number outside, nothing is sent and [Slot must be 1-8] is logged; and
    when it reads no number at all ([NaN]) the range check lets it pass
    and the device is asked for slot 1 (byte 0). *)
Theorem slot_change_takes_non_numbers {D} (device_cmd : device D)
  (arg : string) (w : world D note) (Harg : arg <> "") :
  let w' := (slotChange device_cmd ["change"; arg] w).1 in
  match parseInt arg None with
  | Some n =>
    if (1 <=? n) && (n <=? 8) then
      map fst (trace w')
      = (map fst (trace w)
         ++ [mkRequest Session.CMD_SET_ACTIVE_SLOT (Some [n - 1])])%list
    else trace w' = trace w
         /\ console w' = (console w ++ [(true, SlotMustBe1To8)])%list
  | None =>
    map fst (trace w')
    = (map fst (trace w)
       ++ [mkRequest Session.CMD_SET_ACTIVE_SLOT (Some [0])])%list
  end.
Proof.
  intros w'. subst w'. unfold slotChange.
  change (at_ ["change"; arg] 1) with (Some arg).
  destruct arg as [|c arg]; [congruence |].
  set (a := String c arg).
  assert (Hsent : forall b,
    map fst (trace
      ((let* result := cmd_ device_cmd Session.CMD_SET_ACTIVE_SLOT
                            (Some [b]) in
        if status result =? Session.SUCCESS
        then let* _ := log false (ChangedToSlot (parseInt a None)) in
             log false (OnSlotChanged (parseInt a None))
        else log true (ErrorChangingSlot (status result)))%exec w).1)
    = (map fst (trace w)
       ++ [mkRequest Session.CMD_SET_ACTIVE_SLOT (Some [b])])%list).
  { intros b. unfold bind, cmd_.
    destruct (device_cmd (dev w) Session.CMD_SET_ACTIVE_SLOT (Some [b]))
      as [d' [r | e]]; cbn [fst snd trace].
    - destruct (status r =? Session.SUCCESS); cbn;
        now rewrite map_app.
    - now rewrite map_app. }
  destruct (parseInt a None) as [n |] eqn:En; cbn [outside option_map].
  - destruct (Z.leb_spec 1 n), (Z.leb_spec n 8),
             (Z.ltb_spec n 1), (Z.ltb_spec 8 n); try lia; cbn [orb andb].
    + cbn [Session.u8o]. unfold u8. rewrite Z.mod_small by lia.
      apply Hsent.
    + now cbn.
    + now cbn.
  - cbn [Session.u8o]. apply Hsent.
Qed.

Lemma slot_change_takes_non_numbers_witness :
  let w := mkWorld tt [] [] [] in
  let w' := (slotChange obliging ["change"; "two"] w).1 in
  "two" <> ""
  /\ parseInt "two" None = None
  /\ map fst (trace w')
     = [mkRequest Session.CMD_SET_ACTIVE_SLOT (Some [0])].
Proof.
  intros w w'.
  assert (Harg : "two" <> "") by discriminate.
  split; [exact Harg |]. split; [reflexivity |].
  exact (slot_change_takes_non_numbers obliging "two" w Harg).
Defined.

(** *** Hex helpers *)

(** Every byte is written as two hex digits that [parseInt] reads back. *)
Lemma hex2_table :
  forallb
    (fun n =>
       match hex2 (Z.of_nat n) with
       | String c1 (String c2 EmptyString) =>
         isHex c1 && isHex c2
         && bool_decide (parseInt (String c1 (String c2 "")) (Some 16)
                         = Some (Z.of_nat n))
       | _ => false
       end)
    (seq 0 256) = true.
Proof. vm_compute. reflexivity. Qed.

Lemma hex2_digits (b : Z) :
  0 <= b < 256 ->
  exists c1 c2,
    hex2 b = String c1 (String c2 "")
    /\ isHex c1 = true /\ isHex c2 = true
    /\ parseInt (String c1 (String c2 "")) (Some 16) = Some b.
Proof.
  intros Hb. pose proof hex2_table as H.
  rewrite forallb_forall in H. specialize (H (Z.to_nat b)).
  rewrite Z2Nat.id in H by lia.
  assert (Hin : In (Z.to_nat b) (seq 0 256)) by (apply in_seq; lia).
  specialize (H Hin).
  destruct (hex2 b) as [|c1 [|c2 [|c3 r]]]; try discriminate.
  apply andb_true_iff in H as [H H3]. apply andb_true_iff in H as [H1 H2].
  apply bool_decide_eq_true_1 in H3. now exists c1, c2.
Qed.

Lemma concat_no_separator (x : string) (xs : list string) :
  String.concat "" (x :: xs) = x ++ String.concat "" xs.
Proof.
  destruct xs as [|y ys]; [cbn [String.concat]; now rewrite append_nil_r |].
  reflexivity.
Qed.

Lemma substring_0_0 (s : string) : String.substring 0 0 s = "".
Proof. now destruct s. Qed.

Lemma hex2bytes_pair (c1 c2 : ascii) (rest : string) :
  isHex c1 = true -> isHex c2 = true ->
  hex2bytes (String c1 (String c2 rest))
  = Session.u8o (parseInt (String c1 (String c2 "")) (Some 16))
    :: hex2bytes rest.
Proof.
  intros H1 H2. unfold hex2bytes. cbn [cleanHex]. rewrite H1, H2.
  set (cl := cleanHex rest). cbv zeta.
  rewrite !range_by_seq. cbn [String.length].
  assert (Hq : 0 <= Z.of_nat (String.length cl) / 2)
    by (apply Z.div_pos; lia).
  replace (Z.to_nat (Z.of_nat (S (S (String.length cl))) / 2))
    with (S (Z.to_nat (Z.of_nat (String.length cl) / 2))).
  2:{ replace (Z.of_nat (S (S (String.length cl))))
        with (1 * 2 + Z.of_nat (String.length cl)) by lia.
      rewrite Z.div_add_l by lia. lia. }
  cbn [seq map]. f_equal.
  - unfold substr. change (Z.to_nat (Z.of_nat 0 * 2)) with 0%nat.
    change (Z.to_nat 2) with 2%nat. cbn [String.substring].
    now rewrite substring_0_0.
  - rewrite <- seq_shift, !map_map. apply map_ext. intros j.
    f_equal. f_equal. unfold substr.
    replace (Z.to_nat (Z.of_nat (S j) * 2))
      with (S (S (Z.to_nat (Z.of_nat j * 2)))) by lia.
    reflexivity.
Qed.

(** X29. [hex2bytes] undoes [bytes2hex]: for every array of
    bytes, writing it as hex and reading the hex back gives the same
    bytes. *)
Theorem hex_round_trip (bytes : list Z) (Hbytes : Forall byte_ok bytes) :
  hex2bytes (bytes2hex bytes) = bytes.
Proof.
  induction bytes as [|b rest IH]; [reflexivity |].
  apply Forall_cons in Hbytes as [Hb Hrest].
  unfold bytes2hex, join. cbn [map]. rewrite concat_no_separator.
  destruct (hex2_digits b Hb) as (c1 & c2 & -> & H1 & H2 & Hparse).
  change (String c1 (String c2 "") ++ String.concat "" (map hex2 rest))
    with (String c1 (String c2 (String.concat "" (map hex2 rest)))).
  rewrite hex2bytes_pair, Hparse by assumption.
  cbn [Session.u8o]. unfold u8. rewrite Z.mod_small by exact Hb.
  f_equal. apply (IH Hrest).
Qed.

Lemma hex_round_trip_witness :
  Forall byte_ok [0x04; 0xA3; 0x00; 0xFF]
  /\ hex2bytes (bytes2hex [0x04; 0xA3; 0x00; 0xFF]) = [0x04; 0xA3; 0x00; 0xFF].
Proof.
  assert (H : Forall byte_ok [0x04; 0xA3; 0x00; 0xFF]).
  { repeat constructor; unfold byte_ok; lia. }
  split; [exact H | exact (hex_round_trip _ H)].
Defined.

End ShellFacts.
